(** * The directory tree view of the Midnight Commander (src/filemanager/tree.c)

    A shallow embedding of the navigation, search and removal-hook code of
    the tree widget.  The backing store is the doubly linked list of
    [tree_entry] records owned by the tree store; the widget only keeps
    pointers into it.  Pointers are modelled as optional addresses into a
    finite heap ([None] is the C null pointer), C [int] values as [Z]
    (additions and subtractions are exact: the model does not follow the
    code past an overflow of [int]), and C strings as [string] values
    without the terminating NUL. *)

From Stdlib Require Import ZArith Ascii String.
From stdpp Require Import base option list gmap strings.

Local Open Scope Z_scope.

(** ** Results of running C code

    [Fault] is a run that dereferences a null or dangling pointer or writes
    outside an array; [OutOfFuel] is a loop of the model that used up its
    iteration budget (the model then says nothing about the C run). *)

Inductive outcome (A : Type) : Type :=
  | Done (a : A)
  | Fault
  | OutOfFuel.
Arguments Done {A} a.
Arguments Fault {A}.
Arguments OutOfFuel {A}.

#[global] Instance outcome_ret : MRet outcome := fun A a => Done a.
#[global] Instance outcome_bind : MBind outcome := fun A B f m =>
  match m with
  | Done a => f a
  | Fault => Fault
  | OutOfFuel => OutOfFuel
  end.

(** ** Data model *)

Abbreviation addr := positive.

(** [tree_entry] of treestore.h, with the fields the widget reads. *)
Record tree_entry : Type := TreeEntry {
  name : string;          (* full path, vfs_path_as_str (entry->name) *)
  sublevel : Z;           (* number of directory levels *)
  submask : Z;            (* connector mask, only used when drawing *)
  subname : string;       (* last path component *)
  next : option addr;
  prev : option addr
}.

(** [struct TreeStore]: the entries live in [heap]; [tree_first] and
    [tree_last] are the ends of the list. *)
Record TreeStore : Type := MkTreeStore {
  heap : gmap positive tree_entry;
  tree_first : option addr;
  tree_last : option addr
}.

(** [struct WTree].  [lines] is [WIDGET (tree)->lines].  [tree->store]
    points to the one store of the process, which the functions below take
    as an argument; [tree_shown], the per-row cache filled while drawing,
    is not part of the model. *)
Record WTree : Type := MkWTree {
  lines : Z;
  selected_ptr : option addr;
  search_buffer : string;
  is_panel : bool;
  active : bool;
  searching : bool;
  topdiff : Z
}.

(** Process-wide variables read by the widget: [tree_navigation_flag]
    (file scope of tree.c), [xtree_mode], and
    [panels_options.show_mini_info]. *)
Record Globals : Type := MkGlobals {
  tree_navigation_flag : bool;
  xtree_mode : bool;
  show_mini_info : bool
}.

Definition set_selected_ptr (p : option addr) (t : WTree) : WTree :=
  MkWTree (lines t) p (search_buffer t) (is_panel t) (active t) (searching t) (topdiff t).

Definition set_topdiff (d : Z) (t : WTree) : WTree :=
  MkWTree (lines t) (selected_ptr t) (search_buffer t) (is_panel t) (active t) (searching t) d.

Definition set_search_buffer (s : string) (t : WTree) : WTree :=
  MkWTree (lines t) (selected_ptr t) s (is_panel t) (active t) (searching t) (topdiff t).

Definition set_searching (b : bool) (t : WTree) : WTree :=
  MkWTree (lines t) (selected_ptr t) (search_buffer t) (is_panel t) (active t) b (topdiff t).

(** [ptr->field]: a null or dangling pointer faults. *)
Definition deref (ts : TreeStore) (p : option addr) : outcome tree_entry :=
  match p with
  | None => Fault
  | Some a => match heap ts !! a with
              | Some e => Done e
              | None => Fault
              end
  end.

(** Pointer comparison [p == q]. *)
Definition ptr_eqb (p q : option addr) : bool := bool_decide (p = q).

(** Iteration budget for the loops that follow [next] or [prev] links
    without a counter of their own: one more than the number of records. *)
Definition store_fuel (ts : TreeStore) : nat := S (size (heap ts)).

(** The macro [tlines (t)]. *)
Definition tlines (g : Globals) (t : WTree) : Z :=
  if is_panel t then lines t - 2 - (if show_mini_info g then 2 else 0) else lines t.

(** ** Navigation *)

(** [back_ptr (ptr, &count)]: the loop runs at most [count] times, so
    [count] itself is its budget. *)
Fixpoint back_ptr_loop (ts : TreeStore) (n : nat) (ptr : option addr) (i count : Z)
  : outcome (option addr * Z) :=
  match ptr with
  | None => Done (ptr, i)
  | Some _ =>
      e ← deref ts ptr;
      match prev e with
      | None => Done (ptr, i)
      | Some _ =>
          if i <? count then
            match n with
            | O => OutOfFuel
            | S n' => back_ptr_loop ts n' (prev e) (i + 1) count
            end
          else Done (ptr, i)
      end
  end.

Definition back_ptr (ts : TreeStore) (ptr : option addr) (count : Z) : outcome (option addr * Z) :=
  back_ptr_loop ts (Z.to_nat count) ptr 0 count.

(** [forw_ptr (ptr, &count)]. *)
Fixpoint forw_ptr_loop (ts : TreeStore) (n : nat) (ptr : option addr) (i count : Z)
  : outcome (option addr * Z) :=
  match ptr with
  | None => Done (ptr, i)
  | Some _ =>
      e ← deref ts ptr;
      match next e with
      | None => Done (ptr, i)
      | Some _ =>
          if i <? count then
            match n with
            | O => OutOfFuel
            | S n' => forw_ptr_loop ts n' (next e) (i + 1) count
            end
          else Done (ptr, i)
      end
  end.

Definition forw_ptr (ts : TreeStore) (ptr : option addr) (count : Z) : outcome (option addr * Z) :=
  forw_ptr_loop ts (Z.to_nat count) ptr 0 count.

(** [tree_check_focus]. *)
Definition tree_check_focus (g : Globals) (t : WTree) : WTree :=
  if topdiff t <? 3 then set_topdiff 3 t
  else if topdiff t >=? tlines g t - 3 then set_topdiff (tlines g t - 3 - 1) t
  else t.

(** The loop of [tree_move_backward] in navigation mode; the state is
    ([tree->selected_ptr], [current], [j]). *)
Fixpoint move_backward_loop (ts : TreeStore) (fuel : nat) (sel current : option addr) (j i : Z)
  : outcome (option addr * Z) :=
  if j <? i then
    c ← deref ts current;
    match prev c with
    | None => Done (sel, j)
    | Some _ =>
        p ← deref ts (prev c);
        s ← deref ts sel;
        if sublevel p >=? sublevel s then
          match fuel with
          | O => OutOfFuel
          | S fuel' =>
              if sublevel p =? sublevel s
              then move_backward_loop ts fuel' (prev c) (prev c) (j + 1) i
              else move_backward_loop ts fuel' sel (prev c) j i
          end
        else Done (sel, j)
    end
  else Done (sel, j).

(** [tree_move_backward (tree, i)]. *)
Definition tree_move_backward (ts : TreeStore) (g : Globals) (t : WTree) (i : Z) : outcome WTree :=
  '(sel, i') ← (if negb (tree_navigation_flag g)
                then back_ptr ts (selected_ptr t) i
                else move_backward_loop ts (store_fuel ts) (selected_ptr t) (selected_ptr t) 0 i);
  mret (tree_check_focus g (set_topdiff (topdiff t - i') (set_selected_ptr sel t))).

(** The loop of [tree_move_forward] in navigation mode. *)
Fixpoint move_forward_loop (ts : TreeStore) (fuel : nat) (sel current : option addr) (j i : Z)
  : outcome (option addr * Z) :=
  if j <? i then
    c ← deref ts current;
    match next c with
    | None => Done (sel, j)
    | Some _ =>
        n ← deref ts (next c);
        s ← deref ts sel;
        if sublevel n >=? sublevel s then
          match fuel with
          | O => OutOfFuel
          | S fuel' =>
              if sublevel n =? sublevel s
              then move_forward_loop ts fuel' (next c) (next c) (j + 1) i
              else move_forward_loop ts fuel' sel (next c) j i
          end
        else Done (sel, j)
    end
  else Done (sel, j).

(** [tree_move_forward (tree, i)]. *)
Definition tree_move_forward (ts : TreeStore) (g : Globals) (t : WTree) (i : Z) : outcome WTree :=
  '(sel, i') ← (if negb (tree_navigation_flag g)
                then forw_ptr ts (selected_ptr t) i
                else move_forward_loop ts (store_fuel ts) (selected_ptr t) (selected_ptr t) 0 i);
  mret (tree_check_focus g (set_topdiff (topdiff t + i') (set_selected_ptr sel t))).

(** The loop of [tree_move_to_parent]: [current] walks [prev] links while
    the record is not shallower than the selection; every turn decrements
    [topdiff]. *)
Fixpoint move_to_parent_loop (ts : TreeStore) (fuel : nat) (sel current : option addr) (td : Z)
  : outcome (option addr * Z) :=
  match current with
  | None => Done (current, td)
  | Some _ =>
      c ← deref ts current;
      s ← deref ts sel;
      if sublevel c >=? sublevel s then
        match fuel with
        | O => OutOfFuel
        | S fuel' => move_to_parent_loop ts fuel' sel (prev c) (td - 1)
        end
      else Done (current, td)
  end.

(** [tree_move_to_parent (tree)], with its [gboolean] result. *)
Definition tree_move_to_parent (ts : TreeStore) (g : Globals) (t : WTree) : outcome (WTree * bool) :=
  match selected_ptr t with
  | None => Done (t, false)
  | Some _ =>
      let old := selected_ptr t in
      s ← deref ts (selected_ptr t);
      '(current, td) ← move_to_parent_loop ts (store_fuel ts) (selected_ptr t) (prev s) (topdiff t);
      let current := match current with None => tree_first ts | Some _ => current end in
      let t' := tree_check_focus g (set_topdiff td (set_selected_ptr current t)) in
      mret (t', negb (ptr_eqb (selected_ptr t') old))
  end.

(** [tree_move_to_top] and [tree_move_to_bottom]. *)
Definition tree_move_to_top (ts : TreeStore) (t : WTree) : WTree :=
  set_topdiff 0 (set_selected_ptr (tree_first ts) t).

Definition tree_move_to_bottom (ts : TreeStore) (g : Globals) (t : WTree) : WTree :=
  set_topdiff (tlines g t - 3 - 1) (set_selected_ptr (tree_last ts) t).

(** [remove_callback (entry, data)], the hook the store calls just before
    it unlinks [entry]. *)
Definition remove_callback (ts : TreeStore) (entry : option addr) (t : WTree) : outcome WTree :=
  if ptr_eqb (selected_ptr t) entry then
    s ← deref ts (selected_ptr t);
    match next s with
    | Some _ => mret (set_selected_ptr (next s) t)
    | None => mret (set_selected_ptr (prev s) t)
    end
  else mret t.

(** ** C strings *)

(** [strlen]. *)
Definition strlen (s : string) : Z := Z.of_nat (String.length s).

(** [strncmp (s1, s2, n)]: characters are compared as unsigned bytes, and
    the comparison stops at the end of either string. *)
Fixpoint strncmp (s1 s2 : string) (n : nat) : Z :=
  match n with
  | O => 0
  | S n' =>
      match s1, s2 with
      | EmptyString, EmptyString => 0
      | EmptyString, String c2 _ => - Z.of_nat (nat_of_ascii c2)
      | String c1 _, EmptyString => Z.of_nat (nat_of_ascii c1)
      | String c1 r1, String c2 r2 =>
          if Ascii.eqb c1 c2 then strncmp r1 r2 n'
          else Z.of_nat (nat_of_ascii c1) - Z.of_nat (nat_of_ascii c2)
      end
  end.

(** [buf[k] = 0] for [k] not beyond the terminator of [buf]. *)
Fixpoint truncate (k : nat) (s : string) : string :=
  match k, s with
  | S k', String c r => String c (truncate k' r)
  | _, _ => EmptyString
  end.

(** [buf[l] = c; buf[l + 1] = 0] for [l = strlen (buf)]: a NUL byte leaves
    the string as it is. *)
Definition append_char (s : string) (c : ascii) : string :=
  if Ascii.eqb c zero then s else (s ++ String c EmptyString)%string.

(** The conversion of an [int] key code to [char]. *)
Definition char_of_key (key : Z) : ascii := ascii_of_N (Z.to_N (key mod 256)).

(** ** Incremental search *)

(** The loop of [search_tree]; the state is ([current], [wrapped],
    [tree->topdiff]), and the result adds [found]. *)
Fixpoint search_loop (ts : TreeStore) (fuel : nat) (sel : option addr) (text : string)
    (current : option addr) (wrapped : bool) (td : Z) : outcome (option addr * Z * bool) :=
  if negb wrapped || negb (ptr_eqb current sel) then
    c ← deref ts current;
    if strncmp (subname c) text (String.length text) =? 0 then Done (current, td, true)
    else
      match fuel with
      | O => OutOfFuel
      | S fuel' =>
          match next c with
          | None => search_loop ts fuel' sel text (tree_first ts) true (td + 1)
          | Some _ => search_loop ts fuel' sel text (next c) wrapped (td + 1)
          end
      end
  else Done (sel, td, false).

(** [search_tree (tree, text)], returning the view and [found]. *)
Definition search_tree (ts : TreeStore) (g : Globals) (t : WTree) (text : string)
  : outcome (WTree * bool) :=
  '(sel, td, found) ← search_loop ts (store_fuel ts) (selected_ptr t) text (selected_ptr t) false (topdiff t);
  mret (tree_check_focus g (set_topdiff td (set_selected_ptr sel t)), found).

(** ** Code that calls collaborators outside tree.c *)

(** Events raised through [mc_event_raise (MCEVENT_GROUP_TREEVIEW, ...)]. *)
Inductive event : Type := EvRescan | EvEnter.

Section Collaborators.

(** Constants of headers outside this slice. *)
Variable KEY_BACKSPACE : Z.
Variable MC_MAXFILENAMELEN : Z.
Variable PATH_SEP : ascii.

(** The virtual file system: the current directory (which may be
    unknown), [mc_chdir], and the comparisons of lib/vfs/path.c. *)
Variable vfs_get_raw_current_dir : option string.
Variable mc_chdir : string → Z.
Variable vfs_path_equal : string → string → bool.
Variable vfs_path_equal_len : string → string → Z → bool.
Variable vfs_path_len : string → Z.

(** [tree_store_rescan (name)] of the tree store: the store it leaves,
    and, in order, every removal it announced to the registered hooks,
    each with the store as it was when the hook ran. *)
Variable tree_store_rescan : TreeStore → string → list (TreeStore * addr) * TreeStore.

(** [is_idle ()]. *)
Variable is_idle : bool.

(** [change_panel ()] of the file manager, and what [mc_tree_cmd_enter]
    does to the other panel between its two calls of it: [do_cd] to the
    selected directory, then [select_item] or the error [message], then
    [widget_redraw (current_panel)].  Each is taken for what it does to
    this view (a change of focus comes back to the tree through
    [tree_callback]); each may fail. *)
Variable change_panel : TreeStore → Globals → WTree → outcome WTree.
Variable do_cd : TreeStore → Globals → WTree → string → outcome WTree.

(** The removal hooks of one rescan, run on this view. *)
Fixpoint run_remove_hooks (hooks : list (TreeStore * addr)) (t : WTree) : outcome WTree :=
  match hooks with
  | [] => Done t
  | (ts, e) :: rest => t' ← remove_callback ts (Some e) t; run_remove_hooks rest t'
  end.

(** [mc_tree_cmd_rescan], the handler of the "rescan" event. *)
Definition mc_tree_cmd_rescan (ts : TreeStore) (t : WTree) : outcome (TreeStore * WTree) :=
  match vfs_get_raw_current_dir with
  | None => Done (ts, t)
  | Some _ =>
      match selected_ptr t with
      | None => Done (ts, t)
      | Some _ =>
          s ← deref ts (selected_ptr t);
          if mc_chdir (name s) =? 0 then
            let '(hooks, ts') := tree_store_rescan ts (name s) in
            t' ← run_remove_hooks hooks t;
            mret (ts', t')
          else Done (ts, t)
      end
  end.

(** The test [current && current->sublevel > tree->selected_ptr->sublevel]
    of [tree_move_to_child], for [current = tree->selected_ptr->next]. *)
Definition is_child (ts : TreeStore) (sel current : option addr) : outcome bool :=
  match current with
  | None => Done false
  | Some _ =>
      c ← deref ts current;
      s ← deref ts sel;
      mret (sublevel c >? sublevel s)
  end.

(** [tree_move_to_child (tree, error)]: the store and view it leaves and
    the events it raised. *)
Definition tree_move_to_child (ts : TreeStore) (g : Globals) (t : WTree)
  : outcome (TreeStore * WTree * list event) :=
  match selected_ptr t with
  | None => Done (ts, t, [])
  | Some _ =>
      s ← deref ts (selected_ptr t);
      b ← is_child ts (selected_ptr t) (next s);
      if (b : bool) then
        mret (ts, tree_check_focus g (set_topdiff (topdiff t + 1) (set_selected_ptr (next s) t)), [])
      else
        '(ts1, t1) ← mc_tree_cmd_rescan ts t;
        s1 ← deref ts1 (selected_ptr t1);
        b1 ← is_child ts1 (selected_ptr t1) (next s1);
        if (b1 : bool) then
          mret (ts1, tree_check_focus g (set_topdiff (topdiff t1 + 1) (set_selected_ptr (next s1) t1)),
                [EvRescan])
        else mret (ts1, t1, [EvRescan])
  end.

(** Index of the last [PATH_SEP] of a path, as the scan
    [for (j = strlen (cname) - 1; cname[j] != PATH_SEP; j--)] finds it. *)
Fixpoint last_sep (s : string) (i : Z) (acc : option Z) : option Z :=
  match s with
  | EmptyString => acc
  | String c r => last_sep r (i + 1) (if Ascii.eqb c PATH_SEP then Some i else acc)
  end.

(** The loop of [show_tree] that finds the top row in navigation mode;
    the state is ([current], [i]).  A path without [PATH_SEP] makes the
    inner scan read before the string. *)
Fixpoint show_tree_top_loop (ts : TreeStore) (fuel : nat) (sel current : option addr) (i td : Z)
  : outcome Z :=
  c ← deref ts current;
  match prev c with
  | None => Done i
  | Some _ =>
      if i <? td then
        match fuel with
        | O => OutOfFuel
        | S fuel' =>
            p ← deref ts (prev c);
            s ← deref ts sel;
            if sublevel p <? sublevel s then
              show_tree_top_loop ts fuel' sel (prev c)
                (if vfs_path_equal (name p) (name s) then i + 1 else i) td
            else if sublevel p =? sublevel s then
              match last_sep (name p) 0 None with
              | None => Fault
              | Some j =>
                  show_tree_top_loop ts fuel' sel (prev c)
                    (if vfs_path_equal_len (name p) (name s) j then i + 1 else i) td
              end
            else
              show_tree_top_loop ts fuel' sel (prev c)
                (if (sublevel p =? sublevel s + 1) && (vfs_path_len (name s) >? 1)
                    && vfs_path_equal_len (name p) (name s) (vfs_path_len (name s))
                 then i + 1 else i) td
        end
      else Done i
  end.

(** What [show_tree] does to the view: it allocates [tree_shown], one
    entry per row, which [g_new0] cannot do for a negative number of
    rows; it selects the first record when nothing is selected, and
    replaces [topdiff] by the number of rows really available above the
    selection.  The contents of the rows are left out here; the footer
    reads the name of the selection unless a search is active. *)
Definition show_tree (ts : TreeStore) (g : Globals) (t : WTree) : outcome WTree :=
  if tlines g t <? 0 then Fault
  else
  _ ← match tree_first ts with
      | None => Done 0
      | Some _ => f ← deref ts (tree_first ts); mret (sublevel f)
      end;
  let t0 := match selected_ptr t with
            | None => set_topdiff 0 (set_selected_ptr (tree_first ts) t)
            | Some _ => t
            end in
  td ← (if negb (tree_navigation_flag g)
        then '(_, td) ← back_ptr ts (selected_ptr t0) (topdiff t0); mret td
        else show_tree_top_loop ts (store_fuel ts) (selected_ptr t0) (selected_ptr t0) 0 (topdiff t0));
  let t1 := set_topdiff td t0 in
  if is_panel t1 && negb (show_mini_info g) then mret t1
  else if searching t1 then mret t1
  else _ ← deref ts (selected_ptr t1); mret t1.

(** [mc_tree_cmd_enter], the handler of the "enter" event: on a panel it
    changes to the other panel, reads the name of the selection, changes
    the directory of the other panel, changes back and redraws the tree;
    in a dialog it stops the dialog. *)
Definition mc_tree_cmd_enter (ts : TreeStore) (g : Globals) (t : WTree) : outcome WTree :=
  if is_panel t then
    t1 ← change_panel ts g t;
    s ← deref ts (selected_ptr t1);
    t2 ← do_cd ts g t1 (name s);
    t3 ← change_panel ts g t2;
    show_tree ts g t3
  else mret t.

(** [maybe_chdir (tree, error)]. *)
Definition maybe_chdir (ts : TreeStore) (g : Globals) (t : WTree) : outcome (WTree * list event) :=
  if xtree_mode g && is_panel t && is_idle
  then t' ← mc_tree_cmd_enter ts g t; mret (t', [EvEnter])
  else mret (t, []).

(** The edit of [tree->search_buffer] at the head of [tree_do_search]:
    the new contents and the new value of [l].  Writing the terminator
    at index [MC_MAXFILENAMELEN] is outside the array. *)
Definition edit_search_buffer (buf : string) (key : Z) : outcome (string * Z) :=
  let l := strlen buf in
  if negb (l =? 0) && (key =? KEY_BACKSPACE) then
    mret (truncate (Z.to_nat (l - 1)) buf, l - 1)
  else if negb (key =? 0) && (l <? MC_MAXFILENAMELEN) then
    if l + 1 <? MC_MAXFILENAMELEN
    then mret (append_char buf (char_of_key key), l + 1)
    else Fault
  else mret (buf, l).

(** [tree_do_search (tree, key)].  [l] is a [size_t]: decrementing it at
    zero makes the roll-back write far outside the array. *)
Definition tree_do_search (ts : TreeStore) (g : Globals) (t : WTree) (key : Z)
  : outcome (WTree * list event) :=
  '(buf, l) ← edit_search_buffer (search_buffer t) key;
  '(t1, found) ← search_tree ts g (set_search_buffer buf t) buf;
  t2 ← (if (found : bool) then mret t1
        else if l =? 0 then Fault
        else mret (set_search_buffer (truncate (Z.to_nat (l - 1)) (search_buffer t1)) t1));
  t3 ← show_tree ts g t2;
  maybe_chdir ts g t3.

(** [mc_tree_cmd_search_begin], the handler of the "search_begin" event:
    it enters search mode, or, in search mode, looks for the next match.
    The step forward is made with [tree_navigation_flag] cleared. *)
Definition mc_tree_cmd_search_begin (ts : TreeStore) (g : Globals) (t : WTree)
  : outcome (WTree * list event) :=
  if searching t then
    t1 ← (if ptr_eqb (selected_ptr t) (tree_last ts) then mret (tree_move_to_top ts t)
          else tree_move_forward ts (MkGlobals false (xtree_mode g) (show_mini_info g)) t 1);
    tree_do_search ts g t1 0
  else mret (set_search_buffer EmptyString (set_searching true t), []).

(** Typing: one call of [tree_do_search] per key. *)
Fixpoint type_keys (ts : TreeStore) (g : Globals) (t : WTree) (keys : list Z) : outcome WTree :=
  match keys with
  | [] => Done t
  | key :: rest => '(t', _) ← tree_do_search ts g t key; type_keys ts g t' rest
  end.

(** Every record's path holds a [PATH_SEP]. *)
Definition paths_wf (ts : TreeStore) (l : list positive) : Prop :=
  ∀ q e, q ∈ l → heap ts !! q = Some e → is_Some (last_sep (name e) 0 None).

(** The navigation commands, each run under the process-wide settings
    in force when it is issued. *)
Inductive nav_op : Type :=
  | MoveForward (i : Z)
  | MoveBackward (i : Z)
  | MoveToParent
  | MoveToChild
  | MoveToTop
  | MoveToBottom.

Definition run_op (ts : TreeStore) (t : WTree) (c : Globals * nav_op)
  : outcome (TreeStore * WTree) :=
  let '(g, op) := c in
  match op with
  | MoveForward i => t' ← tree_move_forward ts g t i; mret (ts, t')
  | MoveBackward i => t' ← tree_move_backward ts g t i; mret (ts, t')
  | MoveToParent => '(t', _) ← tree_move_to_parent ts g t; mret (ts, t')
  | MoveToChild => '(ts', t', _) ← tree_move_to_child ts g t; mret (ts', t')
  | MoveToTop => mret (ts, tree_move_to_top ts t)
  | MoveToBottom => mret (ts, tree_move_to_bottom ts g t)
  end.

Fixpoint run_ops (ts : TreeStore) (t : WTree) (cs : list (Globals * nav_op))
  : outcome (TreeStore * WTree) :=
  match cs with
  | [] => Done (ts, t)
  | c :: rest => '(ts', t') ← run_op ts t c; run_ops ts' t' rest
  end.

End Collaborators.

(** ** Specification vocabulary *)

(** The value [tree_check_focus] leaves in [topdiff], as a function of the
    old value and of [tlines]. *)
Definition clamp (rows d : Z) : Z :=
  if d <? 3 then 3 else if d >=? rows - 3 then rows - 3 - 1 else d.

(** The bound on the scroll offset. *)
Definition scroll_bounded (g : Globals) (t : WTree) : Prop :=
  3 ≤ topdiff t ≤ tlines g t - 4.

(** ** Well-formed stores

    [linked ts l]: the records of [ts] form the doubly linked list whose
    addresses, from [tree_first] to [tree_last], are [l]. *)

Definition before (l : list positive) (i : nat) : option addr :=
  match i with
  | O => None
  | S j => l !! j
  end.

Definition linked (ts : TreeStore) (l : list positive) : Prop :=
  NoDup l ∧
  tree_first ts = head l ∧
  tree_last ts = last l ∧
  ∀ (i : nat) (p : positive), l !! i = Some p →
    ∃ e, heap ts !! p = Some e ∧ next e = l !! S i ∧ prev e = before l i.

(** The view selects a record of the store. *)
Definition selects (l : list positive) (t : WTree) : Prop :=
  ∃ p, selected_ptr t = Some p ∧ p ∈ l.

(** The depth of the record at an address (0 for a dangling address). *)
Definition depth (ts : TreeStore) (p : positive) : Z :=
  match heap ts !! p with
  | Some e => sublevel e
  | None => 0
  end.

(** The display name of the record at an address. *)
Definition display_name (ts : TreeStore) (p : positive) : string :=
  match heap ts !! p with
  | Some e => subname e
  | None => EmptyString
  end.

(** Pre-order stores: a record is followed by its first child, one level
    deeper, or by a record that is not deeper than itself. *)
Definition pre_order (ts : TreeStore) (l : list positive) : Prop :=
  ∀ (i : nat) (p q : positive), l !! i = Some p → l !! S i = Some q →
    depth ts q ≤ depth ts p + 1.

(** The keys [tree_key] passes to the search as characters. *)
Definition printable (key : Z) : Prop := 32 ≤ key ≤ 255.

(** The removals a store announces, one after the other, to its hooks:
    each hook runs on a linked store, for one of its records, just before
    the store unlinks that record, and the store is never left empty.
    [removals l hooks l'] relates the list before the first removal to the
    list after the last one. *)
Inductive removals : list positive → list (TreeStore * positive) → list positive → Prop :=
  | removals_nil l : removals l [] l
  | removals_cons l ts k e rest l' :
      linked ts l → l !! k = Some e → (1 < length l)%nat →
      removals (delete k l) rest l' →
      removals l ((ts, e) :: rest) l'.

(** The contract of the store's rescan: it announces its removals as
    above, and leaves a linked store that holds every record it did not
    remove (and those it found). *)
Definition rescan_protocol
    (store_rescan : TreeStore → string → list (TreeStore * positive) * TreeStore) : Prop :=
  ∀ ts l dir, linked ts l →
    ∃ l_mid l', removals l (store_rescan ts dir).1 l_mid ∧
                linked (store_rescan ts dir).2 l' ∧ l_mid ⊆ l'.

(** Two views with the same selection, search buffer and geometry. *)
Definition same_selection (t t' : WTree) : Prop :=
  selected_ptr t' = selected_ptr t ∧ search_buffer t' = search_buffer t ∧
  lines t' = lines t ∧ is_panel t' = is_panel t.

(** What the tree needs of the collaborators that act on the other
    panel: they return, and hand back a view with the selection, the
    search buffer and the geometry of the one they were given. *)
Definition leaves_selection
    (change_panel : TreeStore → Globals → WTree → outcome WTree)
    (do_cd : TreeStore → Globals → WTree → string → outcome WTree) : Prop :=
  (∀ ts g t, ∃ t', change_panel ts g t = Done t' ∧ same_selection t t') ∧
  (∀ ts g t dir, ∃ t', do_cd ts g t dir = Done t' ∧ same_selection t t').

(** The store is a linked list and the view selects one of its records. *)
Definition valid (ts : TreeStore) (t : WTree) : Prop :=
  ∃ l, linked ts l ∧ selects l t.

(** [skipped ts d l k]: how many records, walking back from position [k]
    (nearest first), come before the first one shallower than [d]. *)
Fixpoint skipped (ts : TreeStore) (d : Z) (l : list positive) (k : nat) : nat :=
  match k with
  | O => O
  | S k' =>
      match l !! k' with
      | Some q => if depth ts q >=? d then S (skipped ts d l k') else O
      | None => O
      end
  end.

(** The test [search_tree] makes on the record at an address. *)
Definition matches (ts : TreeStore) (text : string) (q : positive) : Prop :=
  strncmp (display_name ts q) text (String.length text) = 0.

#[global] Instance matches_dec ts text q : Decision (matches ts text q).
Proof. unfold matches. apply _. Defined.

(** [text] is, case-sensitively, a prefix of the display name. *)
Definition prefix_match (ts : TreeStore) (text : string) (q : positive) : Prop :=
  String.prefix text (display_name ts q) = true.

#[global] Instance prefix_match_dec ts text q : Decision (prefix_match ts text q).
Proof. unfold prefix_match. apply _. Defined.

(** A C string holds no NUL byte. *)
Fixpoint nul_free (s : string) : Prop :=
  match s with
  | EmptyString => True
  | String c r => c ≠ zero ∧ nul_free r
  end.

(** The records in the order a scan that starts at position [k] meets
    them: from [k] to the end, then from the start up to [k]. *)
Definition scan_order (l : list positive) (k : nat) : list positive :=
  drop k l ++ take k l.

(** Some record of [l] has a display name that starts with [text]. *)
Definition some_match (ts : TreeStore) (l : list positive) (text : string) : bool :=
  bool_decide (Exists (prefix_match ts text) l).

(** The longest prefix of [s] with which some display name starts, as the
    specification names it. *)
Fixpoint longest_matching_prefix_upto (ts : TreeStore) (l : list positive) (s : string)
    (n : nat) : string :=
  match n with
  | O => EmptyString
  | S n' =>
      if some_match ts l (substring 0 n s) then substring 0 n s
      else longest_matching_prefix_upto ts l s n'
  end.

Definition longest_matching_prefix (ts : TreeStore) (l : list positive) (s : string) : string :=
  longest_matching_prefix_upto ts l s (String.length s).

(** ** The store of the scenario: /, /a, /a/x, /b *)

Definition store4 : TreeStore :=
  MkTreeStore
    (list_to_map
       [ (1%positive, TreeEntry "/" 0 0 "/" (Some 2%positive) None);
         (2%positive, TreeEntry "/a" 1 0 "a" (Some 3%positive) (Some 1%positive));
         (3%positive, TreeEntry "/a/x" 2 0 "x" (Some 4%positive) (Some 2%positive));
         (4%positive, TreeEntry "/b" 1 0 "b" None (Some 3%positive)) ])
    (Some 1%positive) (Some 4%positive).

Definition flat_mode : Globals := MkGlobals false false false.
Definition hierarchical_mode : Globals := MkGlobals true false false.

(** A plain widget of 20 rows with the given selection and [topdiff]. *)
Definition view_at (p : positive) (td : Z) : WTree :=
  MkWTree 20 (Some p) EmptyString false true false td.

(** ** A store with two names that share a prefix: /, /a, /ab *)

Definition store3 : TreeStore :=
  MkTreeStore
    (list_to_map
       [ (1%positive, TreeEntry "/" 0 0 "/" (Some 2%positive) None);
         (2%positive, TreeEntry "/a" 1 0 "a" (Some 3%positive) (Some 1%positive));
         (3%positive, TreeEntry "/ab" 1 0 "ab" None (Some 2%positive)) ])
    (Some 1%positive) (Some 3%positive).

(** The order of candidates the specification describes for the scan: the
    records after the selection first, and the selection itself only once
    the scan has wrapped all the way round. *)
Definition scan_order_selection_last (l : list positive) (k : nat) : list positive :=
  drop (S k) l ++ take (S k) l.

(** The settings under which the other panel follows the tree, in flat
    and in navigation mode, and a panel of 20 lines that has the focus. *)
Definition xtree_flat_mode : Globals := MkGlobals false true false.

Definition xtree_navigation_mode : Globals := MkGlobals true true false.

Definition panel_at (p : positive) (td : Z) : WTree :=
  MkWTree 20 (Some p) EmptyString true true false td.

(** ** A store that lists /a/x/y right after /: /, /a/x/y *)

Definition store_gap : TreeStore :=
  MkTreeStore
    (list_to_map
       [ (1%positive, TreeEntry "/" 0 0 "/" (Some 2%positive) None);
         (2%positive, TreeEntry "/a/x/y" 3 0 "y" None (Some 1%positive)) ])
    (Some 1%positive) (Some 2%positive).

(** ** The scenario store after a rescan of /b found /b/y *)

Definition store5 : TreeStore :=
  MkTreeStore
    (list_to_map
       [ (1%positive, TreeEntry "/" 0 0 "/" (Some 2%positive) None);
         (2%positive, TreeEntry "/a" 1 0 "a" (Some 3%positive) (Some 1%positive));
         (3%positive, TreeEntry "/a/x" 2 0 "x" (Some 4%positive) (Some 2%positive));
         (4%positive, TreeEntry "/b" 1 0 "b" (Some 5%positive) (Some 3%positive));
         (5%positive, TreeEntry "/b/y" 2 0 "y" None (Some 4%positive)) ])
    (Some 1%positive) (Some 5%positive).

(** ** Sample collaborators, to run the code on the example stores *)

Module Sample.
(** KEY_BACKSPACE of curses, 0407. *)
Definition KEY_BACKSPACE : Z := 263.
Definition MC_MAXFILENAMELEN : Z := 256.
Definition PATH_SEP : ascii := "/"%char.
Definition vfs_path_equal (a b : string) : bool := String.eqb a b.
Definition vfs_path_equal_len (a b : string) (n : Z) : bool := strncmp a b (Z.to_nat n) =? 0.
Definition vfs_path_len (a : string) : Z := strlen a.
Definition is_idle : bool := true.

(** A change of panel that moves the focus: a view that has it loses it,
    and its search with it; a view without it gets it. *)
Definition change_panel (ts : TreeStore) (g : Globals) (t : WTree) : outcome WTree :=
  Done (MkWTree (lines t) (selected_ptr t) (search_buffer t) (is_panel t)
          (negb (active t)) (searching t && negb (active t)) (topdiff t)).

(** A change of directory of the other panel that does not reach the
    tree. *)
Definition do_cd (ts : TreeStore) (g : Globals) (t : WTree) (dir : string) : outcome WTree :=
  Done t.

(** A rescan that finds the new directory /b/y and removes nothing. *)
Definition tree_store_rescan (ts : TreeStore) (dir : string)
  : list (TreeStore * addr) * TreeStore := ([], store5).

Definition tree_do_search :=
  tree_do_search KEY_BACKSPACE MC_MAXFILENAMELEN PATH_SEP
    vfs_path_equal vfs_path_equal_len vfs_path_len is_idle change_panel do_cd.
Definition type_keys :=
  type_keys KEY_BACKSPACE MC_MAXFILENAMELEN PATH_SEP
    vfs_path_equal vfs_path_equal_len vfs_path_len is_idle change_panel do_cd.
Definition tree_move_to_child :=
  tree_move_to_child (Some "/"%string) (λ _, 0) tree_store_rescan.
Definition mc_tree_cmd_search_begin :=
  mc_tree_cmd_search_begin KEY_BACKSPACE MC_MAXFILENAMELEN PATH_SEP
    vfs_path_equal vfs_path_equal_len vfs_path_len is_idle change_panel do_cd.

(** A view in search mode with an empty buffer. *)
Definition searching_at (p : positive) (td : Z) : WTree :=
  MkWTree 20 (Some p) EmptyString false true true td.

(** A panel in search mode with an empty buffer. *)
Definition searching_panel_at (p : positive) (td : Z) : WTree :=
  MkWTree 20 (Some p) EmptyString true true true td.

(** A panel in search mode after "a" was typed. *)
Definition searching_a_panel_at (p : positive) (td : Z) : WTree :=
  MkWTree 20 (Some p) "a" true true true td.

(** A view in search mode after "a" was typed. *)
Definition searching_a_at (p : positive) (td : Z) : WTree :=
  MkWTree 20 (Some p) "a" false true true td.
End Sample.

(** * More of tree.c: vocabulary for the properties below *)

(** The search buffer is, case-sensitively, a prefix of the display name
    of the selected record, which is a record of the store. *)
Definition search_inv (ts : TreeStore) (l : list positive) (t : WTree) : Prop :=
  nul_free (search_buffer t) ∧
  ∃ p, selected_ptr t = Some p ∧ p ∈ l ∧ prefix_match ts (search_buffer t) p.

(** [tree_move_to_parent] called [n] times in a row. *)
Fixpoint climb (ts : TreeStore) (g : Globals) (t : WTree) (n : nat) : outcome WTree :=
  match n with
  | O => Done t
  | S n' => '(t', _) ← tree_move_to_parent ts g t; climb ts g t' n'
  end.

(** How many of the records at positions [a], ..., [a + n - 1] of the list
    have depth [d]. *)
Fixpoint count_depth (ts : TreeStore) (d : Z) (l : list positive) (a n : nat) : nat :=
  match n with
  | O => O
  | S n' =>
      (match l !! a with
       | Some r => if decide (depth ts r = d) then 1 else 0
       | None => 0
       end + count_depth ts d l (S a) n')%nat
  end.

Section SearchSteps.
Variable PATH_SEP : ascii.
Variable vfs_path_equal : string → string → bool.
Variable vfs_path_equal_len : string → string → Z → bool.
Variable vfs_path_len : string → Z.
Variable is_idle : bool.
Variable change_panel : TreeStore → Globals → WTree → outcome WTree.
Variable do_cd : TreeStore → Globals → WTree → string → outcome WTree.

(** The part of [tree_do_search] that follows the edit of the buffer, for
    the buffer [buf] and the length [l] the edit has left. *)
Definition tree_do_search_scan (ts : TreeStore) (g : Globals) (t : WTree) (buf : string) (l : Z)
  : outcome (WTree * list event) :=
  '(t1, found) ← search_tree ts g (set_search_buffer buf t) buf;
  t2 ← (if (found : bool) then mret t1
        else if l =? 0 then Fault
        else mret (set_search_buffer (truncate (Z.to_nat (l - 1)) (search_buffer t1)) t1));
  t3 ← show_tree PATH_SEP vfs_path_equal vfs_path_equal_len vfs_path_len ts g t2;
  maybe_chdir PATH_SEP vfs_path_equal vfs_path_equal_len vfs_path_len is_idle
    change_panel do_cd ts g t3.

End SearchSteps.

(** * More of tree.c: the command handlers, view creation, drawing of the
      rows, and the mouse *)

(** [MOU_UNHANDLED] and [MOU_NORMAL], the answers of a mouse callback. *)
Inductive mouse_result : Type := MOU_UNHANDLED | MOU_NORMAL.

(** What [tree_event] reads of a mouse event: the answer of
    [mouse_global_in_widget], whether the event is on the row right under
    the top of the owner ([event->y == WIDGET (w->owner)->y + 1]), the bits
    [GPM_DOWN], [GPM_UP] and [GPM_DOUBLE] of its type, and the row that
    [mouse_get_local] reports. *)
Record mouse_event : Type := MkMouseEvent {
  in_widget : bool;
  on_menu_row : bool;
  ev_down : bool;
  ev_up : bool;
  ev_double : bool;
  local_y : Z
}.

Section Handlers.

Variable PATH_SEP : ascii.
Variable vfs_get_raw_current_dir : option string.
Variable mc_chdir : string → Z.
Variable vfs_path_equal : string → string → bool.
Variable vfs_path_equal_len : string → string → Z → bool.
Variable vfs_path_len : string → Z.
Variable tree_store_rescan : TreeStore → string → list (TreeStore * addr) * TreeStore.
Variable is_idle : bool.
Variable change_panel : TreeStore → Globals → WTree → outcome WTree.
Variable do_cd : TreeStore → Globals → WTree → string → outcome WTree.

(** [tree_store_remove_entry (name)] of the tree store, with the removals
    it announces, as for [tree_store_rescan]. *)
Variable tree_store_remove_entry : TreeStore → string → list (TreeStore * addr) * TreeStore.

(** [tree_store_whereis (name)] of the tree store, and the home directory
    of the configuration. *)
Variable tree_store_whereis : TreeStore → string → option addr.
Variable mc_config_get_home_dir : string.

Local Abbreviation show_tree_ :=
  (show_tree PATH_SEP vfs_path_equal vfs_path_equal_len vfs_path_len).
Local Abbreviation maybe_chdir_ :=
  (maybe_chdir PATH_SEP vfs_path_equal vfs_path_equal_len vfs_path_len is_idle
     change_panel do_cd).

(** ** The handlers of the movement events *)

(** [mc_tree_cmd_goto_up]. *)
Definition mc_tree_cmd_goto_up (ts : TreeStore) (g : Globals) (t : WTree)
  : outcome (WTree * list event) :=
  t1 ← tree_move_backward ts g t 1;
  t2 ← show_tree_ ts g t1;
  maybe_chdir_ ts g t2.

(** [mc_tree_cmd_goto_down]. *)
Definition mc_tree_cmd_goto_down (ts : TreeStore) (g : Globals) (t : WTree)
  : outcome (WTree * list event) :=
  t1 ← tree_move_forward ts g t 1;
  t2 ← show_tree_ ts g t1;
  maybe_chdir_ ts g t2.

(** [mc_tree_cmd_goto_home]. *)
Definition mc_tree_cmd_goto_home (ts : TreeStore) (g : Globals) (t : WTree)
  : outcome (WTree * list event) :=
  t2 ← show_tree_ ts g (tree_move_to_top ts t);
  maybe_chdir_ ts g t2.

(** [mc_tree_cmd_goto_end]. *)
Definition mc_tree_cmd_goto_end (ts : TreeStore) (g : Globals) (t : WTree)
  : outcome (WTree * list event) :=
  t2 ← show_tree_ ts g (tree_move_to_bottom ts g t);
  maybe_chdir_ ts g t2.

(** [mc_tree_cmd_goto_page_up]. *)
Definition mc_tree_cmd_goto_page_up (ts : TreeStore) (g : Globals) (t : WTree)
  : outcome (WTree * list event) :=
  t1 ← tree_move_backward ts g t (tlines g t - 1);
  t2 ← show_tree_ ts g t1;
  maybe_chdir_ ts g t2.

(** [mc_tree_cmd_goto_page_down]. *)
Definition mc_tree_cmd_goto_page_down (ts : TreeStore) (g : Globals) (t : WTree)
  : outcome (WTree * list event) :=
  t1 ← tree_move_forward ts g t (tlines g t - 1);
  t2 ← show_tree_ ts g t1;
  maybe_chdir_ ts g t2.

(** [mc_tree_cmd_goto_left]: the view, what it leaves in
    [event_info->ret->b], and the events raised. *)
Definition mc_tree_cmd_goto_left (ts : TreeStore) (g : Globals) (t : WTree)
  : outcome (WTree * bool * list event) :=
  if tree_navigation_flag g then
    '(t1, b) ← tree_move_to_parent ts g t;
    t2 ← show_tree_ ts g t1;
    '(t3, evs) ← maybe_chdir_ ts g t2;
    mret (t3, b, evs)
  else mret (t, false, []).

(** [mc_tree_cmd_goto_right]. *)
Definition mc_tree_cmd_goto_right (ts : TreeStore) (g : Globals) (t : WTree)
  : outcome (TreeStore * WTree * bool * list event) :=
  if tree_navigation_flag g then
    '(ts1, t1, evs1) ← tree_move_to_child vfs_get_raw_current_dir mc_chdir
                         tree_store_rescan ts g t;
    t2 ← show_tree_ ts1 g t1;
    '(t3, evs) ← maybe_chdir_ ts1 g t2;
    mret (ts1, t3, true, evs1 ++ evs)
  else mret (ts, t, false, []).

(** [mc_tree_cmd_forget], through [tree_remove_entry]: the store removes
    the selected directory and announces what it removes to the hook. *)
Definition mc_tree_cmd_forget (ts : TreeStore) (t : WTree) : outcome (TreeStore * WTree) :=
  match selected_ptr t with
  | None => Done (ts, t)
  | Some _ =>
      s ← deref ts (selected_ptr t);
      let '(hooks, ts') := tree_store_remove_entry ts (name s) in
      t' ← run_remove_hooks hooks t;
      mret (ts', t')
  end.

(** ** View creation *)

(** [mc_tree_cmd_chdir], the handler of the "chdir" event, for the
    directory [dir]. *)
Definition mc_tree_cmd_chdir (ts : TreeStore) (g : Globals) (t : WTree) (dir : string) : WTree :=
  match tree_store_whereis ts dir with
  | Some c => tree_check_focus g (set_selected_ptr (Some c) t)
  | None => t
  end.

(** [load_tree], on the store that [tree_store_load] has left. *)
Definition load_tree (ts : TreeStore) (g : Globals) (t : WTree) : WTree :=
  mc_tree_cmd_chdir ts g (set_selected_ptr (tree_first ts) t) mc_config_get_home_dir.

(** [tree_new (y, x, lines, cols, is_panel)]; the division by 2 rounds
    towards zero. *)
Definition tree_new (ts : TreeStore) (g : Globals) (lines0 : Z) (panel : bool) : WTree :=
  load_tree ts g (MkWTree lines0 None EmptyString panel false false (lines0 ÷ 2)).

End Handlers.

(** ** Drawing the rows *)

Section Screen.

Variable PATH_SEP : ascii.
Variable vfs_path_equal : string → string → bool.
Variable vfs_path_equal_len : string → string → Z → bool.
Variable vfs_path_len : string → Z.

(** [change_panel ()] and the change of directory of the other panel, as
    in [mc_tree_cmd_enter], with the rows of this view on the screen. *)
Variable change_panel :
  TreeStore → Globals → WTree → list (option addr) → outcome (WTree * list (option addr)).
Variable do_cd :
  TreeStore → Globals → WTree → list (option addr) → string →
  outcome (WTree * list (option addr)).

(** The loop of [show_tree] that finds the top row in navigation mode, as
    [show_tree_top_loop], with the record it stops on. *)
Fixpoint show_tree_top_walk (ts : TreeStore) (fuel : nat) (sel current : option addr) (i td : Z)
  : outcome (option addr * Z) :=
  c ← deref ts current;
  match prev c with
  | None => Done (current, i)
  | Some _ =>
      if i <? td then
        match fuel with
        | O => OutOfFuel
        | S fuel' =>
            p ← deref ts (prev c);
            s ← deref ts sel;
            if sublevel p <? sublevel s then
              show_tree_top_walk ts fuel' sel (prev c)
                (if vfs_path_equal (name p) (name s) then i + 1 else i) td
            else if sublevel p =? sublevel s then
              match last_sep PATH_SEP (name p) 0 None with
              | None => Fault
              | Some j =>
                  show_tree_top_walk ts fuel' sel (prev c)
                    (if vfs_path_equal_len (name p) (name s) j then i + 1 else i) td
              end
            else
              show_tree_top_walk ts fuel' sel (prev c)
                (if (sublevel p =? sublevel s + 1) && (vfs_path_len (name s) >? 1)
                    && vfs_path_equal_len (name p) (name s) (vfs_path_len (name s))
                 then i + 1 else i) td
        end
      else Done (current, i)
  end.

(** The loop that, in navigation mode, passes over the records that are
    not drawn: it stops on an ancestor, a sibling or a child of the
    selection, or at the end of the list. *)
Fixpoint show_tree_skip (ts : TreeStore) (fuel : nat) (sel current : option addr)
  : outcome (option addr) :=
  match current with
  | None => Done None
  | Some _ =>
      c ← deref ts current;
      s ← deref ts sel;
      stop ← (if sublevel c <? sublevel s then
                mret (vfs_path_equal_len (name c) (name s) (vfs_path_len (name c)))
              else if sublevel c =? sublevel s then
                match last_sep PATH_SEP (name c) 0 None with
                | None => Fault
                | Some j => mret (vfs_path_equal_len (name c) (name s) j)
                end
              else if (sublevel c =? sublevel s + 1) && (vfs_path_len (name s) >? 1) then
                mret (vfs_path_equal_len (name c) (name s) (vfs_path_len (name s)))
              else mret false);
      if (stop : bool) then Done current
      else match fuel with
           | O => OutOfFuel
           | S fuel' => show_tree_skip ts fuel' sel (next c)
           end
  end.

(** The loop over the [n] rows of the screen: the records it stores in
    [tree_shown], a null pointer for each row left empty. *)
Fixpoint show_tree_rows (ts : TreeStore) (g : Globals) (n : nat) (topsublevel : Z)
    (sel current : option addr) : outcome (list (option addr)) :=
  match n with
  | O => Done []
  | S n' =>
      match current with
      | None =>
          rest ← show_tree_rows ts g n' topsublevel sel None;
          mret (None :: rest)
      | Some _ =>
          c ← deref ts current;
          _ ← (if sublevel c =? topsublevel then Done c
               else match next c with
                    | None => Done c
                    | Some _ => deref ts (next c)
                    end);
          following ← (if tree_navigation_flag g
                       then show_tree_skip ts (store_fuel ts) sel (next c)
                       else Done (next c));
          rest ← show_tree_rows ts g n' topsublevel sel following;
          mret (current :: rest)
      end
  end.

(** [show_tree] with the array [tree_shown] it fills.  An array of a
    negative number of rows cannot be allocated. *)
Definition show_tree_draw (ts : TreeStore) (g : Globals) (t : WTree)
  : outcome (WTree * list (option addr)) :=
  let tree_lines := tlines g t in
  if tree_lines <? 0 then Fault
  else
    topsublevel ← match tree_first ts with
                  | None => Done 0
                  | Some _ => f ← deref ts (tree_first ts); mret (sublevel f)
                  end;
    let t0 := match selected_ptr t with
              | None => set_topdiff 0 (set_selected_ptr (tree_first ts) t)
              | Some _ => t
              end in
    '(current, td) ← (if negb (tree_navigation_flag g)
                      then back_ptr ts (selected_ptr t0) (topdiff t0)
                      else show_tree_top_walk ts (store_fuel ts) (selected_ptr t0)
                             (selected_ptr t0) 0 (topdiff t0));
    let t1 := set_topdiff td t0 in
    rows ← show_tree_rows ts g (Z.to_nat tree_lines) topsublevel (selected_ptr t1) current;
    _ ← (if is_panel t1 && negb (show_mini_info g) then Done tt
         else if searching t1 then Done tt
         else _ ← deref ts (selected_ptr t1); Done tt);
    mret (t1, rows).

(** [mc_tree_cmd_enter] with the rows it redraws. *)
Definition mc_tree_cmd_enter_draw (ts : TreeStore) (g : Globals) (t : WTree)
    (shown : list (option addr)) : outcome (WTree * list (option addr)) :=
  if is_panel t then
    '(t1, shown1) ← change_panel ts g t shown;
    s ← deref ts (selected_ptr t1);
    '(t2, shown2) ← do_cd ts g t1 shown1 (name s);
    '(t3, _) ← change_panel ts g t2 shown2;
    show_tree_draw ts g t3
  else mret (t, shown).

(** ** The mouse *)

(** [tree_event]: the view, the rows on the screen, the answer and the
    events raised.  [shown] is [tree->tree_shown] as the last drawing left
    it; reading a row it does not hold is a fault. *)
Definition tree_event (ts : TreeStore) (g : Globals) (t : WTree) (shown : list (option addr))
    (ev : mouse_event)
  : outcome (WTree * list (option addr) * mouse_result * list event) :=
  if negb (in_widget ev) then mret (t, shown, MOU_UNHANDLED, [])
  else if is_panel t && ev_down ev && on_menu_row ev then mret (t, shown, MOU_UNHANDLED, [])
  else if negb (ev_up ev) then mret (t, shown, MOU_NORMAL, [])
  else
    let y := (if is_panel t then local_y ev - 1 else local_y ev) - 1 in
    '(t0, shown0) ← (if negb (active t) then change_panel ts g t shown else mret (t, shown));
    if y <? 0 then
      t1 ← tree_move_backward ts g t0 (tlines g t0 - 1);
      '(t2, rows) ← show_tree_draw ts g t1;
      mret (t2, rows, MOU_NORMAL, [])
    else if y >=? tlines g t0 then
      t1 ← tree_move_forward ts g t0 (tlines g t0 - 1);
      '(t2, rows) ← show_tree_draw ts g t1;
      mret (t2, rows, MOU_NORMAL, [])
    else if ev_double ev then
      r ← match shown0 !! Z.to_nat y with
          | None => Fault
          | Some r => Done r
          end;
      let t1 := match r with
                | Some _ => set_topdiff y (set_selected_ptr r t0)
                | None => t0
                end in
      '(t2, rows) ← mc_tree_cmd_enter_draw ts g t1 shown0;
      mret (t2, rows, MOU_NORMAL, [EvEnter])
    else mret (t0, shown0, MOU_NORMAL, []).

End Screen.

(** ** The keyboard *)

(** [MSG_NOT_HANDLED] and [MSG_HANDLED], the answers of a widget callback. *)
Inductive cb_ret_t : Type := MSG_NOT_HANDLED | MSG_HANDLED.

Section Keys.

Variable KEY_BACKSPACE : Z.
Variable MC_MAXFILENAMELEN : Z.
Variable PATH_SEP : ascii.
Variable vfs_path_equal : string → string → bool.
Variable vfs_path_equal_len : string → string → Z → bool.
Variable vfs_path_len : string → Z.
Variable is_idle : bool.
Variable change_panel : TreeStore → Globals → WTree → outcome WTree.
Variable do_cd : TreeStore → Globals → WTree → string → outcome WTree.

(** [is_abort_char] of lib/tty, [command_prompt] of the layout, and the
    entries of the key map [tree_map] that come before its terminator,
    each a key and a command. *)
Variable is_abort_char : Z → bool.
Variable command_prompt : bool.
Variable tree_map : list (Z * Z).

(** [tree_execute_cmd], which hands the command to the event system: the
    store, the settings and the view it leaves, its answer, and the events
    raised. *)
Variable tree_execute_cmd :
  TreeStore → Globals → WTree → Z →
  outcome (TreeStore * Globals * WTree * cb_ret_t * list event).

(** The test [(key >= ' ' && key <= 255) || key == KEY_BACKSPACE]. *)
Definition search_key (key : Z) : bool :=
  (32 <=? key) && (key <=? 255) || (key =? KEY_BACKSPACE).

(** The scan of [tree_map] for [key]: the command of the first entry
    that has it. *)
Fixpoint tree_map_command (map : list (Z * Z)) (key : Z) : option Z :=
  match map with
  | [] => None
  | (k, command) :: rest => if key =? k then Some command else tree_map_command rest key
  end.

(** [tree_key (tree, key)]. *)
Definition tree_key (ts : TreeStore) (g : Globals) (t : WTree) (key : Z)
  : outcome (TreeStore * Globals * WTree * cb_ret_t * list event) :=
  if is_abort_char key then
    if is_panel t then
      t' ← show_tree PATH_SEP vfs_path_equal vfs_path_equal_len vfs_path_len ts g
             (set_searching false t);
      mret (ts, g, t', MSG_HANDLED, [])
    else mret (ts, g, t, MSG_NOT_HANDLED, [])
  else if searching t && search_key key then
    '(t1, evs) ← tree_do_search KEY_BACKSPACE MC_MAXFILENAMELEN PATH_SEP vfs_path_equal
                   vfs_path_equal_len vfs_path_len is_idle change_panel do_cd ts g t key;
    t2 ← show_tree PATH_SEP vfs_path_equal vfs_path_equal_len vfs_path_len ts g t1;
    mret (ts, g, t2, MSG_HANDLED, evs)
  else
    match tree_map_command tree_map key with
    | Some command => tree_execute_cmd ts g t command
    | None =>
        if negb command_prompt && search_key key then
          '(t1, evs1) ← mc_tree_cmd_search_begin KEY_BACKSPACE MC_MAXFILENAMELEN PATH_SEP
                          vfs_path_equal vfs_path_equal_len vfs_path_len is_idle
                          change_panel do_cd ts g t;
          '(t2, evs2) ← tree_do_search KEY_BACKSPACE MC_MAXFILENAMELEN PATH_SEP vfs_path_equal
                          vfs_path_equal_len vfs_path_len is_idle change_panel do_cd
                          ts g t1 key;
          mret (ts, g, t2, MSG_HANDLED, evs1 ++ evs2)
        else mret (ts, g, t, MSG_NOT_HANDLED, [])
    end.

End Keys.

(** ** More vocabulary *)

(** The view selects the record at position [k] of the list and draws it
    [d] rows below the top row, or [k] rows below it when fewer than [d]
    records come before it. *)
Definition shows_at (l : list positive) (k : nat) (d : Z) (t : WTree) : Prop :=
  selected_ptr t = l !! k ∧ topdiff t = Z.of_nat (k `min` Z.to_nat d).

(** The records of the list from position [a] on, one for each of [n]
    rows, and a null pointer for each row past the end of the list. *)
Definition rows_from (l : list positive) (a n : nat) : list (option addr) :=
  (λ i, l !! (a + i)%nat) <$> seq 0 n.

(** A list of positions that grows strictly from each entry to the next. *)
Definition increasing (js : list nat) : Prop :=
  ∀ i j x y, (i < j)%nat → js !! i = Some x → js !! j = Some y → (x < y)%nat.

(** * Proofs *)

(** ** The monad *)

Lemma bind_Done {A B} (a : A) (f : A → outcome B) : (Done a ≫= f) = f a.
Proof. reflexivity. Qed.

Lemma bind_mret {A B} (a : A) (f : A → outcome B) : (mret a ≫= f) = f a.
Proof. reflexivity. Qed.

Lemma ptr_eqb_eq p q : ptr_eqb p q = true ↔ p = q.
Proof. unfold ptr_eqb. apply bool_decide_eq_true. Qed.

Lemma ptr_eqb_refl p : ptr_eqb p p = true.
Proof. by apply ptr_eqb_eq. Qed.

Lemma ptr_eqb_ne p q : p ≠ q → ptr_eqb p q = false.
Proof. unfold ptr_eqb. apply bool_decide_eq_false. Qed.

(** ** Linked stores *)

Section Linked.
Context (ts : TreeStore) (l : list positive) (Hl : linked ts l).

Lemma linked_deref i p :
  l !! i = Some p →
  ∃ e, deref ts (Some p) = Done e ∧ heap ts !! p = Some e ∧
       next e = l !! S i ∧ prev e = before l i.
Proof using Hl.
  intros Hi. destruct Hl as (_ & _ & _ & H).
  destruct (H i p Hi) as (e & He & Hn & Hp).
  exists e. unfold deref. rewrite He. done.
Qed.

Lemma linked_index_inj i j p : l !! i = Some p → l !! j = Some p → i = j.
Proof using Hl. destruct Hl as (Hnd & _). intros. by eapply NoDup_lookup. Qed.

Lemma linked_first : tree_first ts = l !! O.
Proof using Hl. destruct Hl as (_ & -> & _). apply head_lookup. Qed.

Lemma linked_last : tree_last ts = l !! pred (length l).
Proof using Hl. destruct Hl as (_ & _ & -> & _). apply last_lookup. Qed.

Lemma linked_length : (length l ≤ size (heap ts))%nat.
Proof using Hl.
  destruct Hl as (Hnd & _ & _ & H).
  rewrite <- (size_list_to_set (C := gset positive) l Hnd).
  rewrite <- (size_dom (heap ts)).
  apply subseteq_size. intros p Hp.
  apply elem_of_list_to_set, list_elem_of_lookup in Hp as [i Hi].
  destruct (H i p Hi) as (e & He & _). apply elem_of_dom. eauto.
Qed.

Lemma linked_fuel : (length l < store_fuel ts)%nat.
Proof using Hl. unfold store_fuel. pose proof linked_length. lia. Qed.

Lemma depth_deref i p e :
  l !! i = Some p → deref ts (Some p) = Done e → sublevel e = depth ts p.
Proof using Hl.
  intros Hi Hd. destruct (linked_deref i p Hi) as (e' & Hd' & He' & _).
  unfold depth. rewrite He'. congruence.
Qed.
End Linked.

(** ** Focus correction *)

Lemma tlines_set_topdiff g d t : tlines g (set_topdiff d t) = tlines g t.
Proof. reflexivity. Qed.

Lemma tlines_check_focus g t : tlines g (tree_check_focus g t) = tlines g t.
Proof. unfold tree_check_focus. repeat case_match; reflexivity. Qed.

Lemma selected_check_focus g t : selected_ptr (tree_check_focus g t) = selected_ptr t.
Proof. unfold tree_check_focus. repeat case_match; reflexivity. Qed.

Lemma buffer_check_focus g t : search_buffer (tree_check_focus g t) = search_buffer t.
Proof. unfold tree_check_focus. repeat case_match; reflexivity. Qed.

Lemma topdiff_check_focus g t :
  topdiff (tree_check_focus g t) = clamp (tlines g t) (topdiff t).
Proof. unfold tree_check_focus, clamp. repeat case_match; reflexivity. Qed.

Lemma clamp_bounds rows d : 7 ≤ rows → 3 ≤ clamp rows d ≤ rows - 4.
Proof. unfold clamp. intros. repeat case_match; lia. Qed.

Lemma clamp_fixed rows d : 3 ≤ d ≤ rows - 4 → clamp rows d = d.
Proof. unfold clamp. intros. repeat case_match; lia. Qed.

Lemma check_focus_bounds g t :
  7 ≤ tlines g t →
  3 ≤ topdiff (tree_check_focus g t) ≤ tlines g (tree_check_focus g t) - 4.
Proof.
  intros. rewrite tlines_check_focus, topdiff_check_focus. by apply clamp_bounds.
Qed.

(** ** Flat movement: [forw_ptr] and [back_ptr] *)

Section Walks.
Context (ts : TreeStore) (l : list positive) (Hl : linked ts l).

Lemma forw_ptr_loop_eq n p i count :
  forw_ptr_loop ts n (Some p) i count =
  (e ← deref ts (Some p);
   match next e with
   | None => Done (Some p, i)
   | Some _ =>
       if i <? count then
         match n with
         | O => OutOfFuel
         | S n' => forw_ptr_loop ts n' (next e) (i + 1) count
         end
       else Done (Some p, i)
   end).
Proof. destruct n; reflexivity. Qed.

Lemma forw_ptr_loop_spec n i p k count :
  l !! i = Some p →
  (Z.to_nat (count - k) ≤ n)%nat →
  let m := ((length l - 1 - i) `min` Z.to_nat (count - k))%nat in
  forw_ptr_loop ts n (Some p) k count = Done (l !! (i + m)%nat, k + Z.of_nat m).
Proof using Hl.
  revert i p k. induction n as [|n IH]; intros i p k Hi Hn m;
    rewrite forw_ptr_loop_eq;
    destruct (linked_deref ts l Hl i p Hi) as (e & -> & _ & Hnx & _);
    rewrite bind_Done, Hnx;
    pose proof (lookup_lt_Some _ _ _ Hi);
    (destruct (l !! S i) as [q|] eqn:Hq;
     [ pose proof (lookup_lt_Some _ _ _ Hq); destruct (Z.ltb_spec k count) |
       apply lookup_ge_None in Hq ]);
    try (assert (m = 0%nat) as -> by lia; by rewrite Nat.add_0_r, Z.add_0_r, Hi);
    try lia.
  rewrite (IH (S i) q (k + 1) Hq) by lia.
  f_equal. f_equal; [f_equal|]; lia.
Qed.

Lemma forw_ptr_spec i p count :
  l !! i = Some p →
  let m := ((length l - 1 - i) `min` Z.to_nat count)%nat in
  forw_ptr ts (Some p) count = Done (l !! (i + m)%nat, Z.of_nat m).
Proof using Hl.
  intros Hi m. unfold forw_ptr.
  rewrite (forw_ptr_loop_spec _ i p 0 count Hi) by lia.
  rewrite Z.sub_0_r. reflexivity.
Qed.

Lemma back_ptr_loop_eq n p i count :
  back_ptr_loop ts n (Some p) i count =
  (e ← deref ts (Some p);
   match prev e with
   | None => Done (Some p, i)
   | Some _ =>
       if i <? count then
         match n with
         | O => OutOfFuel
         | S n' => back_ptr_loop ts n' (prev e) (i + 1) count
         end
       else Done (Some p, i)
   end).
Proof. destruct n; reflexivity. Qed.

Lemma before_S i : before l (S i) = l !! i.
Proof. reflexivity. Qed.

Lemma back_ptr_loop_spec n i p k count :
  l !! i = Some p →
  (Z.to_nat (count - k) ≤ n)%nat →
  let m := (i `min` Z.to_nat (count - k))%nat in
  back_ptr_loop ts n (Some p) k count = Done (l !! (i - m)%nat, k + Z.of_nat m).
Proof using Hl.
  revert i p k. induction n as [|n IH]; intros i p k Hi Hn m;
    rewrite back_ptr_loop_eq;
    destruct (linked_deref ts l Hl i p Hi) as (e & -> & _ & _ & Hpv);
    rewrite bind_Done, Hpv;
    pose proof (lookup_lt_Some _ _ _ Hi);
    (destruct i as [|i]; cbn [before];
     [ | destruct (lookup_lt_is_Some_2 l i) as [q Hq]; [lia|]; rewrite Hq;
         destruct (Z.ltb_spec k count) ]);
    try (assert (m = 0%nat) as -> by lia; by rewrite Nat.sub_0_r, Z.add_0_r, Hi);
    try lia.
  rewrite (IH i q (k + 1) Hq) by lia.
  f_equal. f_equal; [f_equal|]; lia.
Qed.

Lemma back_ptr_spec i p count :
  l !! i = Some p →
  let m := (i `min` Z.to_nat count)%nat in
  back_ptr ts (Some p) count = Done (l !! (i - m)%nat, Z.of_nat m).
Proof using Hl.
  intros Hi m. unfold back_ptr.
  rewrite (back_ptr_loop_spec _ i p 0 count Hi) by lia.
  rewrite Z.sub_0_r. reflexivity.
Qed.
End Walks.

(** ** Movement in navigation mode *)

Section Moves.
Context (ts : TreeStore) (l : list positive) (Hl : linked ts l).

Lemma move_forward_loop_eq fuel sel current j i :
  move_forward_loop ts fuel sel current j i =
  if j <? i then
    c ← deref ts current;
    match next c with
    | None => Done (sel, j)
    | Some _ =>
        n ← deref ts (next c);
        s ← deref ts sel;
        if sublevel n >=? sublevel s then
          match fuel with
          | O => OutOfFuel
          | S fuel' =>
              if sublevel n =? sublevel s
              then move_forward_loop ts fuel' (next c) (next c) (j + 1) i
              else move_forward_loop ts fuel' sel (next c) j i
          end
        else Done (sel, j)
    end
  else Done (sel, j).
Proof. destruct fuel; reflexivity. Qed.

Lemma move_forward_loop_valid fuel ks ps kc pc j i :
  l !! ks = Some ps → l !! kc = Some pc →
  (length l - kc ≤ fuel)%nat →
  ∃ q j', move_forward_loop ts fuel (Some ps) (Some pc) j i = Done (Some q, j') ∧ q ∈ l.
Proof using Hl.
  revert ks ps kc pc j.
  induction fuel as [|fuel IH]; intros ks ps kc pc j Hs Hc Hfuel;
    rewrite move_forward_loop_eq;
    (destruct (j <? i); [|by eauto using list_elem_of_lookup_2]);
    destruct (linked_deref ts l Hl kc pc Hc) as (c & -> & _ & Hnx & _);
    rewrite bind_Done, Hnx;
    (destruct (l !! S kc) as [q|] eqn:Hq; [|by eauto using list_elem_of_lookup_2]);
    destruct (linked_deref ts l Hl (S kc) q Hq) as (n & -> & _);
    destruct (linked_deref ts l Hl ks ps Hs) as (s & -> & _);
    rewrite !bind_Done;
    (destruct (sublevel n >=? sublevel s); [|by eauto using list_elem_of_lookup_2]);
    pose proof (lookup_lt_Some _ _ _ Hq).
  - lia.
  - destruct (sublevel n =? sublevel s).
    + apply (IH (S kc) q (S kc) q); [done..|lia].
    + apply (IH ks ps (S kc) q); [done..|lia].
Qed.

Lemma move_backward_loop_eq fuel sel current j i :
  move_backward_loop ts fuel sel current j i =
  if j <? i then
    c ← deref ts current;
    match prev c with
    | None => Done (sel, j)
    | Some _ =>
        p ← deref ts (prev c);
        s ← deref ts sel;
        if sublevel p >=? sublevel s then
          match fuel with
          | O => OutOfFuel
          | S fuel' =>
              if sublevel p =? sublevel s
              then move_backward_loop ts fuel' (prev c) (prev c) (j + 1) i
              else move_backward_loop ts fuel' sel (prev c) j i
          end
        else Done (sel, j)
    end
  else Done (sel, j).
Proof. destruct fuel; reflexivity. Qed.

Lemma move_backward_loop_valid fuel ks ps kc pc j i :
  l !! ks = Some ps → l !! kc = Some pc →
  (kc ≤ fuel)%nat →
  ∃ q j', move_backward_loop ts fuel (Some ps) (Some pc) j i = Done (Some q, j') ∧ q ∈ l.
Proof using Hl.
  revert ks ps kc pc j.
  induction fuel as [|fuel IH]; intros ks ps kc pc j Hs Hc Hfuel;
    rewrite move_backward_loop_eq;
    (destruct (j <? i); [|by eauto using list_elem_of_lookup_2]);
    destruct (linked_deref ts l Hl kc pc Hc) as (c & -> & _ & _ & Hpv);
    rewrite bind_Done, Hpv;
    (destruct kc as [|kc]; cbn [before]; [by eauto using list_elem_of_lookup_2|]);
    pose proof (lookup_lt_Some _ _ _ Hc);
    (destruct (lookup_lt_is_Some_2 l kc) as [q Hq]; [lia|]); rewrite Hq;
    destruct (linked_deref ts l Hl kc q Hq) as (n & -> & _);
    destruct (linked_deref ts l Hl ks ps Hs) as (s & -> & _);
    rewrite !bind_Done;
    (destruct (sublevel n >=? sublevel s); [|by eauto using list_elem_of_lookup_2]).
  - lia.
  - destruct (sublevel n =? sublevel s).
    + apply (IH kc q kc q); [done..|lia].
    + apply (IH ks ps kc q); [done..|lia].
Qed.

(** Both movements return, keep the selection inside the store, and end
    with the focus correction. *)
Lemma tree_move_forward_selects g t i :
  selects l t →
  ∃ q d, tree_move_forward ts g t i =
           Done (tree_check_focus g (set_topdiff d (set_selected_ptr (Some q) t))) ∧ q ∈ l.
Proof using Hl.
  intros (p & Hsel & [k Hk]%list_elem_of_lookup).
  unfold tree_move_forward. rewrite Hsel.
  destruct (tree_navigation_flag g); cbn [negb].
  - destruct (move_forward_loop_valid (store_fuel ts) k p k p 0 i Hk Hk) as (q & j' & -> & Hq).
    { pose proof (linked_fuel ts l Hl). lia. }
    exists q, (topdiff t + j'). by rewrite bind_Done.
  - rewrite (forw_ptr_spec ts l Hl k p i Hk), bind_Done.
    pose proof (lookup_lt_Some _ _ _ Hk).
    destruct (lookup_lt_is_Some_2 l (k + (length l - 1 - k) `min` Z.to_nat i)%nat) as [q Hq]; [lia|].
    rewrite Hq. eexists q, _. split; [reflexivity|]. by eapply list_elem_of_lookup_2.
Qed.

Lemma tree_move_backward_selects g t i :
  selects l t →
  ∃ q d, tree_move_backward ts g t i =
           Done (tree_check_focus g (set_topdiff d (set_selected_ptr (Some q) t))) ∧ q ∈ l.
Proof using Hl.
  intros (p & Hsel & [k Hk]%list_elem_of_lookup).
  unfold tree_move_backward. rewrite Hsel.
  destruct (tree_navigation_flag g); cbn [negb].
  - destruct (move_backward_loop_valid (store_fuel ts) k p k p 0 i Hk Hk) as (q & j' & -> & Hq).
    { pose proof (linked_fuel ts l Hl). pose proof (lookup_lt_Some _ _ _ Hk). lia. }
    exists q, (topdiff t - j'). by rewrite bind_Done.
  - rewrite (back_ptr_spec ts l Hl k p i Hk), bind_Done.
    pose proof (lookup_lt_Some _ _ _ Hk).
    destruct (lookup_lt_is_Some_2 l (k - k `min` Z.to_nat i)%nat) as [q Hq]; [lia|].
    rewrite Hq. eexists q, _. split; [reflexivity|]. by eapply list_elem_of_lookup_2.
Qed.
End Moves.

(** ** Moving to the parent *)

Section Parent.
Context (ts : TreeStore) (l : list positive) (Hl : linked ts l).

Lemma skipped_le d k : (skipped ts d l k ≤ k)%nat.
Proof.
  induction k as [|k IH]; simpl; [lia|].
  destruct (l !! k); [|lia]. destruct (_ >=? _); lia.
Qed.

Lemma skipped_not_shallower d k j q :
  (k - skipped ts d l k ≤ j < k)%nat → l !! j = Some q → d ≤ depth ts q.
Proof.
  induction k as [|k IH]; simpl; [lia|].
  destruct (l !! k) as [r|] eqn:Hr; [|lia].
  destruct (Z.geb_spec (depth ts r) d); [|lia].
  intros Hj Hq. destruct (decide (j = k)) as [->|]; [|apply IH; [lia|done]].
  congruence.
Qed.

Lemma skipped_stop d k :
  (k ≤ length l)%nat → (skipped ts d l k < k)%nat →
  ∃ q, l !! (k - skipped ts d l k - 1)%nat = Some q ∧ depth ts q < d.
Proof.
  induction k as [|k IH]; simpl; [lia|]. intros Hk.
  destruct (lookup_lt_is_Some_2 l k) as [r Hr]; [lia|]. rewrite Hr.
  destruct (Z.geb_spec (depth ts r) d).
  - intros ?. replace (S k - S (skipped ts d l k) - 1)%nat
      with (k - skipped ts d l k - 1)%nat by lia. apply IH; lia.
  - intros _. replace (S k - 0 - 1)%nat with k by lia. eauto.
Qed.

Lemma move_to_parent_loop_eq fuel sel current td :
  move_to_parent_loop ts fuel sel current td =
  match current with
  | None => Done (current, td)
  | Some _ =>
      c ← deref ts current;
      s ← deref ts sel;
      if sublevel c >=? sublevel s then
        match fuel with
        | O => OutOfFuel
        | S fuel' => move_to_parent_loop ts fuel' sel (prev c) (td - 1)
        end
      else Done (current, td)
  end.
Proof. destruct fuel; reflexivity. Qed.

Lemma move_to_parent_loop_spec ks ps k fuel td :
  l !! ks = Some ps → (k ≤ length l)%nat → (k ≤ fuel)%nat →
  let m := skipped ts (depth ts ps) l k in
  move_to_parent_loop ts fuel (Some ps) (before l k) td =
    Done (before l (k - m), td - Z.of_nat m).
Proof using Hl.
  intros Hs. revert fuel td.
  induction k as [|k IH]; intros fuel td Hk Hfuel; rewrite move_to_parent_loop_eq.
  { simpl. by rewrite Z.sub_0_r. }
  cbn [before skipped].
  destruct (lookup_lt_is_Some_2 l k) as [q Hq]; [lia|]. rewrite Hq.
  destruct (linked_deref ts l Hl k q Hq) as (c & Hc & _ & _ & Hpv).
  destruct (linked_deref ts l Hl ks ps Hs) as (s & Hds & _).
  rewrite Hc, Hds, !bind_Done.
  rewrite (depth_deref ts l Hl k q c Hq Hc), (depth_deref ts l Hl ks ps s Hs Hds).
  destruct (depth ts q >=? depth ts ps).
  - destruct fuel as [|fuel]; [lia|].
    rewrite Hpv, IH by lia.
    f_equal. f_equal; try done; lia.
  - rewrite Nat.sub_0_r. cbn [before]. by rewrite Hq, Z.sub_0_r.
Qed.

(** What [tree_move_to_parent] computes: [m] records are passed over;
    the new selection is the record before them, or the first record. *)
Lemma tree_move_to_parent_spec g t k p :
  l !! k = Some p → selected_ptr t = Some p →
  let m := skipped ts (depth ts p) l k in
  tree_move_to_parent ts g t =
    Done (tree_check_focus g
            (set_topdiff (topdiff t - Z.of_nat m)
               (set_selected_ptr (l !! (k - m - 1)%nat) t)),
          bool_decide (k ≠ 0%nat)).
Proof using Hl.
  intros Hk Hsel m. unfold tree_move_to_parent. rewrite Hsel.
  destruct (linked_deref ts l Hl k p Hk) as (s & -> & _ & _ & Hpv).
  rewrite bind_Done, Hpv.
  pose proof (lookup_lt_Some _ _ _ Hk).
  rewrite (move_to_parent_loop_spec k p k (store_fuel ts) (topdiff t) Hk)
    by (pose proof (linked_fuel ts l Hl); lia).
  rewrite bind_Done. fold m.
  pose proof (skipped_le (depth ts p) k). fold m in H0.
  assert (match before l (k - m) with
          | Some _ => before l (k - m)
          | None => tree_first ts
          end = l !! (k - m - 1)%nat) as ->.
  { destruct (k - m)%nat as [|j] eqn:Hj; cbn [before].
    - rewrite (linked_first ts l Hl). done.
    - replace (S j - 1)%nat with j by lia.
      destruct (lookup_lt_is_Some_2 l j) as [q ->]; [lia|]. done. }
  unfold mret, outcome_ret. f_equal. f_equal.
  rewrite selected_check_focus. cbn [set_topdiff set_selected_ptr selected_ptr].
  destruct (decide (k = 0%nat)) as [->|Hk0].
  - replace (0 - m - 1)%nat with 0%nat by lia.
    rewrite Hk, ptr_eqb_refl. done.
  - rewrite ptr_eqb_ne, bool_decide_eq_true_2; [done..|].
    rewrite <- Hk. intros Heq.
    destruct (lookup_lt_is_Some_2 l (k - m - 1)%nat) as [q Hq]; [lia|].
    rewrite Hq in Heq. symmetry in Heq.
    pose proof (linked_index_inj ts l Hl _ _ _ Hq Heq). lia.
Qed.
End Parent.

(** ** The search scan *)

Lemma nat_of_ascii_zero c : nat_of_ascii c = 0%nat → c = zero.
Proof.
  intros H. rewrite <- (ascii_nat_embedding c), H. reflexivity.
Qed.

Lemma strncmp_prefix s text :
  nul_free text →
  strncmp s text (String.length text) = 0 ↔ String.prefix text s = true.
Proof.
  revert s. induction text as [|c text IH]; intros s Hnul.
  - simpl. by destruct s.
  - destruct Hnul as [Hc Hnul]. destruct s as [|c' s]; simpl.
    + split; [|done]. intros H. destruct Hc. apply nat_of_ascii_zero. lia.
    + destruct (Ascii.eqb_spec c' c) as [->|Hne].
      * destruct (ascii_dec c c); [|done]. by apply IH.
      * destruct (ascii_dec c c') as [->|]; [done|].
        split; [|done]. intros H. destruct Hne.
        rewrite <- (ascii_nat_embedding c'), <- (ascii_nat_embedding c).
        f_equal. lia.
Qed.

Lemma matches_prefix_match ts text q :
  nul_free text → matches ts text q ↔ prefix_match ts text q.
Proof. intros. by apply strncmp_prefix. Qed.

Section Scan.
Context (ts : TreeStore) (l : list positive) (Hl : linked ts l).
Context (text : string) (k : nat) (ps : positive) (Hk : l !! k = Some ps).

Lemma search_loop_eq fuel sel current wrapped td :
  search_loop ts fuel sel text current wrapped td =
  if negb wrapped || negb (ptr_eqb current sel) then
    c ← deref ts current;
    if strncmp (subname c) text (String.length text) =? 0 then Done (current, td, true)
    else
      match fuel with
      | O => OutOfFuel
      | S fuel' =>
          match next c with
          | None => search_loop ts fuel' sel text (tree_first ts) true (td + 1)
          | Some _ => search_loop ts fuel' sel text (next c) wrapped (td + 1)
          end
      end
  else Done (sel, td, false).
Proof. destruct fuel; reflexivity. Qed.

Lemma subname_deref i q e :
  l !! i = Some q → deref ts (Some q) = Done e → subname e = display_name ts q.
Proof using Hl.
  intros Hi Hd. destruct (linked_deref ts l Hl i q Hi) as (e' & Hd' & He' & _).
  unfold display_name. rewrite He'. congruence.
Qed.

(** After the wrap: the records from [i] up to the selection. *)
Lemma search_loop_wrapped d i fuel td :
  (i + d)%nat = k → (d ≤ fuel)%nat →
  search_loop ts fuel (Some ps) text (l !! i) true td =
    match list_find (matches ts text) (take d (drop i l)) with
    | Some (j, q) => Done (Some q, td + Z.of_nat j, true)
    | None => Done (Some ps, td + Z.of_nat d, false)
    end.
Proof using Hl Hk.
  revert i fuel td. induction d as [|d IH]; intros i fuel td Hi Hfuel;
    rewrite search_loop_eq.
  { replace i with k by lia. rewrite Hk, ptr_eqb_refl. simpl. by rewrite Z.add_0_r. }
  pose proof (lookup_lt_Some _ _ _ Hk).
  destruct (lookup_lt_is_Some_2 l i) as [q Hq]; [lia|].
  rewrite Hq, ptr_eqb_ne; last first.
  { intros [= ->]. pose proof (linked_index_inj ts l Hl _ _ _ Hq Hk). lia. }
  cbn [negb orb].
  destruct (linked_deref ts l Hl i q Hq) as (c & Hc & _ & Hnx & _).
  rewrite Hc, bind_Done, (subname_deref i q c Hq Hc).
  rewrite (drop_S l q i Hq). cbn [take list_find].
  unfold matches at 1. destruct (decide _) as [Hm|Hm].
  - rewrite Hm. simpl. by rewrite Z.add_0_r.
  - apply Z.eqb_neq in Hm. rewrite Hm.
    destruct fuel as [|fuel]; [lia|].
    destruct (lookup_lt_is_Some_2 l (S i)) as [q' Hq']; [lia|].
    rewrite Hnx, Hq', <- Hq', IH by lia.
    destruct (list_find _ _) as [[j r]|]; cbn -[Z.of_nat Z.add]; do 3 f_equal; lia.
Qed.

(** Before the wrap: the records from [i] to the end of the list, then
    those before the selection. *)
Lemma search_loop_unwrapped d i fuel td :
  (i + d)%nat = length l → (0 < d)%nat → (k ≤ i)%nat → (d + k ≤ fuel)%nat →
  search_loop ts fuel (Some ps) text (l !! i) false td =
    match list_find (matches ts text) (drop i l ++ take k l) with
    | Some (j, q) => Done (Some q, td + Z.of_nat j, true)
    | None => Done (Some ps, td + Z.of_nat (d + k), false)
    end.
Proof using Hl Hk.
  revert i fuel td. induction d as [|d IH]; intros i fuel td Hi Hd Hki Hfuel;
    rewrite search_loop_eq; [lia|].
  destruct (lookup_lt_is_Some_2 l i) as [q Hq]; [lia|].
  rewrite Hq. cbn [negb orb].
  destruct (linked_deref ts l Hl i q Hq) as (c & Hc & _ & Hnx & _).
  rewrite Hc, bind_Done, (subname_deref i q c Hq Hc).
  rewrite (drop_S l q i Hq). cbn [app list_find].
  unfold matches at 1. destruct (decide _) as [Hm|Hm].
  - rewrite Hm. simpl. by rewrite Z.add_0_r.
  - apply Z.eqb_neq in Hm. rewrite Hm.
    destruct fuel as [|fuel]; [lia|].
    rewrite Hnx. destruct (l !! S i) as [q'|] eqn:Hq'.
    + rewrite <- Hq', IH by (apply lookup_lt_Some in Hq'; lia).
      destruct (list_find _ _) as [[j r]|]; cbn -[Z.of_nat Z.add]; do 3 f_equal; lia.
    + apply lookup_ge_None in Hq'. assert (d = 0%nat) as -> by lia.
      rewrite (drop_ge l (S i)) by lia. cbn [app].
      rewrite (linked_first ts l Hl), (search_loop_wrapped k 0) by lia.
      rewrite drop_0.
      destruct (list_find _ _) as [[j r]|]; cbn -[Z.of_nat Z.add]; do 3 f_equal; lia.
Qed.

(** The whole scan, from the selection. *)
Lemma search_tree_scan g t :
  selected_ptr t = Some ps →
  search_tree ts g t text =
    match list_find (matches ts text) (scan_order l k) with
    | Some (j, q) =>
        Done (tree_check_focus g (set_topdiff (topdiff t + Z.of_nat j)
                                    (set_selected_ptr (Some q) t)), true)
    | None =>
        Done (tree_check_focus g (set_topdiff (topdiff t + Z.of_nat (length l))
                                    (set_selected_ptr (Some ps) t)), false)
    end.
Proof using Hl Hk.
  intros Hsel. unfold search_tree, scan_order. rewrite Hsel.
  pose proof (lookup_lt_Some _ _ _ Hk).
  rewrite <- Hk at 2.
  rewrite (search_loop_unwrapped (length l - k) k)
    by (pose proof (linked_fuel ts l Hl); lia).
  destruct (list_find _ _) as [[j r]|]; rewrite bind_Done; [done|].
  replace (length l - k + k)%nat with (length l) by lia. done.
Qed.
End Scan.

(** * Properties of the view *)

(** ** Focus correction (C7) *)

(** C7: for every view, whatever its scroll offset, and at least 8 visible
    rows, [tree_check_focus] applied twice gives the same view, and so the
    same [topdiff], as applied once, and the [topdiff] it leaves lies
    between 3 and [tlines - 4]. *)
Theorem tree_check_focus_idempotent (g : Globals) (t : WTree) :
  8 ≤ tlines g t →
  tree_check_focus g (tree_check_focus g t) = tree_check_focus g t ∧
  topdiff (tree_check_focus g (tree_check_focus g t)) = topdiff (tree_check_focus g t) ∧
  3 ≤ topdiff (tree_check_focus g t) ≤ tlines g t - 4.
Proof.
  intros Hrows.
  assert (tree_check_focus g (tree_check_focus g t) = tree_check_focus g t) as Hidem.
  { unfold tree_check_focus at 1.
    rewrite tlines_check_focus, topdiff_check_focus.
    pose proof (clamp_bounds (tlines g t) (topdiff t)).
    destruct (Z.ltb_spec (clamp (tlines g t) (topdiff t)) 3); [lia|].
    destruct (Z.geb_spec (clamp (tlines g t) (topdiff t)) (tlines g t - 3)); [lia|done]. }
  split; [done|]. split; [by rewrite Hidem|].
  rewrite topdiff_check_focus. apply clamp_bounds. lia.
Qed.

Lemma tree_check_focus_idempotent_witness :
  8 ≤ tlines flat_mode (view_at 2 0) ∧
  topdiff (tree_check_focus flat_mode (tree_check_focus flat_mode (view_at 2 0))) = 3.
Proof.
  split; [vm_compute; discriminate|].
  destruct (tree_check_focus_idempotent flat_mode (view_at 2 0)) as (_ & -> & _);
    [vm_compute; discriminate|reflexivity].
Defined.

(** ** The removal hook (C6) *)

(** C6: when the hook fires for the selected record, the selection moves
    to the record's [next], or to its [prev] when there is no [next]; it
    becomes null exactly when the record was the only one, so that the
    store is empty once the record is unlinked.  When the hook fires for
    another record the view is left as it is. *)
Theorem remove_callback_reseats (ts : TreeStore) (l : list positive) (t : WTree)
    (k : nat) (p : positive) :
  linked ts l → l !! k = Some p →
  (selected_ptr t = Some p →
     ∃ t', remove_callback ts (Some p) t = Done t' ∧
           selected_ptr t' = match l !! S k with
                             | Some q => Some q
                             | None => before l k
                             end ∧
           (selected_ptr t' = None ↔ delete k l = [])) ∧
  (selected_ptr t ≠ Some p → remove_callback ts (Some p) t = Done t).
Proof.
  intros Hl Hk. split.
  - intros Hsel. unfold remove_callback.
    rewrite Hsel, ptr_eqb_refl.
    destruct (linked_deref ts l Hl k p Hk) as (s & -> & _ & Hnx & Hpv).
    rewrite bind_Done, Hnx, Hpv.
    pose proof (lookup_lt_Some _ _ _ Hk) as Hlen.
    destruct (l !! S k) as [q|] eqn:Hq.
    + eexists. split; [reflexivity|]. split; [reflexivity|].
      apply lookup_lt_Some in Hq. split; [done|].
      intros Hdel. apply (f_equal length) in Hdel.
      rewrite length_delete in Hdel by eauto. simpl in Hdel. lia.
    + eexists. split; [reflexivity|]. split; [reflexivity|].
      apply lookup_ge_None in Hq. cbn [set_selected_ptr selected_ptr].
      destruct k as [|k]; cbn [before].
      * split; [|done]. intros _.
        destruct l as [|x [|y l']]; simpl in *; [lia|done|lia].
      * destruct (lookup_lt_is_Some_2 l k) as [r Hr]; [lia|]. rewrite Hr.
        split; [done|]. intros Hdel. apply (f_equal length) in Hdel.
        rewrite length_delete in Hdel by eauto. simpl in Hdel. lia.
  - intros Hne. unfold remove_callback. by rewrite ptr_eqb_ne.
Qed.

(** ** The example stores *)

(** Runs through the records of a store given as a literal list. *)
Ltac each_record H :=
  repeat (apply elem_of_cons in H as [->|H]; [by vm_compute|]);
  by apply elem_of_nil in H.

Lemma linked_store4 : linked store4 [1; 2; 3; 4]%positive.
Proof.
  split; [by apply (bool_decide_unpack _)|]. do 2 (split; [reflexivity|]).
  intros [|[|[|[|i]]]] p Hi; simplify_eq/=;
    (eexists; split; [by vm_compute|]; split; reflexivity).
Qed.

Lemma linked_store3 : linked store3 [1; 2; 3]%positive.
Proof.
  split; [by apply (bool_decide_unpack _)|]. do 2 (split; [reflexivity|]).
  intros [|[|[|i]]] p Hi; simplify_eq/=;
    (eexists; split; [by vm_compute|]; split; reflexivity).
Qed.

Lemma remove_callback_reseats_witness :
  ∃ t', remove_callback store4 (Some 4%positive) (view_at 4 10) = Done t' ∧
        selected_ptr t' = Some 3%positive.
Proof.
  destruct (remove_callback_reseats store4 [1; 2; 3; 4]%positive (view_at 4 10) 3 4%positive
              linked_store4 eq_refl) as [H _].
  destruct (H eq_refl) as (t' & Ht' & Hsel & _).
  exists t'. split; [exact Ht'|exact Hsel].
Defined.

(** ** The scenario (C8) *)

(** C8: in the store /, /a, /a/x, /b, whatever the scroll state of the
    view: from /a/x, [tree_move_to_parent] selects /a; from /a,
    [tree_move_forward] by one step selects /b in navigation
    (hierarchical) mode and /a/x in flat mode. *)
Theorem scenario_parent_and_forward (t : WTree) :
  (selected_ptr t = Some 3%positive →
     ∃ t', tree_move_to_parent store4 hierarchical_mode t = Done (t', true) ∧
           selected_ptr t' = Some 2%positive) ∧
  (selected_ptr t = Some 2%positive →
     (∃ t', tree_move_forward store4 hierarchical_mode t 1 = Done t' ∧
            selected_ptr t' = Some 4%positive) ∧
     (∃ t', tree_move_forward store4 flat_mode t 1 = Done t' ∧
            selected_ptr t' = Some 3%positive)).
Proof.
  split; [|intros H; split].
  - intros Hsel.
    rewrite (tree_move_to_parent_spec store4 _ linked_store4 hierarchical_mode t 2 3%positive
               eq_refl Hsel).
    eexists. split; [reflexivity|]. by rewrite selected_check_focus.
  - unfold tree_move_forward. rewrite H. cbn [hierarchical_mode tree_navigation_flag negb].
    assert (move_forward_loop store4 (store_fuel store4) (Some 2%positive) (Some 2%positive) 0 1
            = Done (Some 4%positive, 1)) as -> by (by vm_compute).
    rewrite bind_Done. eexists. split; [reflexivity|]. by rewrite selected_check_focus.
  - unfold tree_move_forward. rewrite H. cbn [flat_mode tree_navigation_flag negb].
    assert (forw_ptr store4 (Some 2%positive) 1 = Done (Some 3%positive, 1)) as ->
      by (by vm_compute).
    rewrite bind_Done. eexists. split; [reflexivity|]. by rewrite selected_check_focus.
Qed.

Lemma scenario_parent_and_forward_witness :
  selected_ptr (view_at 2 10) = Some 2%positive ∧
  ∃ t', tree_move_forward store4 hierarchical_mode (view_at 2 10) 1 = Done t' ∧
        selected_ptr t' = Some 4%positive.
Proof.
  split; [reflexivity|].
  exact (proj1 (proj2 (scenario_parent_and_forward (view_at 2 10)) eq_refl)).
Defined.

(** ** The search scan (C4, C10) *)

Lemma set_selected_ptr_same t p : selected_ptr t = p → set_selected_ptr p t = t.
Proof. intros <-. by destruct t. Qed.

Lemma list_find_matches_prefix ts text (l : list positive) :
  nul_free text →
  list_find (matches ts text) l = list_find (prefix_match ts text) l.
Proof. intros Hnul. apply list_find_ext. intros q. by apply matches_prefix_match. Qed.

Lemma scan_order_head (l : list positive) k p :
  l !! k = Some p → head (scan_order l k) = Some p.
Proof. intros Hk. unfold scan_order. by rewrite (drop_S l p k Hk). Qed.

(** C4, as the code has it: the scan tests the selection first, then the
    records after it, then, from the start of the list, the records before
    it; the first record whose display name starts with the buffer is
    selected and [topdiff] grows by the number of steps taken to reach it.
    When no record matches, the scan stops on coming back to the selection
    without testing it again. *)
Theorem search_tree_first_match (ts : TreeStore) (l : list positive) (g : Globals)
    (t : WTree) (text : string) (k : nat) (p : positive) :
  linked ts l → l !! k = Some p → selected_ptr t = Some p → nul_free text →
  head (scan_order l k) = Some p ∧
  search_tree ts g t text =
    match list_find (prefix_match ts text) (scan_order l k) with
    | Some (j, q) =>
        Done (tree_check_focus g (set_topdiff (topdiff t + Z.of_nat j)
                                    (set_selected_ptr (Some q) t)), true)
    | None =>
        Done (tree_check_focus g (set_topdiff (topdiff t + Z.of_nat (length l)) t), false)
    end.
Proof.
  intros Hl Hk Hsel Hnul. split; [by apply scan_order_head|].
  rewrite (search_tree_scan ts l Hl text k p Hk g t Hsel).
  rewrite (list_find_matches_prefix ts text _ Hnul).
  destruct (list_find _ _) as [[j q]|]; [done|].
  by rewrite (set_selected_ptr_same t (Some p) Hsel).
Qed.

Lemma search_tree_first_match_witness :
  ∃ t', search_tree store4 flat_mode (view_at 3 10) "a" = Done (t', true) ∧
        selected_ptr t' = Some 2%positive ∧ topdiff t' = 13.
Proof.
  destruct (search_tree_first_match store4 [1; 2; 3; 4]%positive flat_mode (view_at 3 10) "a"
              2 3%positive linked_store4 eq_refl eq_refl) as [_ H].
  { vm_compute. split; [discriminate|exact I]. }
  eexists. split; [exact H|]. split; reflexivity.
Defined.

(** The selection is tested at the start of the scan: with /a selected in
    the store /, /a, /ab and the buffer "a", the scan keeps /a, while an
    order of candidates that leaves the selection for the end would pick
    /ab. *)
Lemma search_tree_tests_selection_first :
  ∃ t', search_tree store3 flat_mode (view_at 2 10) "a" = Done (t', true) ∧
        selected_ptr t' = Some 2%positive ∧
        list_find (prefix_match store3 "a") (scan_order_selection_last [1; 2; 3]%positive 1)
          = Some (0%nat, 3%positive) ∧
        selected_ptr t' ≠ Some 3%positive.
Proof. eexists. split; [by vm_compute|]. split; [reflexivity|]. split; [by vm_compute|done]. Qed.

(** A scan that meets no match. *)
Lemma search_tree_no_match (ts : TreeStore) (l : list positive) (g : Globals)
    (t : WTree) (text : string) (p : positive) :
  linked ts l → p ∈ l → selected_ptr t = Some p → nul_free text →
  (∀ q, q ∈ l → ¬ prefix_match ts text q) →
  search_tree ts g t text =
    Done (tree_check_focus g (set_topdiff (topdiff t + Z.of_nat (length l)) t), false).
Proof.
  intros Hl [k Hk]%list_elem_of_lookup Hsel Hnul Hnone.
  rewrite (search_tree_scan ts l Hl text k p Hk g t Hsel).
  rewrite (list_find_matches_prefix ts text _ Hnul).
  assert (list_find (prefix_match ts text) (scan_order l k) = None) as ->.
  { apply list_find_None, Forall_forall. intros q Hq. apply Hnone.
    unfold scan_order in Hq. apply elem_of_app in Hq as [Hq|Hq].
    - by eapply subseteq_drop.
    - by eapply subseteq_take. }
  by rewrite (set_selected_ptr_same t (Some p) Hsel).
Qed.

(** Looking for the next match: the handler first steps off the selection,
    because the scan would otherwise stop on it at once.  With "a" in the
    buffer and /a selected in the store /, /a, /ab, it selects /ab; asked
    again, at the end of the list, it goes to the top and finds /a. *)
Example search_next_steps_off_the_selection :
  (∃ t' evs, Sample.mc_tree_cmd_search_begin store3 flat_mode (Sample.searching_a_at 2 10)
               = Done (t', evs) ∧ selected_ptr t' = Some 3%positive) ∧
  (∃ t' evs, Sample.mc_tree_cmd_search_begin store3 flat_mode (Sample.searching_a_at 3 10)
               = Done (t', evs) ∧ selected_ptr t' = Some 2%positive).
Proof. split; eexists _, _; (split; [by vm_compute|reflexivity]). Qed.

(** C10: a scan that finds no match leaves the selection where it was, but
    not the scroll offset: [topdiff] has been incremented once for each of
    the [length l] records visited, and is then corrected. *)
Theorem search_tree_failed_scan_scrolls (ts : TreeStore) (l : list positive) (g : Globals)
    (t : WTree) (text : string) (p : positive) :
  linked ts l → p ∈ l → selected_ptr t = Some p → nul_free text →
  (∀ q, q ∈ l → ¬ prefix_match ts text q) →
  ∃ t', search_tree ts g t text = Done (t', false) ∧
        selected_ptr t' = selected_ptr t ∧
        t' = tree_check_focus g (set_topdiff (topdiff t + Z.of_nat (length l)) t) ∧
        topdiff t' = clamp (tlines g t) (topdiff t + Z.of_nat (length l)).
Proof.
  intros Hl Hp Hsel Hnul Hnone.
  rewrite (search_tree_no_match ts l g t text p Hl Hp Hsel Hnul Hnone).
  eexists. split; [reflexivity|]. split; [by rewrite selected_check_focus|].
  split; [reflexivity|]. by rewrite topdiff_check_focus.
Qed.

Lemma search_tree_failed_scan_scrolls_witness :
  ∃ t', search_tree store4 flat_mode (view_at 2 5) "q" = Done (t', false) ∧
        selected_ptr t' = Some 2%positive ∧ topdiff t' = 9.
Proof.
  destruct (search_tree_failed_scan_scrolls store4 [1; 2; 3; 4]%positive flat_mode
              (view_at 2 5) "q" 2%positive linked_store4) as (t' & Ht' & Hsel & _ & Htd).
  - by apply (bool_decide_unpack _).
  - reflexivity.
  - vm_compute. split; [discriminate|exact I].
  - intros q Hq. each_record Hq.
  - exists t'. split; [exact Ht'|]. split; [exact Hsel|exact Htd].
Defined.

(** ** Moving to the parent (C9) *)

(** C9, as the code has it: [tree_move_to_parent] follows [prev] links
    from the selection and passes over [m] records, none shallower than
    the selection, until it meets a shallower one, which it selects; when
    there is none it selects the first record of the list.  [topdiff] is
    decremented once per record passed over, so by [m], which is one less
    than the [m + 1] links followed to reach a parent that was found, and
    is then corrected.  The result is true exactly when the selection
    changed. *)
Theorem tree_move_to_parent_walk (ts : TreeStore) (l : list positive) (g : Globals)
    (t : WTree) (k : nat) (p : positive) :
  linked ts l → l !! k = Some p → selected_ptr t = Some p →
  let m := skipped ts (depth ts p) l k in
  ∃ t' b, tree_move_to_parent ts g t = Done (t', b) ∧
    (∀ j q, (k - m ≤ j < k)%nat → l !! j = Some q → depth ts p ≤ depth ts q) ∧
    ((m < k)%nat →
       ∃ q, l !! (k - (m + 1))%nat = Some q ∧ selected_ptr t' = Some q ∧
            depth ts q < depth ts p) ∧
    (m = k → selected_ptr t' = head l) ∧
    topdiff t' = clamp (tlines g t) (topdiff t - Z.of_nat m) ∧
    (b = true ↔ selected_ptr t' ≠ selected_ptr t).
Proof.
  intros Hl Hk Hsel m.
  rewrite (tree_move_to_parent_spec ts l Hl g t k p Hk Hsel). fold m.
  pose proof (lookup_lt_Some _ _ _ Hk) as Hlen.
  pose proof (skipped_le ts l (depth ts p) k) as Hm. fold m in Hm.
  eexists _, _. split; [reflexivity|].
  rewrite selected_check_focus, topdiff_check_focus.
  cbn [set_topdiff set_selected_ptr selected_ptr topdiff].
  split; [apply skipped_not_shallower|].
  split.
  { intros Hlt. destruct (skipped_stop ts l (depth ts p) k) as (q & Hq & Hd); [lia|done|].
    fold m in Hq. replace (k - (m + 1))%nat with (k - m - 1)%nat by lia. eauto. }
  split.
  { intros ->. replace (k - k - 1)%nat with 0%nat by lia. by rewrite head_lookup. }
  split; [done|].
  rewrite bool_decide_eq_true, Hsel, <- Hk.
  destruct (lookup_lt_is_Some_2 l (k - m - 1)%nat) as [q Hq]; [lia|].
  split.
  - intros Hk0 Heq. rewrite Hq in Heq. symmetry in Heq.
    pose proof (linked_index_inj ts l Hl _ _ _ Hq Heq). lia.
  - intros Hne ->. apply Hne. f_equal.
Qed.

Lemma tree_move_to_parent_walk_witness :
  ∃ t', tree_move_to_parent store4 hierarchical_mode (view_at 4 10) = Done (t', true) ∧
        selected_ptr t' = Some 1%positive ∧ topdiff t' = 8.
Proof.
  destruct (tree_move_to_parent_walk store4 [1; 2; 3; 4]%positive hierarchical_mode
              (view_at 4 10) 3 4%positive linked_store4 eq_refl eq_refl)
    as (t' & b & Hrun & _ & Hfound & _ & Htd & Hb).
  destruct (Hfound ltac:(vm_compute; lia)) as (q & Hq & Hsel & _).
  assert (b = true) as -> by (apply Hb; rewrite Hsel; vm_compute in Hq; by simplify_eq).
  exists t'. split; [exact Hrun|]. split; [|exact Htd].
  rewrite Hsel. exact (eq_sym Hq).
Defined.

(** One [prev] link leads from /a/x to its parent /a, and [topdiff] is not
    decremented for it. *)
Lemma tree_move_to_parent_first_link_not_counted :
  ∃ t' e, tree_move_to_parent store4 hierarchical_mode (view_at 3 10) = Done (t', true) ∧
          heap store4 !! 3%positive = Some e ∧ selected_ptr t' = prev e ∧
          topdiff t' = 10 ∧
          topdiff t' ≠ clamp (tlines hierarchical_mode (view_at 3 10)) (10 - 1).
Proof. eexists _, _. split; [by vm_compute|]. split; [by vm_compute|]. done. Qed.

(** ** Code that calls collaborators *)

Lemma preorder_store4 : pre_order store4 [1; 2; 3; 4]%positive.
Proof. intros [|[|[|[|i]]]] p q Hp Hq; simplify_eq/=; by vm_compute. Qed.

Lemma preorder_store5 : pre_order store5 [1; 2; 3; 4; 5]%positive.
Proof. intros [|[|[|[|[|i]]]]] p q Hp Hq; simplify_eq/=; by vm_compute. Qed.

Lemma linked_store5 : linked store5 [1; 2; 3; 4; 5]%positive.
Proof.
  split; [by apply (bool_decide_unpack _)|]. do 2 (split; [reflexivity|]).
  intros [|[|[|[|[|i]]]]] p Hi; simplify_eq/=;
    (eexists; split; [by vm_compute|]; split; reflexivity).
Qed.

Section WithCollaborators.
Context (KEY_BACKSPACE MC_MAXFILENAMELEN : Z) (PATH_SEP : ascii).
Context (vfs_get_raw_current_dir : option string) (mc_chdir : string → Z).
Context (vfs_path_equal : string → string → bool).
Context (vfs_path_equal_len : string → string → Z → bool).
Context (vfs_path_len : string → Z).
Context (tree_store_rescan : TreeStore → string → list (TreeStore * addr) * TreeStore).
Context (is_idle : bool).
Context (change_panel : TreeStore → Globals → WTree → outcome WTree).
Context (do_cd : TreeStore → Globals → WTree → string → outcome WTree).

Local Abbreviation rescan :=
  (mc_tree_cmd_rescan vfs_get_raw_current_dir mc_chdir tree_store_rescan).
Local Abbreviation move_to_child :=
  (tree_move_to_child vfs_get_raw_current_dir mc_chdir tree_store_rescan).
Local Abbreviation run :=
  (run_ops vfs_get_raw_current_dir mc_chdir tree_store_rescan).

(** *** Moving to the child *)

Lemma is_child_spec ts l k p :
  linked ts l → l !! k = Some p →
  is_child ts (Some p) (l !! S k) =
    Done (match l !! S k with
          | Some q => depth ts q >? depth ts p
          | None => false
          end).
Proof.
  intros Hl Hk. unfold is_child.
  destruct (l !! S k) as [q|] eqn:Hq; [|done].
  destruct (linked_deref ts l Hl (S k) q Hq) as (c & Hc & _).
  destruct (linked_deref ts l Hl k p Hk) as (s & Hs & _).
  rewrite Hc, Hs, !bind_Done.
  by rewrite (depth_deref ts l Hl _ _ _ Hq Hc), (depth_deref ts l Hl _ _ _ Hk Hs).
Qed.

(** The hooks of removals that spare the selected record leave the view
    as it is. *)
Lemma run_remove_hooks_other hooks t p :
  selected_ptr t = Some p → (∀ h, h ∈ hooks → h.2 ≠ p) →
  run_remove_hooks hooks t = Done t.
Proof.
  intros Hsel. induction hooks as [|[ts e] hooks IH]; intros Hother; [done|].
  cbn [run_remove_hooks]. unfold remove_callback.
  rewrite Hsel, ptr_eqb_ne.
  - rewrite bind_mret. apply IH. intros h Hh. apply Hother. by right.
  - intros [= ->]. by apply (Hother (ts, e)); [left|].
Qed.

(** A rescan that does not remove the selected record leaves the view as
    it is. *)
Lemma rescan_spares_view ts l t k p :
  linked ts l → l !! k = Some p → selected_ptr t = Some p →
  (∀ s h, heap ts !! p = Some s → h ∈ (tree_store_rescan ts (name s)).1 → h.2 ≠ p) →
  ∃ ts1, rescan ts t = Done (ts1, t).
Proof.
  intros Hl Hk Hsel Hspare. unfold mc_tree_cmd_rescan.
  destruct vfs_get_raw_current_dir as [cwd|]; [|by exists ts].
  rewrite Hsel. destruct (linked_deref ts l Hl k p Hk) as (s & -> & Hs & _).
  rewrite bind_Done. destruct (mc_chdir (name s) =? 0); [|by exists ts].
  pose proof (Hspare s) as Hhooks.
  destruct (tree_store_rescan ts (name s)) as [hooks ts']. cbn [fst] in Hhooks.
  rewrite (run_remove_hooks_other hooks t p Hsel) by (intros h; by apply Hhooks).
  by exists ts'.
Qed.

(** The test of [tree_move_to_child] on the record after the selection. *)
Lemma is_child_deeper ts l k p q :
  linked ts l → l !! k = Some p → l !! S k = Some q → depth ts p < depth ts q →
  is_child ts (Some p) (l !! S k) = Done true.
Proof.
  intros Hl Hk Hq Hdeep. rewrite (is_child_spec ts l k p Hl Hk), Hq.
  by rewrite (proj2 (Z.gtb_gt (depth ts q) (depth ts p))) by lia.
Qed.

Lemma is_child_not_deeper ts l k p :
  linked ts l → l !! k = Some p →
  (∀ q, l !! S k = Some q → depth ts q ≤ depth ts p) →
  is_child ts (Some p) (l !! S k) = Done false.
Proof.
  intros Hl Hk Hflat. rewrite (is_child_spec ts l k p Hl Hk).
  destruct (l !! S k) as [q|]; [|done]. f_equal.
  pose proof (Hflat q eq_refl). destruct (Z.gtb_spec (depth ts q) (depth ts p)); [lia|done].
Qed.

(** C3, as the code has it: [tree_move_to_child] selects the record
    after the selection, and increments [topdiff], when the depth of that
    record is greater than the depth of the selection, by one level or by
    more, and then raises no event.  Otherwise it raises exactly one
    "rescan" event, and a rescan that does not remove the selected record
    leaves the view as it is; the same test is then made once more on the
    store the rescan left: the record after the selection is selected if
    it is deeper, and otherwise the view, and so the selection, is
    unchanged.  On a pre-order store, where a record is at most one level
    deeper than the one before it, deeper means exactly one level
    deeper. *)
Theorem tree_move_to_child_tests_deeper (ts : TreeStore) (l : list positive) (g : Globals)
    (t : WTree) (k : nat) (p : positive) :
  linked ts l → l !! k = Some p → selected_ptr t = Some p →
  (∀ q, l !! S k = Some q → depth ts p < depth ts q →
     move_to_child ts g t =
       Done (ts, tree_check_focus g (set_topdiff (topdiff t + 1)
                                       (set_selected_ptr (Some q) t)), [])) ∧
  ((∀ q, l !! S k = Some q → depth ts q ≤ depth ts p) →
   (∀ s h, heap ts !! p = Some s → h ∈ (tree_store_rescan ts (name s)).1 → h.2 ≠ p) →
   ∃ ts1, rescan ts t = Done (ts1, t) ∧
     ∀ l1 k1, linked ts1 l1 → l1 !! k1 = Some p →
       ∃ t', move_to_child ts g t = Done (ts1, t', [EvRescan]) ∧
             (∀ q1, l1 !! S k1 = Some q1 → depth ts1 p < depth ts1 q1 →
                t' = tree_check_focus g (set_topdiff (topdiff t + 1)
                                           (set_selected_ptr (Some q1) t))) ∧
             ((∀ q1, l1 !! S k1 = Some q1 → depth ts1 q1 ≤ depth ts1 p) → t' = t)) ∧
  (pre_order ts l →
   ∀ q, l !! S k = Some q → depth ts p < depth ts q ↔ depth ts q = depth ts p + 1).
Proof.
  intros Hl Hk Hsel. split; [|split].
  - intros q Hq Hdeep. unfold tree_move_to_child. rewrite Hsel.
    destruct (linked_deref ts l Hl k p Hk) as (s & -> & _ & Hnx & _).
    by rewrite bind_Done, Hnx, (is_child_deeper ts l k p q Hl Hk Hq Hdeep), bind_Done, Hq.
  - intros Hflat Hspare.
    destruct (rescan_spares_view ts l t k p Hl Hk Hsel Hspare) as (ts1 & Hres).
    exists ts1. split; [exact Hres|]. intros l1 k1 Hl1 Hk1.
    unfold tree_move_to_child. rewrite Hsel.
    destruct (linked_deref ts l Hl k p Hk) as (s & -> & _ & Hnx & _).
    rewrite bind_Done, Hnx, (is_child_not_deeper ts l k p Hl Hk Hflat), bind_Done.
    rewrite Hres, bind_Done. cbn beta iota. rewrite Hsel.
    destruct (linked_deref ts1 l1 Hl1 k1 p Hk1) as (s1 & -> & _ & Hnx1 & _).
    rewrite bind_Done, Hnx1.
    destruct (l1 !! S k1) as [q1|] eqn:Hq1.
    + destruct (Z.lt_ge_cases (depth ts1 p) (depth ts1 q1)) as [Hdeep|Hnot].
      * pose proof (is_child_deeper ts1 l1 k1 p q1 Hl1 Hk1 Hq1 Hdeep) as Htest.
        rewrite Hq1 in Htest. rewrite Htest, bind_Done.
        eexists. split; [reflexivity|]. split; [by intros ? [= <-]|].
        intros Hno. pose proof (Hno q1 eq_refl). lia.
      * pose proof (is_child_not_deeper ts1 l1 k1 p Hl1 Hk1) as Htest.
        rewrite Hq1 in Htest. rewrite Htest, bind_Done.
        { eexists. split; [reflexivity|]. split; [|done]. intros ? [= <-]. lia. }
        intros ? [= <-]. lia.
    + pose proof (is_child_not_deeper ts1 l1 k1 p Hl1 Hk1) as Htest.
      rewrite Hq1 in Htest. rewrite Htest, bind_Done by done.
      eexists. split; [reflexivity|]. split; [by intros ? [=]|done].
  - intros Hpre q Hq. pose proof (Hpre k p q Hk Hq). lia.
Qed.

(** *** Sequences of navigation commands *)

Lemma selects_after_focus l g t q d :
  q ∈ l → selects l (tree_check_focus g (set_topdiff d (set_selected_ptr (Some q) t))).
Proof. intros Hq. exists q. by rewrite selected_check_focus. Qed.

Lemma child_retry_valid ts1 t1 g :
  valid ts1 t1 →
  ∃ t', (s1 ← deref ts1 (selected_ptr t1);
         b1 ← is_child ts1 (selected_ptr t1) (next s1);
         if (b1 : bool) then
           mret (ts1, tree_check_focus g (set_topdiff (topdiff t1 + 1)
                                            (set_selected_ptr (next s1) t1)), [EvRescan])
         else mret (ts1, t1, [EvRescan])) = Done (ts1, t', [EvRescan]) ∧
        valid ts1 t'.
Proof.
  intros (l1 & Hl1 & p1 & Hsel1 & [k1 Hk1]%list_elem_of_lookup).
  rewrite Hsel1.
  destruct (linked_deref ts1 l1 Hl1 k1 p1 Hk1) as (s1 & -> & _ & Hnx & _).
  rewrite bind_Done, Hnx, (is_child_spec ts1 l1 k1 p1 Hl1 Hk1), bind_Done.
  destruct (l1 !! S k1) as [q|] eqn:Hq; [destruct (depth ts1 q >? depth ts1 p1)|].
  - eexists. split; [reflexivity|]. exists l1. split; [done|].
    apply selects_after_focus. by eapply list_elem_of_lookup_2.
  - eexists. split; [reflexivity|]. exists l1. split; [done| exists p1].
    split; [done|]. by eapply list_elem_of_lookup_2.
  - eexists. split; [reflexivity|]. exists l1. split; [done| exists p1].
    split; [done|]. by eapply list_elem_of_lookup_2.
Qed.

Section HookProtocol.
(** The hook protocol of the store. *)
Hypothesis store_protocol : rescan_protocol tree_store_rescan.

(** Each removal hook leaves the selection on a record that stays. *)
Lemma remove_callback_keeps_selection ts l k e t :
  linked ts l → l !! k = Some e → (1 < length l)%nat → selects l t →
  ∃ q, remove_callback ts (Some e) t = Done (set_selected_ptr (Some q) t) ∧
       q ∈ delete k l.
Proof.
  intros Hl Hk Hlen (p & Hp & [j Hj]%list_elem_of_lookup).
  pose proof (lookup_lt_Some _ _ _ Hk) as Hklt.
  unfold remove_callback. rewrite Hp.
  destruct (decide (p = e)) as [->|Hne].
  - rewrite ptr_eqb_refl.
    destruct (linked_deref ts l Hl k e Hk) as (s & -> & _ & Hnx & Hpv).
    rewrite bind_Done, Hnx, Hpv.
    destruct (l !! S k) as [q|] eqn:Hq.
    + exists q. split; [done|]. apply list_elem_of_lookup. exists k.
      by rewrite list_lookup_delete_ge by lia.
    + apply lookup_ge_None in Hq.
      destruct k as [|k]; [lia|]. cbn [before].
      destruct (lookup_lt_is_Some_2 l k) as [q Hq']; [lia|]. rewrite Hq'.
      exists q. split; [done|]. apply list_elem_of_lookup. exists k.
      by rewrite list_lookup_delete_lt by lia.
  - rewrite ptr_eqb_ne by congruence.
    exists p. split; [by rewrite <- Hp, set_selected_ptr_same|].
    assert (j ≠ k) by (intros ->; congruence).
    apply list_elem_of_lookup.
    destruct (decide (j < k)%nat).
    + exists j. by rewrite list_lookup_delete_lt by lia.
    + exists (pred j). rewrite list_lookup_delete_ge by lia.
      by replace (S (pred j)) with j by lia.
Qed.

Lemma run_remove_hooks_keeps_selection l hooks l' t :
  removals l hooks l' → selects l t →
  ∃ t', run_remove_hooks hooks t = Done t' ∧ selects l' t'.
Proof.
  intros Hrem. revert t.
  induction Hrem as [l|l ts k e rest l' Hl Hk Hlen Hrem IH]; intros t Hsel.
  - by exists t.
  - cbn [run_remove_hooks].
    destruct (remove_callback_keeps_selection ts l k e t Hl Hk Hlen Hsel) as (q & -> & Hq).
    rewrite bind_Done. apply IH. by exists q.
Qed.

(** So a rescan returns, leaves a linked store, and leaves the selection
    on one of its records. *)
Lemma rescan_valid ts t :
  valid ts t → ∃ ts' t', rescan ts t = Done (ts', t') ∧ valid ts' t'.
Proof using store_protocol.
  intros Hv. pose proof Hv as (l & Hl & Hsel).
  pose proof Hsel as (p & Hp & [k Hk]%list_elem_of_lookup).
  unfold mc_tree_cmd_rescan.
  destruct vfs_get_raw_current_dir as [cwd|]; [|by eauto].
  rewrite Hp. destruct (linked_deref ts l Hl k p Hk) as (s & -> & _).
  rewrite bind_Done. destruct (mc_chdir (name s) =? 0); [|by eauto].
  destruct (store_protocol ts l (name s) Hl) as (l_mid & l' & Hrem & Hl' & Hsub).
  destruct (tree_store_rescan ts (name s)) as [hooks ts']. cbn [fst snd] in *.
  destruct (run_remove_hooks_keeps_selection l hooks l_mid t Hrem Hsel)
    as (t' & -> & q & Hq & Hin).
  rewrite bind_Done. eexists _, _. split; [reflexivity|].
  exists l'. split; [done|]. exists q. split; [done|]. by apply Hsub.
Qed.

Lemma tree_move_to_child_valid ts g t :
  valid ts t →
  ∃ ts' t' evs, move_to_child ts g t = Done (ts', t', evs) ∧ valid ts' t'.
Proof using store_protocol.
  intros Hv. pose proof Hv as (l & Hl & p & Hsel & [k Hk]%list_elem_of_lookup).
  unfold tree_move_to_child. rewrite Hsel.
  destruct (linked_deref ts l Hl k p Hk) as (s & -> & _ & Hnx & _).
  rewrite bind_Done, Hnx, (is_child_spec ts l k p Hl Hk), bind_Done.
  destruct (l !! S k) as [q|] eqn:Hq; [destruct (depth ts q >? depth ts p)|].
  - eexists _, _, _. split; [reflexivity|]. exists l. split; [done|].
    apply selects_after_focus. by eapply list_elem_of_lookup_2.
  - destruct (rescan_valid ts t Hv) as (ts1 & t1 & -> & Hv1). rewrite bind_Done.
    destruct (child_retry_valid ts1 t1 g Hv1) as (t' & -> & Hv'). eauto.
  - destruct (rescan_valid ts t Hv) as (ts1 & t1 & -> & Hv1). rewrite bind_Done.
    destruct (child_retry_valid ts1 t1 g Hv1) as (t' & -> & Hv'). eauto.
Qed.

Lemma run_op_valid ts t c :
  valid ts t →
  ∃ ts' t', run_op vfs_get_raw_current_dir mc_chdir tree_store_rescan ts t c
              = Done (ts', t') ∧ valid ts' t'.
Proof using store_protocol.
  intros Hv. pose proof Hv as (l & Hl & Hsel). destruct c as [g op].
  pose proof Hsel as (p & Hp & [k Hk]%list_elem_of_lookup).
  pose proof (lookup_lt_Some _ _ _ Hk) as Hlen.
  destruct op as [i|i| | | |]; unfold run_op.
  - destruct (tree_move_forward_selects ts l Hl g t i Hsel) as (q & d & -> & Hq).
    rewrite bind_Done. eexists _, _. split; [reflexivity|].
    exists l. split; [done|]. by apply selects_after_focus.
  - destruct (tree_move_backward_selects ts l Hl g t i Hsel) as (q & d & -> & Hq).
    rewrite bind_Done. eexists _, _. split; [reflexivity|].
    exists l. split; [done|]. by apply selects_after_focus.
  - rewrite (tree_move_to_parent_spec ts l Hl g t k p Hk Hp), bind_Done.
    eexists _, _. split; [reflexivity|]. exists l. split; [done|].
    pose proof (skipped_le ts l (depth ts p) k).
    destruct (lookup_lt_is_Some_2 l (k - skipped ts (depth ts p) l k - 1)%nat)
      as [q Hq]; [lia|].
    rewrite Hq. apply selects_after_focus. by eapply list_elem_of_lookup_2.
  - destruct (tree_move_to_child_valid ts g t Hv) as (ts' & t' & evs & -> & Hv').
    rewrite bind_Done. eauto.
  - eexists _, _. split; [reflexivity|]. exists l. split; [done|].
    destruct (lookup_lt_is_Some_2 l 0%nat) as [q Hq]; [lia|].
    exists q. split; [|by eapply list_elem_of_lookup_2].
    unfold tree_move_to_top. cbn [set_topdiff set_selected_ptr selected_ptr].
    by rewrite (linked_first ts l Hl).
  - eexists _, _. split; [reflexivity|]. exists l. split; [done|].
    destruct (lookup_lt_is_Some_2 l (pred (length l))) as [q Hq]; [lia|].
    exists q. split; [|by eapply list_elem_of_lookup_2].
    unfold tree_move_to_bottom. cbn [set_topdiff set_selected_ptr selected_ptr].
    by rewrite (linked_last ts l Hl).
Qed.

Lemma run_ops_valid cs ts t :
  valid ts t → ∃ ts' t', run ts t cs = Done (ts', t') ∧ valid ts' t'.
Proof using store_protocol.
  revert ts t. induction cs as [|c cs IH]; intros ts t Hv.
  - eexists _, _. split; [reflexivity|done].
  - cbn [run_ops]. destruct (run_op_valid ts t c Hv) as (ts1 & t1 & -> & Hv1).
    rewrite bind_Done. by apply IH.
Qed.
End HookProtocol.

(** C1: starting from a view that selects a record of a linked store,
    every sequence of movements forward and backward, to the parent, to
    the child, to the top and to the bottom returns, and leaves a view
    whose selection is not null and is a record of the store.  The rescan
    that [tree_move_to_child] may trigger is the store's; it is taken to
    follow the hook protocol. *)
Theorem selection_stays_in_store (cs : list (Globals * nav_op)) (ts : TreeStore) (t : WTree) :
  rescan_protocol tree_store_rescan →
  valid ts t →
  ∃ ts' t', run ts t cs = Done (ts', t') ∧
            ∃ l p, linked ts' l ∧ selected_ptr t' = Some p ∧ p ∈ l.
Proof.
  intros Hres Hv.
  destruct (run_ops_valid Hres cs ts t Hv) as (ts' & t' & Hrun & l & Hl & p & Hp & Hin).
  eauto 10.
Qed.

(** *** Drawing and the search keys *)

Local Abbreviation show :=
  (show_tree PATH_SEP vfs_path_equal vfs_path_equal_len vfs_path_len).
Local Abbreviation do_search :=
  (tree_do_search KEY_BACKSPACE MC_MAXFILENAMELEN PATH_SEP
     vfs_path_equal vfs_path_equal_len vfs_path_len is_idle change_panel do_cd).

Lemma show_tree_top_loop_eq ts fuel sel current i td :
  show_tree_top_loop PATH_SEP vfs_path_equal vfs_path_equal_len vfs_path_len
    ts fuel sel current i td =
  (c ← deref ts current;
   match prev c with
   | None => Done i
   | Some _ =>
       if i <? td then
         match fuel with
         | O => OutOfFuel
         | S fuel' =>
             p ← deref ts (prev c);
             s ← deref ts sel;
             if sublevel p <? sublevel s then
               show_tree_top_loop PATH_SEP vfs_path_equal vfs_path_equal_len vfs_path_len
                 ts fuel' sel (prev c)
                 (if vfs_path_equal (name p) (name s) then i + 1 else i) td
             else if sublevel p =? sublevel s then
               match last_sep PATH_SEP (name p) 0 None with
               | None => Fault
               | Some j =>
                   show_tree_top_loop PATH_SEP vfs_path_equal vfs_path_equal_len vfs_path_len
                     ts fuel' sel (prev c)
                     (if vfs_path_equal_len (name p) (name s) j then i + 1 else i) td
               end
             else
               show_tree_top_loop PATH_SEP vfs_path_equal vfs_path_equal_len vfs_path_len
                 ts fuel' sel (prev c)
                 (if (sublevel p =? sublevel s + 1) && (vfs_path_len (name s) >? 1)
                     && vfs_path_equal_len (name p) (name s) (vfs_path_len (name s))
                  then i + 1 else i) td
         end
       else Done i
   end).
Proof. destruct fuel; reflexivity. Qed.

Lemma show_tree_top_loop_done ts l fuel ks ps kc pc i td :
  linked ts l → paths_wf PATH_SEP ts l →
  l !! ks = Some ps → l !! kc = Some pc → (kc ≤ fuel)%nat →
  ∃ i', show_tree_top_loop PATH_SEP vfs_path_equal vfs_path_equal_len vfs_path_len
          ts fuel (Some ps) (Some pc) i td = Done i'.
Proof.
  intros Hl Hwf Hs. revert kc pc i.
  induction fuel as [|fuel IH]; intros kc pc i Hc Hfuel;
    rewrite show_tree_top_loop_eq;
    destruct (linked_deref ts l Hl kc pc Hc) as (c & -> & _ & _ & Hpv);
    rewrite bind_Done, Hpv;
    (destruct kc as [|kc]; cbn [before]; [by eauto|]); [lia|].
  pose proof (lookup_lt_Some _ _ _ Hc).
  destruct (lookup_lt_is_Some_2 l kc) as [q Hq]; [lia|]. rewrite Hq.
  destruct (i <? td); [|by eauto].
  destruct (linked_deref ts l Hl kc q Hq) as (n & -> & Hn & _).
  destruct (linked_deref ts l Hl ks ps Hs) as (s & -> & _).
  rewrite !bind_Done.
  destruct (sublevel n <? sublevel s); [apply (IH kc q); [done|lia]|].
  destruct (sublevel n =? sublevel s); [|apply (IH kc q); [done|lia]].
  destruct (Hwf q n) as [j ->]; [by eapply list_elem_of_lookup_2|done|].
  apply (IH kc q); [done|lia].
Qed.

Lemma set_topdiff_same t : set_topdiff (topdiff t) t = t.
Proof. by destruct t. Qed.

(** On a linked store with a selection, drawing returns and changes
    nothing but [topdiff]. *)
Lemma show_tree_done ts l g t :
  linked ts l → selects l t →
  (tree_navigation_flag g = true → paths_wf PATH_SEP ts l) →
  0 ≤ tlines g t →
  ∃ td, show ts g t = Done (set_topdiff td t).
Proof.
  intros Hl (p & Hsel & [k Hk]%list_elem_of_lookup) Hwf Hrows.
  pose proof (lookup_lt_Some _ _ _ Hk) as Hlen.
  unfold show_tree. rewrite (proj2 (Z.ltb_ge (tlines g t) 0)) by done.
  rewrite (linked_first ts l Hl).
  destruct (lookup_lt_is_Some_2 l 0%nat) as [f Hf]; [lia|]. rewrite Hf.
  destruct (linked_deref ts l Hl 0%nat f Hf) as (ef & -> & _).
  rewrite !bind_Done, Hsel.
  assert (∃ td, (if negb (tree_navigation_flag g)
                 then '(_, td) ← back_ptr ts (selected_ptr t) (topdiff t); mret td
                 else show_tree_top_loop PATH_SEP vfs_path_equal vfs_path_equal_len
                        vfs_path_len ts (store_fuel ts) (selected_ptr t) (selected_ptr t)
                        0 (topdiff t)) = Done td) as [td ->].
  { rewrite Hsel. destruct (tree_navigation_flag g); cbn [negb].
    - apply (show_tree_top_loop_done ts l _ k p k p); [done|by apply Hwf|done..|].
      pose proof (linked_fuel ts l Hl). lia.
    - rewrite (back_ptr_spec ts l Hl k p (topdiff t) Hk), bind_Done. eauto. }
  rewrite bind_Done. exists td.
  destruct (is_panel (set_topdiff td t) && negb (show_mini_info g)); [done|].
  destruct (searching (set_topdiff td t)); [done|].
  cbn [set_topdiff selected_ptr]. rewrite Hsel.
  destruct (linked_deref ts l Hl k p Hk) as (e & -> & _). done.
Qed.

Lemma same_selection_refl t : same_selection t t.
Proof. by repeat split. Qed.

Lemma same_selection_trans t1 t2 t3 :
  same_selection t1 t2 → same_selection t2 t3 → same_selection t1 t3.
Proof. intros (? & ? & ? & ?) (? & ? & ? & ?). repeat split; congruence. Qed.

Lemma same_selection_tlines g t t' : same_selection t t' → tlines g t' = tlines g t.
Proof. intros (_ & _ & Hlines & Hpanel). unfold tlines. by rewrite Hlines, Hpanel. Qed.

Lemma same_selection_selects l t t' : same_selection t t' → selects l t → selects l t'.
Proof. intros (Hsel & _) (p & Hp & Hin). exists p. by rewrite Hsel. Qed.

(** With collaborators that return and leave the selection alone, the
    "enter" handler returns and leaves it alone. *)
Lemma mc_tree_cmd_enter_frame ts l g t :
  leaves_selection change_panel do_cd →
  linked ts l → selects l t →
  (tree_navigation_flag g = true → paths_wf PATH_SEP ts l) →
  0 ≤ tlines g t →
  ∃ t', mc_tree_cmd_enter PATH_SEP vfs_path_equal vfs_path_equal_len vfs_path_len
          change_panel do_cd ts g t = Done t' ∧ same_selection t t'.
Proof.
  intros [Hchange Hcd] Hl Hsel Hwf Hrows. unfold mc_tree_cmd_enter.
  destruct (is_panel t); [|exists t; split; [done|apply same_selection_refl]].
  destruct (Hchange ts g t) as (t1 & -> & H1). rewrite bind_Done.
  pose proof (same_selection_selects l t t1 H1 Hsel) as (p & Hp & [k Hk]%list_elem_of_lookup).
  rewrite Hp. destruct (linked_deref ts l Hl k p Hk) as (e & -> & _). rewrite bind_Done.
  destruct (Hcd ts g t1 (name e)) as (t2 & -> & H2). rewrite bind_Done.
  destruct (Hchange ts g t2) as (t3 & -> & H3). rewrite bind_Done.
  pose proof (same_selection_trans _ _ _ H1 (same_selection_trans _ _ _ H2 H3)) as H13.
  destruct (show_tree_done ts l g t3 Hl) as (td & ->);
    [by eapply same_selection_selects|done| |].
  { by rewrite (same_selection_tlines g t t3 H13). }
  exists (set_topdiff td t3). split; [done|].
  eapply same_selection_trans; [exact H13|by repeat split].
Qed.

Lemma maybe_chdir_frame ts l g t :
  leaves_selection change_panel do_cd →
  linked ts l → selects l t →
  (tree_navigation_flag g = true → paths_wf PATH_SEP ts l) →
  0 ≤ tlines g t →
  ∃ t' evs, maybe_chdir PATH_SEP vfs_path_equal vfs_path_equal_len vfs_path_len is_idle
              change_panel do_cd ts g t = Done (t', evs) ∧
            same_selection t t' ∧ (evs = [] ∧ t' = t ∨ evs = [EvEnter]) ∧
            (xtree_mode g && is_panel t && is_idle = false → t' = t ∧ evs = []).
Proof.
  intros Hpanels Hl Hsel Hwf Hrows. unfold maybe_chdir.
  destruct (xtree_mode g && is_panel t && is_idle).
  - destruct (mc_tree_cmd_enter_frame ts l g t Hpanels Hl Hsel Hwf Hrows) as (t' & -> & Hsame).
    rewrite bind_Done. exists t', [EvEnter]. split; [done|]. split; [done|].
    split; [by right|done].
  - exists t, []. split; [done|]. split; [apply same_selection_refl|]. split; [by left|done].
Qed.

Lemma truncate_app s s' : truncate (String.length s) (s ++ s') = s.
Proof. induction s as [|c s IH]; simpl; [by destruct s'|by rewrite IH]. Qed.

Lemma strlen_app s s' : strlen (s ++ s') = strlen s + strlen s'.
Proof.
  unfold strlen. rewrite <- Nat2Z.inj_add. f_equal.
  induction s as [|c s IH]; simpl; [done|by rewrite IH].
Qed.

Lemma char_of_key_nonzero key : printable key → char_of_key key ≠ zero.
Proof.
  intros [Hlo Hhi] Hz. unfold char_of_key in Hz.
  rewrite Z.mod_small in Hz by lia.
  apply (f_equal N_of_ascii) in Hz.
  rewrite N_ascii_embedding in Hz by lia. simpl in Hz. lia.
Qed.

Lemma append_char_nonzero s c : c ≠ zero → append_char s c = (s ++ String c EmptyString)%string.
Proof.
  intros Hc. unfold append_char. by destruct (Ascii.eqb_spec c zero).
Qed.

Lemma nul_free_app s s' : nul_free s → nul_free s' → nul_free (s ++ s').
Proof. induction s as [|c s IH]; simpl; [done|]. intros [? ?] ?. auto. Qed.

Lemma edit_search_buffer_append buf key :
  printable key → key ≠ KEY_BACKSPACE → strlen buf + 1 < MC_MAXFILENAMELEN →
  edit_search_buffer KEY_BACKSPACE MC_MAXFILENAMELEN buf key =
    Done ((buf ++ String (char_of_key key) EmptyString)%string, strlen buf + 1).
Proof.
  intros Hkey Hbs Hlen. unfold edit_search_buffer.
  pose proof Hkey as [Hlo Hhi].
  rewrite (proj2 (Z.eqb_neq key KEY_BACKSPACE)) by done.
  rewrite andb_false_r.
  rewrite (proj2 (Z.eqb_neq key 0)) by lia.
  rewrite (proj2 (Z.ltb_lt (strlen buf) MC_MAXFILENAMELEN)) by lia.
  rewrite (proj2 (Z.ltb_lt (strlen buf + 1) MC_MAXFILENAMELEN)) by lia.
  cbn [negb andb]. by rewrite append_char_nonzero by by apply char_of_key_nonzero.
Qed.

(** A buffer that holds [MC_MAXFILENAMELEN - 1] characters does not take
    one more: the terminator would be written past the end of the array. *)
Remark edit_search_buffer_full buf key :
  printable key → key ≠ KEY_BACKSPACE → strlen buf + 1 = MC_MAXFILENAMELEN →
  edit_search_buffer KEY_BACKSPACE MC_MAXFILENAMELEN buf key = Fault.
Proof.
  intros [Hlo Hhi] Hbs Hlen. unfold edit_search_buffer.
  rewrite (proj2 (Z.eqb_neq key KEY_BACKSPACE)) by done.
  rewrite andb_false_r.
  rewrite (proj2 (Z.eqb_neq key 0)) by lia.
  rewrite (proj2 (Z.ltb_lt (strlen buf) MC_MAXFILENAMELEN)) by lia.
  rewrite (proj2 (Z.ltb_ge (strlen buf + 1) MC_MAXFILENAMELEN)) by lia.
  reflexivity.
Qed.

(** C5, as the code has it: when a printable key is typed, the buffer
    has room for it, and no display name of the store starts with the
    buffer extended by the key, [tree_do_search] returns with the buffer
    as it was before the key and with the same selection.  The window has
    no negative number of rows, so that it can be redrawn, and the
    collaborators that act on the other panel return and leave the
    selection and the buffer alone. *)
Theorem tree_do_search_rolls_back (ts : TreeStore) (l : list positive) (g : Globals)
    (t : WTree) (key : Z) :
  leaves_selection change_panel do_cd →
  linked ts l → selects l t →
  (tree_navigation_flag g = true → paths_wf PATH_SEP ts l) →
  0 ≤ tlines g t →
  nul_free (search_buffer t) →
  printable key → key ≠ KEY_BACKSPACE →
  strlen (search_buffer t) + 1 < MC_MAXFILENAMELEN →
  (∀ q, q ∈ l →
     ¬ prefix_match ts (search_buffer t ++ String (char_of_key key) EmptyString) q) →
  ∃ t' evs, do_search ts g t key = Done (t', evs) ∧
            search_buffer t' = search_buffer t ∧
            selected_ptr t' = selected_ptr t.
Proof.
  intros Hpanels Hl Hsel Hwf Hrows Hnul Hkey Hbs Hlen Hnone.
  pose proof Hsel as (p & Hp & Hin).
  unfold tree_do_search.
  rewrite (edit_search_buffer_append _ key Hkey Hbs Hlen), bind_Done. cbn beta iota.
  set (buf := (search_buffer t ++ String (char_of_key key) EmptyString)%string) in *.
  rewrite (search_tree_no_match ts l g (set_search_buffer buf t) buf p Hl Hin Hp); first last.
  { done. }
  { apply nul_free_app; [done|]. split; [by apply char_of_key_nonzero|done]. }
  rewrite bind_Done. cbn beta iota.
  assert ((strlen (search_buffer t) + 1 =? 0) = false) as ->.
  { apply Z.eqb_neq. unfold strlen. lia. }
  rewrite bind_Done, buffer_check_focus.
  cbn [set_topdiff set_search_buffer search_buffer].
  replace (Z.to_nat (strlen (search_buffer t) + 1 - 1)) with (String.length (search_buffer t))
    by (unfold strlen; lia).
  unfold buf at 1. rewrite truncate_app.
  match goal with |- context [show ts g ?t2] => set (t2' := t2) end.
  assert (selected_ptr t2' = selected_ptr t) as Hsel2
    by (unfold t2'; cbn [set_search_buffer selected_ptr]; by rewrite selected_check_focus).
  assert (search_buffer t2' = search_buffer t) as Hbuf2 by reflexivity.
  assert (selects l t2') as Hsels2 by (exists p; by rewrite Hsel2).
  assert (tlines g t2' = tlines g t) as Hrows2.
  { unfold t2'.
    match goal with
    | |- tlines g (set_search_buffer _ ?x) = _ => transitivity (tlines g x); [reflexivity|]
    end.
    by rewrite tlines_check_focus. }
  destruct (show_tree_done ts l g t2' Hl Hsels2 Hwf) as (td & ->); [lia|].
  rewrite bind_Done.
  destruct (maybe_chdir_frame ts l g (set_topdiff td t2') Hpanels Hl)
    as (t' & evs & -> & (Hsel' & Hbuf' & _) & _);
    [by exists p; cbn [set_topdiff selected_ptr]; rewrite Hsel2|done| |].
  { change (tlines g (set_topdiff td t2')) with (tlines g t2'). lia. }
  exists t', evs. split; [reflexivity|].
  split; [by rewrite Hbuf'|by rewrite Hsel'].
Qed.
End WithCollaborators.

(** ** The scroll bound (C2) *)

(** [tree_move_to_top] resets [topdiff] to 0 although a record is
    selected. *)
Lemma tree_move_to_top_breaks_scroll_bound :
  scroll_bounded flat_mode (view_at 3 10) ∧
  selected_ptr (tree_move_to_top store4 (view_at 3 10)) = Some 1%positive ∧
  topdiff (tree_move_to_top store4 (view_at 3 10)) = 0 ∧
  ¬ scroll_bounded flat_mode (tree_move_to_top store4 (view_at 3 10)).
Proof.
  split; [by vm_compute|]. split; [reflexivity|]. split; [reflexivity|].
  unfold scroll_bounded. simpl. lia.
Qed.

Lemma scroll_bounded_check_focus g t :
  7 ≤ tlines g t → scroll_bounded g (tree_check_focus g t).
Proof. apply check_focus_bounds. Qed.

(** C2, as the code has it: with at least 7 visible rows, the bound
    [3 ≤ topdiff ≤ tlines - 4] holds after the operations that end with
    the focus correction (moving forward or backward, moving to the
    parent, the search scan, moving to a child that is there without a
    rescan) and after [tree_move_to_bottom]. *)
Theorem scroll_bounded_after_focus_correction (ts : TreeStore) (l : list positive)
    (g : Globals) (t : WTree) :
  linked ts l → selects l t → 7 ≤ tlines g t →
  (∀ i, ∃ t', tree_move_forward ts g t i = Done t' ∧ scroll_bounded g t') ∧
  (∀ i, ∃ t', tree_move_backward ts g t i = Done t' ∧ scroll_bounded g t') ∧
  (∃ t' b, tree_move_to_parent ts g t = Done (t', b) ∧ scroll_bounded g t') ∧
  (∀ text, ∃ t' found, search_tree ts g t text = Done (t', found) ∧ scroll_bounded g t') ∧
  (∀ cwd chdir store_rescan k p q,
     l !! k = Some p → selected_ptr t = Some p →
     l !! S k = Some q → depth ts p < depth ts q →
     ∃ t', tree_move_to_child cwd chdir store_rescan ts g t = Done (ts, t', []) ∧
           selected_ptr t' = Some q ∧ scroll_bounded g t') ∧
  scroll_bounded g (tree_move_to_bottom ts g t).
Proof.
  intros Hl Hsel Hrows. split; [|split; [|split; [|split; [|split]]]].
  - intros i. destruct (tree_move_forward_selects ts l Hl g t i Hsel) as (q & d & -> & _).
    eexists. split; [reflexivity|]. by apply scroll_bounded_check_focus.
  - intros i. destruct (tree_move_backward_selects ts l Hl g t i Hsel) as (q & d & -> & _).
    eexists. split; [reflexivity|]. by apply scroll_bounded_check_focus.
  - destruct Hsel as (p & Hp & [k Hk]%list_elem_of_lookup).
    rewrite (tree_move_to_parent_spec ts l Hl g t k p Hk Hp).
    eexists _, _. split; [reflexivity|]. by apply scroll_bounded_check_focus.
  - intros text. destruct Hsel as (p & Hp & [k Hk]%list_elem_of_lookup).
    rewrite (search_tree_scan ts l Hl text k p Hk g t Hp).
    destruct (list_find _ _) as [[j q]|]; eexists _, _;
      (split; [reflexivity|]); by apply scroll_bounded_check_focus.
  - intros cwd chdir store_rescan k p q Hk Hp Hq Hdeep.
    unfold tree_move_to_child. rewrite Hp.
    destruct (linked_deref ts l Hl k p Hk) as (s & -> & _ & Hnx & _).
    rewrite bind_Done, Hnx, (is_child_spec ts l k p Hl Hk), Hq, bind_Done.
    rewrite (proj2 (Z.gtb_gt (depth ts q) (depth ts p))) by lia.
    eexists. split; [reflexivity|]. split; [by rewrite selected_check_focus|].
    by apply scroll_bounded_check_focus.
  - unfold scroll_bounded, tree_move_to_bottom. simpl.
    change (tlines g _) with (tlines g t). lia.
Qed.

Lemma scroll_bounded_after_focus_correction_witness :
  ∃ t', tree_move_backward store4 flat_mode (view_at 3 3) 2 = Done t' ∧
        scroll_bounded flat_mode t'.
Proof.
  refine (proj1 (proj2 (scroll_bounded_after_focus_correction store4 [1; 2; 3; 4]%positive
                          flat_mode (view_at 3 3) linked_store4 _ _)) 2).
  - exists 3%positive. split; [reflexivity|]. by apply (bool_decide_unpack _).
  - vm_compute. discriminate.
Defined.

(** ** The theorems on the example stores *)

(** A removal announced while the removed record is selected: /b/y goes,
    and the selection moves to its [prev], /b. *)
Example hook_reseats_on_removal :
  removals [1; 2; 3; 4; 5]%positive [(store5, 5%positive)] [1; 2; 3; 4]%positive ∧
  ∃ t', run_remove_hooks [(store5, 5%positive)] (view_at 5 10) = Done t' ∧
        selected_ptr t' = Some 4%positive.
Proof.
  split.
  - apply (removals_cons _ store5 4 5%positive);
      [apply linked_store5|reflexivity|simpl; lia|constructor].
  - eexists. split; [by vm_compute|reflexivity].
Qed.

Lemma tree_move_to_child_tests_deeper_witness :
  ∃ t', Sample.tree_move_to_child store4 hierarchical_mode (view_at 4 10)
          = Done (store5, t', [EvRescan]) ∧
        selected_ptr t' = Some 5%positive.
Proof.
  destruct (tree_move_to_child_tests_deeper (Some "/"%string) (λ _, 0) Sample.tree_store_rescan
              store4 [1; 2; 3; 4]%positive hierarchical_mode (view_at 4 10) 3 4%positive
              linked_store4 eq_refl eq_refl) as (_ & H & _).
  destruct H as (ts1 & Hres & Hretry).
  - intros q [=].
  - intros s h _ Hh. by apply elem_of_nil in Hh.
  - vm_compute in Hres. injection Hres as <-.
    destruct (Hretry [1; 2; 3; 4; 5]%positive 3%nat linked_store5 eq_refl)
      as (t' & Hrun & Hsome & _).
    exists t'. split; [exact Hrun|].
    rewrite (Hsome 5%positive eq_refl ltac:(by vm_compute)). reflexivity.
Defined.

(** In the store /, /a/x/y the record after / is three levels deeper than
    /, not one: [tree_move_to_child] selects it all the same, and raises
    no rescan. *)
Lemma tree_move_to_child_enters_deeper_record :
  depth store_gap 2 = depth store_gap 1 + 3 ∧
  depth store_gap 2 ≠ depth store_gap 1 + 1 ∧
  Sample.tree_move_to_child store_gap hierarchical_mode (view_at 1 10)
  = Done (store_gap,
          tree_check_focus hierarchical_mode
            (set_topdiff 11 (set_selected_ptr (Some 2%positive) (view_at 1 10))), []).
Proof. split; [reflexivity|]. split; [by vm_compute|by vm_compute]. Qed.

(** A rescan that removes the selected record itself moves the selection,
    through the removal hook: with /b/y selected and removed by the rescan,
    the selection is on /b when [tree_move_to_child] returns. *)
Example rescan_may_reseat_selection :
  tree_move_to_child (Some "/"%string) (λ _, 0)
    (λ _ _, ([(store5, 5%positive)], store4))
    store5 hierarchical_mode (view_at 5 10)
  = Done (store4, set_selected_ptr (Some 4%positive) (view_at 5 10), [EvRescan]).
Proof. by vm_compute. Qed.

Lemma leaves_selection_sample : leaves_selection Sample.change_panel Sample.do_cd.
Proof.
  split.
  - intros ts g t. eexists. split; [reflexivity|]. by repeat split.
  - intros ts g t dir. exists t. split; [reflexivity|]. by repeat split.
Qed.

Lemma valid_store4 p td : p ∈ [1; 2; 3; 4]%positive → valid store4 (view_at p td).
Proof. intros Hp. exists [1; 2; 3; 4]%positive. split; [apply linked_store4|]. by exists p. Qed.

Lemma rescan_protocol_nothing_new : rescan_protocol (λ ts _, ([], ts)).
Proof. intros ts l dir Hl. exists l, l. split; [constructor|done]. Qed.

Lemma selection_stays_in_store_witness :
  ∃ ts' t',
    run_ops (Some "/"%string) (λ _, 0) (λ ts _, ([], ts)) store4 (view_at 3 10)
      [ (hierarchical_mode, MoveToParent); (hierarchical_mode, MoveToChild);
        (hierarchical_mode, MoveToChild); (flat_mode, MoveForward 7);
        (hierarchical_mode, MoveBackward 1); (flat_mode, MoveToTop);
        (flat_mode, MoveToBottom) ] = Done (ts', t') ∧
    ∃ l p, linked ts' l ∧ selected_ptr t' = Some p ∧ p ∈ l.
Proof.
  apply selection_stays_in_store.
  - exact rescan_protocol_nothing_new.
  - apply valid_store4. by apply (bool_decide_unpack _).
Defined.

Lemma tree_do_search_rolls_back_witness :
  ∃ t' evs, Sample.tree_do_search store4 xtree_flat_mode (Sample.searching_panel_at 1 10) 113
              = Done (t', evs) ∧
            search_buffer t' = EmptyString ∧ selected_ptr t' = Some 1%positive.
Proof.
  apply (tree_do_search_rolls_back Sample.KEY_BACKSPACE Sample.MC_MAXFILENAMELEN
           Sample.PATH_SEP Sample.vfs_path_equal Sample.vfs_path_equal_len
           Sample.vfs_path_len Sample.is_idle Sample.change_panel Sample.do_cd
           store4 [1; 2; 3; 4]%positive xtree_flat_mode
           (Sample.searching_panel_at 1 10) 113 leaves_selection_sample linked_store4).
  - exists 1%positive. split; [reflexivity|]. by apply (bool_decide_unpack _).
  - discriminate.
  - by vm_compute.
  - exact I.
  - unfold printable. lia.
  - discriminate.
  - by vm_compute.
  - intros q Hq. each_record Hq.
Defined.

(** Typing "aqb" on the store /, /a, /ab with / selected: no display name
    starts with "aqb", and "a" is its longest prefix some name starts with;
    yet the selection ends on /ab and the buffer holds "ab". *)
Lemma typing_moves_selection_and_skips_rejected_keys :
  (∀ q, q ∈ [1; 2; 3]%positive → ¬ prefix_match store3 "aqb" q) ∧
  longest_matching_prefix store3 [1; 2; 3]%positive "aqb" = "a"%string ∧
  ∃ t', Sample.type_keys store3 flat_mode (Sample.searching_at 1 10) [97; 113; 98] = Done t' ∧
        selected_ptr t' = Some 3%positive ∧
        selected_ptr t' ≠ selected_ptr (Sample.searching_at 1 10) ∧
        search_buffer t' = "ab"%string ∧
        search_buffer t' ≠ longest_matching_prefix store3 [1; 2; 3]%positive "aqb".
Proof.
  split.
  { intros q Hq. each_record Hq. }
  split; [by vm_compute|].
  eexists. split; [by vm_compute|]. by vm_compute.
Qed.

(** * Further properties of the code *)

(** Runs through the records of a store given as a literal list, for a
    fact about the record found at each address. *)
Ltac each_record_in H He :=
  repeat (apply elem_of_cons in H as [->|H];
          [vm_compute in He; injection He as <-; vm_compute; by eexists|]);
  by apply elem_of_nil in H.

(** ** Flat movement *)

Lemma tree_move_forward_flat ts l g t k p i :
  linked ts l → l !! k = Some p → selected_ptr t = Some p →
  tree_navigation_flag g = false →
  ∃ q, l !! (k + (length l - 1 - k) `min` Z.to_nat i)%nat = Some q ∧
       tree_move_forward ts g t i =
         Done (tree_check_focus g
                 (set_topdiff (topdiff t + Z.of_nat ((length l - 1 - k) `min` Z.to_nat i))
                    (set_selected_ptr (Some q) t))).
Proof.
  intros Hl Hk Hsel Hflat. pose proof (lookup_lt_Some _ _ _ Hk) as Hlen.
  destruct (lookup_lt_is_Some_2 l (k + (length l - 1 - k) `min` Z.to_nat i)%nat)
    as [q Hq]; [lia|].
  exists q. split; [done|]. unfold tree_move_forward.
  rewrite Hflat, Hsel. cbn [negb].
  by rewrite (forw_ptr_spec ts l Hl k p i Hk), bind_Done, Hq.
Qed.

Lemma tree_move_backward_flat ts l g t k p i :
  linked ts l → l !! k = Some p → selected_ptr t = Some p →
  tree_navigation_flag g = false →
  ∃ q, l !! (k - k `min` Z.to_nat i)%nat = Some q ∧
       tree_move_backward ts g t i =
         Done (tree_check_focus g
                 (set_topdiff (topdiff t - Z.of_nat (k `min` Z.to_nat i))
                    (set_selected_ptr (Some q) t))).
Proof.
  intros Hl Hk Hsel Hflat. pose proof (lookup_lt_Some _ _ _ Hk) as Hlen.
  destruct (lookup_lt_is_Some_2 l (k - k `min` Z.to_nat i)%nat) as [q Hq]; [lia|].
  exists q. split; [done|]. unfold tree_move_backward.
  rewrite Hflat, Hsel. cbn [negb].
  by rewrite (back_ptr_spec ts l Hl k p i Hk), bind_Done, Hq.
Qed.

(** X1: in flat mode [tree_move_forward (tree, i)] moves the selection by [i]
    records, or by as many as follow it when they are fewer, and adds the
    number of records moved to [topdiff]; a count that is zero or negative
    moves nothing.  [tree_move_backward] does the same towards the start
    of the list. *)
Theorem tree_move_flat_steps (ts : TreeStore) (l : list positive) (g : Globals)
    (t : WTree) (k : nat) (p : positive) (i : Z) :
  linked ts l → l !! k = Some p → selected_ptr t = Some p →
  tree_navigation_flag g = false →
  (∃ q, l !! (k + (length l - 1 - k) `min` Z.to_nat i)%nat = Some q ∧
        tree_move_forward ts g t i =
          Done (tree_check_focus g
                  (set_topdiff (topdiff t + Z.of_nat ((length l - 1 - k) `min` Z.to_nat i))
                     (set_selected_ptr (Some q) t)))) ∧
  (∃ q, l !! (k - k `min` Z.to_nat i)%nat = Some q ∧
        tree_move_backward ts g t i =
          Done (tree_check_focus g
                  (set_topdiff (topdiff t - Z.of_nat (k `min` Z.to_nat i))
                     (set_selected_ptr (Some q) t)))).
Proof.
  intros Hl Hk Hsel Hflat. split.
  - exact (tree_move_forward_flat ts l g t k p i Hl Hk Hsel Hflat).
  - exact (tree_move_backward_flat ts l g t k p i Hl Hk Hsel Hflat).
Qed.

Lemma tree_move_flat_steps_witness :
  ∃ q, [1; 2; 3; 4]%positive !! 3%nat = Some q ∧
       tree_move_forward store4 flat_mode (view_at 2 10) 7 =
         Done (tree_check_focus flat_mode (set_topdiff (10 + 2) (set_selected_ptr (Some q) (view_at 2 10)))).
Proof.
  exact (proj1 (tree_move_flat_steps store4 [1; 2; 3; 4]%positive flat_mode (view_at 2 10)
                  1 2%positive 7 linked_store4 eq_refl eq_refl eq_refl)).
Defined.

(** X2: in flat mode, moving forward by [i] records and then backward by [i]
    brings the selection back, as long as [i] records follow it; so does
    moving backward and then forward when [i] records precede it. *)
Theorem tree_move_flat_round_trip (ts : TreeStore) (l : list positive) (g : Globals)
    (t : WTree) (k : nat) (p : positive) (i : Z) :
  linked ts l → l !! k = Some p → selected_ptr t = Some p →
  tree_navigation_flag g = false → 0 ≤ i →
  ((k + Z.to_nat i < length l)%nat →
     ∃ t1 t2, tree_move_forward ts g t i = Done t1 ∧
              tree_move_backward ts g t1 i = Done t2 ∧
              selected_ptr t2 = Some p) ∧
  ((Z.to_nat i ≤ k)%nat →
     ∃ t1 t2, tree_move_backward ts g t i = Done t1 ∧
              tree_move_forward ts g t1 i = Done t2 ∧
              selected_ptr t2 = Some p).
Proof.
  intros Hl Hk Hsel Hflat Hi. pose proof (lookup_lt_Some _ _ _ Hk) as Hlen.
  split; intros Hroom.
  - destruct (tree_move_forward_flat ts l g t k p i Hl Hk Hsel Hflat) as (q & Hq & Hf).
    replace (k + (length l - 1 - k) `min` Z.to_nat i)%nat with (k + Z.to_nat i)%nat in Hq by lia.
    set (t1 := tree_check_focus g _) in Hf.
    assert (selected_ptr t1 = Some q) as Hsel1 by (unfold t1; by rewrite selected_check_focus).
    destruct (tree_move_backward_flat ts l g t1 (k + Z.to_nat i) q i Hl Hq Hsel1 Hflat)
      as (r & Hr & Hb).
    replace (k + Z.to_nat i - (k + Z.to_nat i) `min` Z.to_nat i)%nat with k in Hr by lia.
    eexists _, _. split; [exact Hf|]. split; [exact Hb|].
    rewrite selected_check_focus. cbn. congruence.
  - destruct (tree_move_backward_flat ts l g t k p i Hl Hk Hsel Hflat) as (q & Hq & Hb).
    replace (k - k `min` Z.to_nat i)%nat with (k - Z.to_nat i)%nat in Hq by lia.
    set (t1 := tree_check_focus g _) in Hb.
    assert (selected_ptr t1 = Some q) as Hsel1 by (unfold t1; by rewrite selected_check_focus).
    destruct (tree_move_forward_flat ts l g t1 (k - Z.to_nat i) q i Hl Hq Hsel1 Hflat)
      as (r & Hr & Hf).
    replace (k - Z.to_nat i + (length l - 1 - (k - Z.to_nat i)) `min` Z.to_nat i)%nat
      with k in Hr by lia.
    eexists _, _. split; [exact Hb|]. split; [exact Hf|].
    rewrite selected_check_focus. cbn. congruence.
Qed.

Lemma tree_move_flat_round_trip_witness :
  ∃ t1 t2, tree_move_forward store4 flat_mode (view_at 2 10) 2 = Done t1 ∧
           tree_move_backward store4 flat_mode t1 2 = Done t2 ∧
           selected_ptr t2 = Some 2%positive.
Proof.
  apply (tree_move_flat_round_trip store4 [1; 2; 3; 4]%positive flat_mode (view_at 2 10)
           1 2%positive 2 linked_store4 eq_refl eq_refl eq_refl); [lia|simpl; lia].
Defined.

(** ** Movement in navigation mode *)

Section NavigationMoves.
Context (ts : TreeStore) (l : list positive) (Hl : linked ts l).

Lemma count_depth_snoc d a n :
  count_depth ts d l a (S n) =
    (count_depth ts d l a n +
       match l !! (a + n)%nat with
       | Some r => if decide (depth ts r = d) then 1 else 0
       | None => 0
       end)%nat.
Proof.
  revert a. induction n as [|n IH]; intros a.
  - replace (a + 0)%nat with a by lia. simpl. destruct (l !! a); [destruct (decide _)|]; lia.
  - change (count_depth ts d l a (S (S n))) with
      (match l !! a with
       | Some r => if decide (depth ts r = d) then 1 else 0
       | None => 0
       end + count_depth ts d l (S a) (S n))%nat.
    rewrite IH. replace (S a + n)%nat with (a + S n)%nat by lia. cbn [count_depth].
    generalize (count_depth ts d l (S a) n). intros c.
    destruct (l !! a); [destruct (decide _)|];
      (destruct (l !! (a + S n)%nat); [destruct (decide _)|]); lia.
Qed.

Lemma move_forward_loop_nav fuel ks ps kc pc j i :
  l !! ks = Some ps → l !! kc = Some pc → (ks ≤ kc)%nat →
  (∀ m r, (ks < m ≤ kc)%nat → l !! m = Some r → depth ts ps < depth ts r) →
  (length l - kc ≤ fuel)%nat →
  ∃ kq q j',
    move_forward_loop ts fuel (Some ps) (Some pc) j i = Done (Some q, j') ∧
    l !! kq = Some q ∧ (ks ≤ kq)%nat ∧ depth ts q = depth ts ps ∧
    j ≤ j' ≤ Z.max j i ∧
    j' - j = Z.of_nat (count_depth ts (depth ts ps) l (S kc) (kq - kc)) ∧
    (∀ m r, (ks ≤ m ≤ kq)%nat → l !! m = Some r → depth ts ps ≤ depth ts r) ∧
    (j' < i → ∀ m r, (kq < m)%nat → l !! m = Some r → depth ts r = depth ts ps →
       ∃ m' r', (kq < m' < m)%nat ∧ l !! m' = Some r' ∧ depth ts r' < depth ts ps).
Proof using Hl.
  revert ks ps kc pc j.
  induction fuel as [|fuel IH]; intros ks ps kc pc j Hs Hc Hle Hdeep Hfuel;
    rewrite move_forward_loop_eq.
  all: pose proof (lookup_lt_Some _ _ _ Hc) as Hclen.
  all: assert (∀ m r, (ks ≤ m ≤ ks)%nat → l !! m = Some r → depth ts ps ≤ depth ts r) as Hself
    by (intros m r Hm Hr; assert (m = ks) as -> by lia; assert (r = ps) as -> by congruence; lia).
  all: assert (count_depth ts (depth ts ps) l (S kc) (ks - kc) = 0%nat) as Hcount0
    by (by replace (ks - kc)%nat with 0%nat by lia).
  all: destruct (Z.ltb_spec j i) as [Hji|Hji];
    [|exists ks, ps, j; rewrite Hcount0; split_and!; [done..|lia|lia|lia|done|lia]].
  all: destruct (linked_deref ts l Hl kc pc Hc) as (c & -> & _ & Hnx & _);
    rewrite bind_Done, Hnx.
  all: destruct (l !! S kc) as [q|] eqn:Hq; last first.
  1,3: apply lookup_ge_None in Hq; exists ks, ps, j; rewrite Hcount0;
    split_and!; [done..|lia|lia|lia|done|];
    intros _ m r Hm Hr Hd; pose proof (lookup_lt_Some _ _ _ Hr);
    specialize (Hdeep m r ltac:(lia) Hr); lia.
  all: destruct (linked_deref ts l Hl (S kc) q Hq) as (n & Hn & _);
    destruct (linked_deref ts l Hl ks ps Hs) as (s & Hds & _);
    rewrite Hn, Hds, !bind_Done;
    rewrite (depth_deref ts l Hl _ _ _ Hq Hn), (depth_deref ts l Hl _ _ _ Hs Hds).
  all: pose proof (lookup_lt_Some _ _ _ Hq) as Hqlen.
  all: destruct (Z.geb_spec (depth ts q) (depth ts ps)) as [Hge|Hlt]; last first.
  1,3: exists ks, ps, j; rewrite Hcount0; split_and!; [done..|lia|lia|lia|done|];
    intros _ m r Hm Hr Hd;
    destruct (decide (m ≤ kc)%nat) as [Hmk|Hmk];
    [specialize (Hdeep m r ltac:(lia) Hr); lia|];
    destruct (decide (m = S kc)) as [->|Hne]; [assert (r = q) by congruence; subst; lia|];
    exists (S kc), q; split_and!; [lia|lia|done|done].
  - lia.
  - destruct (Z.eqb_spec (depth ts q) (depth ts ps)) as [Heq|Hne].
    + destruct (IH (S kc) q (S kc) q (j + 1) Hq Hq) as
        (kq & r & j' & -> & Hr & Hkq & Hdr & Hj & Hcnt & Hall & Hstop); [lia| |lia|].
      { intros m r' Hm. lia. }
      rewrite Heq in *.
      exists kq, r, j'. split_and!; [done|done|lia|done|lia|lia| | |].
      * replace (kq - kc)%nat with (S (kq - S kc)) by lia.
        cbn [count_depth]. rewrite Hq. rewrite decide_True by done. lia.
      * intros m r' Hm Hr'.
        destruct (decide (m = ks)) as [->|]; [apply (Hself ks r'); [lia|done]|].
        destruct (decide (m ≤ kc)%nat); [specialize (Hdeep m r' ltac:(lia) Hr'); lia|].
        apply (Hall m r'); [lia|done].
      * done.
    + destruct (IH ks ps (S kc) q j Hs Hq) as
        (kq & r & j' & -> & Hr & Hkq & Hdr & Hj & Hcnt & Hall & Hstop); [lia| |lia|].
      { intros m r' Hm Hr'. destruct (decide (m = S kc)) as [->|].
        - assert (r' = q) as -> by congruence. lia.
        - apply (Hdeep m r'); [lia|done]. }
      exists kq, r, j'. split_and!; [done|done|done|done|lia|lia| |done|done].
      destruct (decide (kq ≤ kc)%nat).
      * replace (kq - kc)%nat with 0%nat by lia.
        replace (kq - S kc)%nat with 0%nat in Hcnt by lia. done.
      * replace (kq - kc)%nat with (S (kq - S kc)) by lia.
        cbn [count_depth]. rewrite Hq. rewrite decide_False by lia. lia.
Qed.
Lemma move_backward_loop_nav fuel ks ps kc pc j i :
  l !! ks = Some ps → l !! kc = Some pc → (kc ≤ ks)%nat →
  (∀ m r, (kc ≤ m < ks)%nat → l !! m = Some r → depth ts ps < depth ts r) →
  (kc ≤ fuel)%nat →
  ∃ kq q j',
    move_backward_loop ts fuel (Some ps) (Some pc) j i = Done (Some q, j') ∧
    l !! kq = Some q ∧ (kq ≤ ks)%nat ∧ depth ts q = depth ts ps ∧
    j ≤ j' ≤ Z.max j i ∧
    j' - j = Z.of_nat (count_depth ts (depth ts ps) l kq (kc - kq)) ∧
    (∀ m r, (kq ≤ m ≤ ks)%nat → l !! m = Some r → depth ts ps ≤ depth ts r) ∧
    (j' < i → ∀ m r, (m < kq)%nat → l !! m = Some r → depth ts r = depth ts ps →
       ∃ m' r', (m < m' < kq)%nat ∧ l !! m' = Some r' ∧ depth ts r' < depth ts ps).
Proof using Hl.
  revert ks ps kc pc j.
  induction fuel as [|fuel IH]; intros ks ps kc pc j Hs Hc Hle Hdeep Hfuel;
    rewrite move_backward_loop_eq.
  all: pose proof (lookup_lt_Some _ _ _ Hs) as Hslen.
  all: assert (∀ m r, (ks ≤ m ≤ ks)%nat → l !! m = Some r → depth ts ps ≤ depth ts r) as Hself
    by (intros m r Hm Hr; assert (m = ks) as -> by lia; assert (r = ps) as -> by congruence; lia).
  all: assert (count_depth ts (depth ts ps) l ks (kc - ks) = 0%nat) as Hcount0
    by (by replace (kc - ks)%nat with 0%nat by lia).
  all: destruct (Z.ltb_spec j i) as [Hji|Hji];
    [|exists ks, ps, j; rewrite Hcount0; split_and!; [done..|lia|lia|lia|done|lia]].
  all: destruct (linked_deref ts l Hl kc pc Hc) as (c & -> & _ & _ & Hpv);
    rewrite bind_Done, Hpv.
  all: destruct kc as [|kc]; cbn [before].
  1,3: exists ks, ps, j; rewrite Hcount0; split_and!; [done..|lia|lia|lia|done|];
    intros _ m r Hm Hr Hd; specialize (Hdeep m r ltac:(lia) Hr); lia.
  all: destruct (lookup_lt_is_Some_2 l kc) as [q Hq]; [lia|]; rewrite Hq.
  all: destruct (linked_deref ts l Hl kc q Hq) as (n & Hn & _);
    destruct (linked_deref ts l Hl ks ps Hs) as (s & Hds & _);
    rewrite Hn, Hds, !bind_Done;
    rewrite (depth_deref ts l Hl _ _ _ Hq Hn), (depth_deref ts l Hl _ _ _ Hs Hds).
  all: destruct (Z.geb_spec (depth ts q) (depth ts ps)) as [Hge|Hlt]; last first.
  1,3: exists ks, ps, j; rewrite Hcount0; split_and!; [done..|lia|lia|lia|done|];
    intros _ m r Hm Hr Hd;
    destruct (decide (S kc ≤ m)%nat) as [Hmk|Hmk];
    [specialize (Hdeep m r ltac:(lia) Hr); lia|];
    destruct (decide (m = kc)) as [->|Hne]; [assert (r = q) by congruence; subst; lia|];
    exists kc, q; split_and!; [lia|lia|done|done].
  - lia.
  - destruct (Z.eqb_spec (depth ts q) (depth ts ps)) as [Heq|Hne].
    + destruct (IH kc q kc q (j + 1) Hq Hq) as
        (kq & r & j' & -> & Hr & Hkq & Hdr & Hj & Hcnt & Hall & Hstop); [lia| |lia|].
      { intros m r' Hm. lia. }
      rewrite Heq in *.
      exists kq, r, j'. split_and!; [done|done|lia|done|lia|lia| | |].
      * replace (S kc - kq)%nat with (S (kc - kq)) by lia.
        rewrite count_depth_snoc. replace (kq + (kc - kq))%nat with kc by lia.
        rewrite Hq. rewrite decide_True by done. lia.
      * intros m r' Hm Hr'.
        destruct (decide (m = ks)) as [->|]; [apply (Hself ks r'); [lia|done]|].
        destruct (decide (S kc ≤ m)%nat); [specialize (Hdeep m r' ltac:(lia) Hr'); lia|].
        apply (Hall m r'); [lia|done].
      * done.
    + destruct (IH ks ps kc q j Hs Hq) as
        (kq & r & j' & -> & Hr & Hkq & Hdr & Hj & Hcnt & Hall & Hstop); [lia| |lia|].
      { intros m r' Hm Hr'. destruct (decide (m = kc)) as [->|].
        - assert (r' = q) as -> by congruence. lia.
        - apply (Hdeep m r'); [lia|done]. }
      exists kq, r, j'. split_and!; [done|done|done|done|lia|lia| |done|done].
      destruct (decide (S kc ≤ kq)%nat).
      * replace (S kc - kq)%nat with 0%nat by lia.
        replace (kc - kq)%nat with 0%nat in Hcnt by lia. done.
      * replace (S kc - kq)%nat with (S (kc - kq)) by lia.
        rewrite count_depth_snoc. replace (kq + (kc - kq))%nat with kc by lia.
        rewrite Hq. rewrite decide_False by lia. lia.
Qed.

Lemma tree_move_forward_nav g t k p i :
  l !! k = Some p → selected_ptr t = Some p → tree_navigation_flag g = true →
  ∃ k' q j,
    tree_move_forward ts g t i =
      Done (tree_check_focus g (set_topdiff (topdiff t + j) (set_selected_ptr (Some q) t))) ∧
    l !! k' = Some q ∧ (k ≤ k')%nat ∧ depth ts q = depth ts p ∧
    0 ≤ j ≤ Z.max 0 i ∧
    j = Z.of_nat (count_depth ts (depth ts p) l (S k) (k' - k)) ∧
    (∀ m r, (k ≤ m ≤ k')%nat → l !! m = Some r → depth ts p ≤ depth ts r) ∧
    (j < i → ∀ m r, (k' < m)%nat → l !! m = Some r → depth ts r = depth ts p →
       ∃ m' r', (k' < m' < m)%nat ∧ l !! m' = Some r' ∧ depth ts r' < depth ts p).
Proof using Hl.
  intros Hk Hsel Hnav. unfold tree_move_forward. rewrite Hnav, Hsel. cbn [negb].
  destruct (move_forward_loop_nav (store_fuel ts) k p k p 0 i Hk Hk) as
    (kq & q & j' & -> & Hq & Hkq & Hd & Hj & Hcnt & Hall & Hstop).
  { lia. } { intros m r Hm. lia. } { pose proof (linked_fuel ts l Hl). lia. }
  rewrite bind_Done. exists kq, q, j'. split_and!; [done|done|done|done|lia|lia|lia|done|done].
Qed.

Lemma tree_move_backward_nav g t k p i :
  l !! k = Some p → selected_ptr t = Some p → tree_navigation_flag g = true →
  ∃ k' q j,
    tree_move_backward ts g t i =
      Done (tree_check_focus g (set_topdiff (topdiff t - j) (set_selected_ptr (Some q) t))) ∧
    l !! k' = Some q ∧ (k' ≤ k)%nat ∧ depth ts q = depth ts p ∧
    0 ≤ j ≤ Z.max 0 i ∧
    j = Z.of_nat (count_depth ts (depth ts p) l k' (k - k')) ∧
    (∀ m r, (k' ≤ m ≤ k)%nat → l !! m = Some r → depth ts p ≤ depth ts r) ∧
    (j < i → ∀ m r, (m < k')%nat → l !! m = Some r → depth ts r = depth ts p →
       ∃ m' r', (m < m' < k')%nat ∧ l !! m' = Some r' ∧ depth ts r' < depth ts p).
Proof using Hl.
  intros Hk Hsel Hnav. unfold tree_move_backward. rewrite Hnav, Hsel. cbn [negb].
  destruct (move_backward_loop_nav (store_fuel ts) k p k p 0 i Hk Hk) as
    (kq & q & j' & -> & Hq & Hkq & Hd & Hj & Hcnt & Hall & Hstop).
  { lia. } { intros m r Hm. lia. }
  { pose proof (linked_fuel ts l Hl). pose proof (lookup_lt_Some _ _ _ Hk). lia. }
  rewrite bind_Done. exists kq, q, j'. split_and!; [done|done|done|done|lia|lia|lia|done|done].
Qed.
End NavigationMoves.

(** X3: in navigation mode [tree_move_forward (tree, i)] stays on the level of
    the selection: the record it selects has the depth of the old
    selection, lies at or after it, and no record between the two is
    shallower.  The number [j] of steps added to [topdiff] is the number
    of records of that depth it has passed, at most [i]; when it is less
    than [i], every later record of that depth lies beyond a shallower
    record. *)
Theorem tree_move_forward_keeps_level (ts : TreeStore) (l : list positive) (g : Globals)
    (t : WTree) (k : nat) (p : positive) (i : Z) :
  linked ts l → l !! k = Some p → selected_ptr t = Some p →
  tree_navigation_flag g = true →
  ∃ k' q j,
    tree_move_forward ts g t i =
      Done (tree_check_focus g (set_topdiff (topdiff t + j) (set_selected_ptr (Some q) t))) ∧
    l !! k' = Some q ∧ (k ≤ k')%nat ∧ depth ts q = depth ts p ∧
    0 ≤ j ≤ Z.max 0 i ∧
    j = Z.of_nat (count_depth ts (depth ts p) l (S k) (k' - k)) ∧
    (∀ m r, (k ≤ m ≤ k')%nat → l !! m = Some r → depth ts p ≤ depth ts r) ∧
    (j < i → ∀ m r, (k' < m)%nat → l !! m = Some r → depth ts r = depth ts p →
       ∃ m' r', (k' < m' < m)%nat ∧ l !! m' = Some r' ∧ depth ts r' < depth ts p).
Proof. intros Hl. by apply tree_move_forward_nav. Qed.

Lemma tree_move_forward_keeps_level_witness :
  ∃ k' q j,
    tree_move_forward store4 hierarchical_mode (view_at 2 10) 5 =
      Done (tree_check_focus hierarchical_mode
              (set_topdiff (10 + j) (set_selected_ptr (Some q) (view_at 2 10)))) ∧
    [1; 2; 3; 4]%positive !! k' = Some q ∧ depth store4 q = 1.
Proof.
  destruct (tree_move_forward_keeps_level store4 [1; 2; 3; 4]%positive hierarchical_mode
              (view_at 2 10) 1 2%positive 5 linked_store4 eq_refl eq_refl eq_refl)
    as (k' & q & j & Hrun & Hq & _ & Hd & _).
  exists k', q, j. split; [exact Hrun|]. split; [exact Hq|exact Hd].
Defined.

(** X4: [tree_move_backward] in navigation mode, likewise, towards the start
    of the list. *)
Theorem tree_move_backward_keeps_level (ts : TreeStore) (l : list positive) (g : Globals)
    (t : WTree) (k : nat) (p : positive) (i : Z) :
  linked ts l → l !! k = Some p → selected_ptr t = Some p →
  tree_navigation_flag g = true →
  ∃ k' q j,
    tree_move_backward ts g t i =
      Done (tree_check_focus g (set_topdiff (topdiff t - j) (set_selected_ptr (Some q) t))) ∧
    l !! k' = Some q ∧ (k' ≤ k)%nat ∧ depth ts q = depth ts p ∧
    0 ≤ j ≤ Z.max 0 i ∧
    j = Z.of_nat (count_depth ts (depth ts p) l k' (k - k')) ∧
    (∀ m r, (k' ≤ m ≤ k)%nat → l !! m = Some r → depth ts p ≤ depth ts r) ∧
    (j < i → ∀ m r, (m < k')%nat → l !! m = Some r → depth ts r = depth ts p →
       ∃ m' r', (m < m' < k')%nat ∧ l !! m' = Some r' ∧ depth ts r' < depth ts p).
Proof. intros Hl. by apply tree_move_backward_nav. Qed.

Lemma tree_move_backward_keeps_level_witness :
  ∃ k' q j,
    tree_move_backward store4 hierarchical_mode (view_at 4 10) 1 =
      Done (tree_check_focus hierarchical_mode
              (set_topdiff (10 - j) (set_selected_ptr (Some q) (view_at 4 10)))) ∧
    [1; 2; 3; 4]%positive !! k' = Some q ∧ depth store4 q = 1.
Proof.
  destruct (tree_move_backward_keeps_level store4 [1; 2; 3; 4]%positive hierarchical_mode
              (view_at 4 10) 3 4%positive 1 linked_store4 eq_refl eq_refl eq_refl)
    as (k' & q & j & Hrun & Hq & _ & Hd & _).
  exists k', q, j. split; [exact Hrun|]. split; [exact Hq|exact Hd].
Defined.

(** ** Focus correction on any window *)

(** X5: [tree_check_focus] leaves the view as it is exactly when [topdiff]
    already lies between 3 and [tlines - 4], whatever the height of the
    window. *)
Theorem tree_check_focus_fixed_points (g : Globals) (t : WTree) :
  tree_check_focus g t = t ↔ scroll_bounded g t.
Proof.
  unfold tree_check_focus, scroll_bounded. destruct t as [ln sel buf pan act srch td].
  unfold tlines, set_topdiff. cbn [topdiff lines is_panel selected_ptr search_buffer active searching].
  set (rows := if pan then _ else _).
  destruct (Z.ltb_spec td 3); [split; [intros [= ?]; lia|lia]|].
  destruct (Z.geb_spec td (rows - 3)); [split; [intros [= ?]; lia|lia]|].
  split; [lia|done].
Qed.

(** X6: on a window of fewer than 7 rows the correction never settles: it
    answers 3 and [tlines - 4] in turn, so that applying it twice never
    gives what applying it once gave. *)
Theorem tree_check_focus_small_window (g : Globals) (t : WTree) :
  tlines g t < 7 →
  tree_check_focus g (tree_check_focus g t) ≠ tree_check_focus g t ∧
  (topdiff (tree_check_focus g t) = 3 ∨ topdiff (tree_check_focus g t) = tlines g t - 4).
Proof.
  intros Hrows.
  assert (topdiff (tree_check_focus g t) = 3 ∨
          topdiff (tree_check_focus g t) = tlines g t - 4) as Hval.
  { rewrite topdiff_check_focus. unfold clamp.
    destruct (Z.ltb_spec (topdiff t) 3); [by left|].
    destruct (Z.geb_spec (topdiff t) (tlines g t - 3)); [right|]; lia. }
  split; [|done]. intros Heq. apply (f_equal topdiff) in Heq.
  rewrite (topdiff_check_focus g (tree_check_focus g t)), tlines_check_focus in Heq.
  unfold clamp in Heq.
  destruct (Z.ltb_spec (topdiff (tree_check_focus g t)) 3);
    destruct (Z.geb_spec (topdiff (tree_check_focus g t)) (tlines g t - 3)); lia.
Qed.

Lemma tree_check_focus_small_window_witness :
  tlines flat_mode (MkWTree 5 (Some 1%positive) EmptyString false true false 0) < 7 ∧
  tree_check_focus flat_mode
    (tree_check_focus flat_mode (MkWTree 5 (Some 1%positive) EmptyString false true false 0))
  ≠ tree_check_focus flat_mode (MkWTree 5 (Some 1%positive) EmptyString false true false 0).
Proof.
  split; [by vm_compute|].
  apply (tree_check_focus_small_window flat_mode
           (MkWTree 5 (Some 1%positive) EmptyString false true false 0)).
  by vm_compute.
Defined.

(** ** Parent and child *)

Section ParentChild.
Context (vfs_get_raw_current_dir : option string) (mc_chdir : string → Z).
Context (tree_store_rescan : TreeStore → string → list (TreeStore * addr) * TreeStore).
Context (ts : TreeStore) (l : list positive) (Hl : linked ts l).

Lemma tree_move_to_child_deeper g t k p q :
  l !! k = Some p → selected_ptr t = Some p →
  l !! S k = Some q → depth ts p < depth ts q →
  tree_move_to_child vfs_get_raw_current_dir mc_chdir tree_store_rescan ts g t =
    Done (ts, tree_check_focus g (set_topdiff (topdiff t + 1) (set_selected_ptr (Some q) t)), []).
Proof using Hl.
  intros Hk Hp Hq Hdeep. unfold tree_move_to_child. rewrite Hp.
  destruct (linked_deref ts l Hl k p Hk) as (s & -> & _ & Hnx & _).
  rewrite bind_Done, Hnx, (is_child_spec ts l k p Hl Hk), Hq, bind_Done.
  by rewrite (proj2 (Z.gtb_gt (depth ts q) (depth ts p))) by lia.
Qed.

Lemma tree_move_to_parent_index g t k p :
  l !! k = Some p → selected_ptr t = Some p →
  ∃ k' q t', tree_move_to_parent ts g t = Done (t', bool_decide (k ≠ 0%nat)) ∧
             l !! k' = Some q ∧ selected_ptr t' = Some q ∧
             (k' ≤ pred k)%nat.
Proof using Hl.
  intros Hk Hp. rewrite (tree_move_to_parent_spec ts l Hl g t k p Hk Hp).
  pose proof (skipped_le ts l (depth ts p) k).
  pose proof (lookup_lt_Some _ _ _ Hk).
  destruct (lookup_lt_is_Some_2 l (k - skipped ts (depth ts p) l k - 1)%nat) as [q Hq]; [lia|].
  eexists _, q, _. split; [reflexivity|]. split; [exact Hq|].
  split; [by rewrite selected_check_focus; cbn; rewrite Hq|lia].
Qed.

Lemma climb_top g n : ∀ t k p,
  l !! k = Some p → selected_ptr t = Some p → (k ≤ n)%nat →
  ∃ t', climb ts g t n = Done t' ∧ selected_ptr t' = head l.
Proof using Hl.
  induction n as [|n IH]; intros t k p Hk Hp Hn.
  - exists t. split; [done|]. assert (k = 0%nat) as -> by lia.
    by rewrite Hp, head_lookup.
  - cbn [climb].
    destruct (tree_move_to_parent_index g t k p Hk Hp) as (k' & q & t' & -> & Hq & Hsel & Hle).
    rewrite bind_Done. apply (IH t' k' q); [done..|lia].
Qed.
End ParentChild.

(** X7: when the record after the selection is deeper, [tree_move_to_child]
    selects it without a rescan, and [tree_move_to_parent] then comes
    back to the record it started from and reports a change. *)
Theorem tree_move_to_child_then_parent (cwd : option string) (chdir : string → Z)
    (store_rescan : TreeStore → string → list (TreeStore * addr) * TreeStore)
    (ts : TreeStore) (l : list positive) (g : Globals) (t : WTree)
    (k : nat) (p q : positive) :
  linked ts l → l !! k = Some p → selected_ptr t = Some p →
  l !! S k = Some q → depth ts p < depth ts q →
  ∃ t1 t2, tree_move_to_child cwd chdir store_rescan ts g t = Done (ts, t1, []) ∧
           selected_ptr t1 = Some q ∧
           tree_move_to_parent ts g t1 = Done (t2, true) ∧
           selected_ptr t2 = Some p.
Proof.
  intros Hl Hk Hp Hq Hdeep.
  rewrite (tree_move_to_child_deeper cwd chdir store_rescan ts l Hl g t k p q Hk Hp Hq Hdeep).
  eexists _, _. split; [reflexivity|].
  split; [by rewrite selected_check_focus|].
  rewrite (tree_move_to_parent_spec ts l Hl g _ (S k) q Hq)
    by (by rewrite selected_check_focus).
  cbn [skipped]. rewrite Hk.
  destruct (Z.geb_spec (depth ts p) (depth ts q)); [lia|].
  replace (S k - 0 - 1)%nat with k by lia. rewrite Hk.
  split; [reflexivity|]. by rewrite selected_check_focus.
Qed.

Lemma tree_move_to_child_then_parent_witness :
  ∃ t1 t2, Sample.tree_move_to_child store4 hierarchical_mode (view_at 2 10)
             = Done (store4, t1, []) ∧
           selected_ptr t1 = Some 3%positive ∧
           tree_move_to_parent store4 hierarchical_mode t1 = Done (t2, true) ∧
           selected_ptr t2 = Some 2%positive.
Proof.
  apply (tree_move_to_child_then_parent (Some "/"%string) (λ _, 0) Sample.tree_store_rescan
           store4 [1; 2; 3; 4]%positive hierarchical_mode (view_at 2 10) 1 2%positive 3%positive
           linked_store4 eq_refl eq_refl eq_refl).
  by vm_compute.
Defined.

(** X8: each call of [tree_move_to_parent] that reports a change selects an
    earlier record of the list, and it reports no change exactly on the
    first record; so, from the record at position [k], [k] calls (or more)
    end on the first record of the store. *)
Theorem tree_move_to_parent_reaches_top (ts : TreeStore) (l : list positive) (g : Globals)
    (t : WTree) (k n : nat) (p : positive) :
  linked ts l → l !! k = Some p → selected_ptr t = Some p →
  (∃ k' q t' b, tree_move_to_parent ts g t = Done (t', b) ∧
                l !! k' = Some q ∧ selected_ptr t' = Some q ∧
                (b = true ↔ k ≠ 0%nat) ∧ (b = true → (k' < k)%nat) ∧
                (b = false → k' = k)) ∧
  ((k ≤ n)%nat → ∃ t', climb ts g t n = Done t' ∧ selected_ptr t' = head l).
Proof.
  intros Hl Hk Hp. split.
  - destruct (tree_move_to_parent_index ts l Hl g t k p Hk Hp)
      as (k' & q & t' & Hrun & Hq & Hsel & Hle).
    exists k', q, t', (bool_decide (k ≠ 0%nat)).
    split_and!; [done..| | |].
    + apply bool_decide_eq_true.
    + intros Hb%bool_decide_eq_true. lia.
    + intros Hb%bool_decide_eq_false. lia.
  - intros Hn. exact (climb_top ts l Hl g n t k p Hk Hp Hn).
Qed.

Lemma tree_move_to_parent_reaches_top_witness :
  ∃ t', climb store4 hierarchical_mode (view_at 3 10) 2 = Done t' ∧
        selected_ptr t' = Some 1%positive.
Proof.
  refine (proj2 (tree_move_to_parent_reaches_top store4 [1; 2; 3; 4]%positive hierarchical_mode
                   (view_at 3 10) 2 2 3%positive linked_store4 eq_refl eq_refl) _).
  lia.
Defined.

(** ** Searching *)

Lemma prefix_truncate s name n :
  String.prefix s name = true → String.prefix (truncate n s) name = true.
Proof.
  revert name n. induction s as [|c s IH]; intros name n Hp.
  - by destruct n.
  - destruct n as [|n]; [by destruct name|].
    destruct name as [|c' name]; [done|]. simpl in *.
    destruct (ascii_dec c c'); [by apply IH|done].
Qed.

Lemma nul_free_truncate s n : nul_free s → nul_free (truncate n s).
Proof.
  revert n. induction s as [|c s IH]; intros n Hs; [by destruct n|].
  destruct n as [|n]; [done|]. destruct Hs as [? ?]. split; [done|by apply IH].
Qed.

Lemma truncate_all s : truncate (String.length s) s = s.
Proof. induction s as [|c s IH]; simpl; [done|by rewrite IH]. Qed.

Lemma strlen_truncate s n : strlen (truncate n s) ≤ strlen s.
Proof.
  unfold strlen. apply inj_le. revert n.
  induction s as [|c s IH]; intros n; [by destruct n|].
  destruct n as [|n]; simpl; [lia|]. specialize (IH n). lia.
Qed.

Lemma lines_check_focus g t : lines (tree_check_focus g t) = lines t.
Proof. unfold tree_check_focus. repeat case_match; reflexivity. Qed.

Lemma panel_check_focus g t : is_panel (tree_check_focus g t) = is_panel t.
Proof. unfold tree_check_focus. repeat case_match; reflexivity. Qed.

Lemma tlines_window g t t' :
  lines t' = lines t → is_panel t' = is_panel t → tlines g t' = tlines g t.
Proof. intros Hlines Hpanel. unfold tlines. by rewrite Hlines, Hpanel. Qed.

(** Solves [lines t' = lines t] and [is_panel t' = is_panel t] for a view
    [t'] built from [t] by the setters and the focus correction. *)
Ltac window :=
  repeat first [ rewrite lines_check_focus | rewrite panel_check_focus
               | progress cbn [lines is_panel set_topdiff set_selected_ptr
                                set_search_buffer set_searching] ];
  try done.

Lemma searching_check_focus g t : searching (tree_check_focus g t) = searching t.
Proof. unfold tree_check_focus. repeat case_match; reflexivity. Qed.

Lemma set_search_buffer_same t : set_search_buffer (search_buffer t) t = t.
Proof. by destruct t. Qed.

Lemma scan_order_elem (l : list positive) k q : q ∈ scan_order l k ↔ q ∈ l.
Proof.
  unfold scan_order. rewrite elem_of_app. rewrite <- (take_drop k l) at 3.
  rewrite elem_of_app. tauto.
Qed.

Section SearchOutcome.
Context (ts : TreeStore) (l : list positive) (Hl : linked ts l).

(** The scan from the selection: what is found, and where. *)
Lemma search_tree_outcome g t text k p :
  l !! k = Some p → selected_ptr t = Some p → nul_free text →
  ∃ t' found,
    search_tree ts g t text = Done (t', found) ∧
    search_buffer t' = search_buffer t ∧ searching t' = searching t ∧
    ((found = true ∧
      ∃ j q, list_find (prefix_match ts text) (scan_order l k) = Some (j, q) ∧
             t' = tree_check_focus g (set_topdiff (topdiff t + Z.of_nat j)
                                        (set_selected_ptr (Some q) t))) ∨
     (found = false ∧ selected_ptr t' = selected_ptr t ∧
      ∀ q, q ∈ l → ¬ prefix_match ts text q)).
Proof using Hl.
  intros Hk Hsel Hnul.
  rewrite (search_tree_scan ts l Hl text k p Hk g t Hsel).
  rewrite (list_find_matches_prefix ts text _ Hnul).
  destruct (list_find _ _) as [[j q]|] eqn:Hfind.
  - eexists _, _. split; [reflexivity|]. split; [by rewrite buffer_check_focus|].
    split; [by rewrite searching_check_focus|].
    left. split; [done|]. by exists j, q.
  - eexists _, _. split; [reflexivity|]. split; [by rewrite buffer_check_focus|].
    split; [by rewrite searching_check_focus|].
    right. split; [done|]. split; [by rewrite selected_check_focus|].
    intros q Hq. apply list_find_None in Hfind.
    rewrite Forall_forall in Hfind. apply Hfind. by apply scan_order_elem.
Qed.

(** The scan leaves the geometry of the window alone. *)
Lemma search_tree_window g t text k p t' found :
  l !! k = Some p → selected_ptr t = Some p →
  search_tree ts g t text = Done (t', found) →
  lines t' = lines t ∧ is_panel t' = is_panel t.
Proof using Hl.
  intros Hk Hsel. rewrite (search_tree_scan ts l Hl text k p Hk g t Hsel).
  destruct (list_find _ _) as [[j q]|]; intros [= <- _];
    by rewrite lines_check_focus, panel_check_focus.
Qed.

(** A selection that matches is found at once. *)
Lemma search_tree_stays g t text k p :
  l !! k = Some p → selected_ptr t = Some p → nul_free text →
  prefix_match ts text p →
  search_tree ts g t text =
    Done (tree_check_focus g (set_topdiff (topdiff t + 0) t), true).
Proof using Hl.
  intros Hk Hsel Hnul Hm.
  rewrite (search_tree_scan ts l Hl text k p Hk g t Hsel).
  rewrite (list_find_matches_prefix ts text _ Hnul).
  unfold scan_order. rewrite (drop_S l p k Hk). cbn [app list_find].
  rewrite decide_True by done. by rewrite (set_selected_ptr_same t (Some p) Hsel).
Qed.
End SearchOutcome.

(** X9: [search_tree] finds a record whenever the display name of some record
    of the store starts with the text, and only then; the record it
    selects is such a record, and when it finds none the selection stays
    where it was. *)
Theorem search_tree_finds_iff_some_match (ts : TreeStore) (l : list positive) (g : Globals)
    (t : WTree) (text : string) (p : positive) :
  linked ts l → p ∈ l → selected_ptr t = Some p → nul_free text →
  ∃ t' found,
    search_tree ts g t text = Done (t', found) ∧
    (found = true ↔ ∃ q, q ∈ l ∧ prefix_match ts text q) ∧
    (found = true → ∃ q, selected_ptr t' = Some q ∧ q ∈ l ∧ prefix_match ts text q) ∧
    (found = false → selected_ptr t' = selected_ptr t).
Proof.
  intros Hl [k Hk]%list_elem_of_lookup Hsel Hnul.
  destruct (search_tree_outcome ts l Hl g t text k p Hk Hsel Hnul)
    as (t' & found & Hrun & _ & _ & [(-> & j & q & Hfind & ->)|(-> & Hsame & Hnone)]).
  - apply list_find_Some in Hfind as (Hq%list_elem_of_lookup_2 & Hm & _).
    apply scan_order_elem in Hq.
    eexists _, true. split; [exact Hrun|].
    split; [split; [intros _; by exists q|done]|].
    split; [|done]. intros _. exists q. by rewrite selected_check_focus.
  - exists t', false. split; [done|]. split.
    + split; [done|]. intros (q & Hq & Hm). by destruct (Hnone q Hq).
    + split; [done|]. by intros _.
Qed.

Lemma search_tree_finds_iff_some_match_witness :
  ∃ t' found, search_tree store4 flat_mode (view_at 4 10) "x" = Done (t', found) ∧
              (found = true ↔ ∃ q, q ∈ [1; 2; 3; 4]%positive ∧ prefix_match store4 "x" q).
Proof.
  destruct (search_tree_finds_iff_some_match store4 [1; 2; 3; 4]%positive flat_mode
              (view_at 4 10) "x" 4%positive linked_store4)
    as (t' & found & Hrun & Hiff & _).
  - by apply (bool_decide_unpack _).
  - reflexivity.
  - vm_compute. split; [discriminate|exact I].
  - exists t', found. split; [exact Hrun|exact Hiff].
Defined.

Section Typing.
Context (KEY_BACKSPACE MC_MAXFILENAMELEN : Z) (PATH_SEP : ascii).
Context (vfs_path_equal : string → string → bool).
Context (vfs_path_equal_len : string → string → Z → bool).
Context (vfs_path_len : string → Z).
Context (is_idle : bool).
Context (change_panel : TreeStore → Globals → WTree → outcome WTree).
Context (do_cd : TreeStore → Globals → WTree → string → outcome WTree).
Context (Hpanels : leaves_selection change_panel do_cd).
Context (ts : TreeStore) (l : list positive) (Hl : linked ts l).
Context (g : Globals).
Context (Hwf : tree_navigation_flag g = true → paths_wf PATH_SEP ts l).

Local Abbreviation do_search :=
  (tree_do_search KEY_BACKSPACE MC_MAXFILENAMELEN PATH_SEP
     vfs_path_equal vfs_path_equal_len vfs_path_len is_idle change_panel do_cd ts g).
Local Abbreviation scan_step :=
  (tree_do_search_scan PATH_SEP vfs_path_equal vfs_path_equal_len vfs_path_len is_idle
     change_panel do_cd ts g).
Local Abbreviation redraw :=
  (show_tree PATH_SEP vfs_path_equal vfs_path_equal_len vfs_path_len ts g).
Local Abbreviation notify :=
  (maybe_chdir PATH_SEP vfs_path_equal vfs_path_equal_len vfs_path_len is_idle
     change_panel do_cd ts g).

Lemma tree_do_search_unfold t key :
  do_search t key =
    ('(buf, n) ← edit_search_buffer KEY_BACKSPACE MC_MAXFILENAMELEN (search_buffer t) key;
     scan_step t buf n).
Proof. reflexivity. Qed.

(** Drawing and the notification of the other panel leave the selection,
    the buffer and the geometry alone, and the search flag too when the
    other panel does not follow. *)
Lemma redraw_notify_done t :
  selects l t → 0 ≤ tlines g t →
  ∃ t' evs, (t3 ← redraw t; notify t3) = Done (t', evs) ∧
            same_selection t t' ∧
            (xtree_mode g && is_panel t && is_idle = false → searching t' = searching t).
Proof using Hl Hwf Hpanels.
  intros Hsel Hrows.
  destruct (show_tree_done PATH_SEP vfs_path_equal vfs_path_equal_len vfs_path_len
              ts l g t Hl Hsel Hwf Hrows) as (td & ->).
  rewrite bind_Done.
  destruct (maybe_chdir_frame PATH_SEP vfs_path_equal vfs_path_equal_len vfs_path_len is_idle
              change_panel do_cd ts l g (set_topdiff td t) Hpanels Hl)
    as (t' & evs & -> & Hsame & _ & Hquiet); [done|done|done|].
  exists t', evs. split; [done|]. split; [exact Hsame|].
  intros Hq. by destruct (Hquiet Hq) as [-> _].
Qed.

(** The scan after an edit that left a prefix of the selection's name. *)
Lemma scan_step_stays t buf n p :
  selected_ptr t = Some p → p ∈ l → nul_free buf → prefix_match ts buf p →
  0 ≤ tlines g t →
  ∃ t' evs, scan_step t buf n = Done (t', evs) ∧
            selected_ptr t' = Some p ∧ search_buffer t' = buf ∧
            lines t' = lines t ∧ is_panel t' = is_panel t ∧
            (xtree_mode g && is_panel t && is_idle = false → searching t' = searching t).
Proof using Hl Hwf Hpanels.
  intros Hp [k Hk]%list_elem_of_lookup Hnul Hm Hrows. unfold tree_do_search_scan.
  rewrite (search_tree_stays ts l Hl g (set_search_buffer buf t) buf k p Hk Hp Hnul Hm).
  rewrite bind_Done. cbn beta iota. rewrite ?bind_Done.
  match goal with |- context [redraw ?t2] => set (t2' := t2) end.
  assert (selected_ptr t2' = Some p) as Hsel2
    by (unfold t2'; by rewrite selected_check_focus).
  assert (lines t2' = lines t) as Hlines2 by (unfold t2'; window).
  assert (is_panel t2' = is_panel t) as Hpanel2 by (unfold t2'; window).
  destruct (redraw_notify_done t2') as (t' & evs & -> & (Hs & Hb & Hln & Hpn) & Hsr).
  { exists p. split; [done|]. by eapply list_elem_of_lookup_2. }
  { by rewrite (tlines_window g t t2'). }
  exists t', evs. split; [done|]. rewrite Hs, Hb, Hln, Hpn. split; [done|].
  split; [unfold t2'; by rewrite buffer_check_focus|]. split; [done|]. split; [done|].
  intros Hq. rewrite Hsr by (by rewrite Hpanel2).
  unfold t2'. by rewrite searching_check_focus.
Qed.

(** The scan after an edit that appended one character. *)
Lemma scan_step_appended t c p :
  selected_ptr t = Some p → p ∈ l → nul_free (search_buffer t) → c ≠ zero →
  prefix_match ts (search_buffer t) p → 0 ≤ tlines g t →
  ∃ t' evs,
    scan_step t (search_buffer t ++ String c EmptyString) (strlen (search_buffer t) + 1)
      = Done (t', evs) ∧
    lines t' = lines t ∧ is_panel t' = is_panel t ∧
    (xtree_mode g && is_panel t && is_idle = false → searching t' = searching t) ∧
    ((search_buffer t' = (search_buffer t ++ String c EmptyString)%string ∧
      ∃ q, selected_ptr t' = Some q ∧ q ∈ l ∧ prefix_match ts (search_buffer t') q) ∨
     (search_buffer t' = search_buffer t ∧ selected_ptr t' = Some p ∧
      ∀ q, q ∈ l → ¬ prefix_match ts (search_buffer t ++ String c EmptyString) q)).
Proof using Hl Hwf Hpanels.
  intros Hp Hin Hnul Hc Hm Hrows. pose proof Hin as [k Hk]%list_elem_of_lookup.
  set (buf := (search_buffer t ++ String c EmptyString)%string).
  assert (nul_free buf) as Hnul' by (apply nul_free_app; [done|by split]).
  unfold tree_do_search_scan.
  destruct (search_tree_outcome ts l Hl g (set_search_buffer buf t) buf k p Hk Hp Hnul')
    as (t1 & found & Hrun & Hbuf1 & Hsrch & Hcases).
  destruct (search_tree_window ts l Hl g (set_search_buffer buf t) buf k p t1 found Hk Hp Hrun)
    as [Hlines1 Hpanel1].
  cbn [lines is_panel set_search_buffer] in Hlines1, Hpanel1.
  rewrite Hrun, bind_Done. cbn beta iota.
  destruct Hcases as [(-> & j & q & Hfind & Ht1)|(-> & Hsame & Hnone)].
  - rewrite ?bind_Done.
    apply list_find_Some in Hfind as (Hq%list_elem_of_lookup_2 & Hmq & _).
    apply scan_order_elem in Hq.
    assert (selected_ptr t1 = Some q) as Hsel1 by (rewrite Ht1; by rewrite selected_check_focus).
    destruct (redraw_notify_done t1) as (t' & evs & -> & (Hs & Hb & Hln & Hpn) & Hsr);
      [by exists q|by rewrite (tlines_window g t t1)|].
    exists t', evs. split; [done|]. rewrite Hln, Hpn, Hb, Hs, Hbuf1.
    split; [done|]. split; [done|].
    split; [intros Hq'; rewrite Hsr by (by rewrite Hpanel1); exact Hsrch|].
    left. split; [done|]. by exists q.
  - assert ((strlen (search_buffer t) + 1 =? 0) = false) as ->
      by (apply Z.eqb_neq; unfold strlen; lia).
    rewrite bind_Done, Hbuf1. cbn [set_search_buffer search_buffer].
    replace (Z.to_nat (strlen (search_buffer t) + 1 - 1)) with (String.length (search_buffer t))
      by (unfold strlen; lia).
    unfold buf at 1. rewrite truncate_app.
    match goal with |- context [redraw ?t2] => set (t2' := t2) end.
    assert (selected_ptr t2' = Some p) as Hsel2 by (unfold t2'; cbn; by rewrite Hsame).
    assert (lines t2' = lines t) as Hlines2 by (unfold t2'; by cbn).
    assert (is_panel t2' = is_panel t) as Hpanel2 by (unfold t2'; by cbn).
    destruct (redraw_notify_done t2') as (t' & evs & -> & (Hs & Hb & Hln & Hpn) & Hsr);
      [by exists p|by rewrite (tlines_window g t t2')|].
    exists t', evs. split; [done|]. rewrite Hln, Hpn, Hb, Hs.
    split; [done|]. split; [done|].
    split; [intros Hq'; rewrite Hsr by (by rewrite Hpanel2); exact Hsrch|].
    right. split; [done|]. split; [done|exact Hnone].
Qed.

(** One key, whatever it is. *)
Lemma tree_do_search_step t key :
  search_inv ts l t → strlen (search_buffer t) + 1 < MC_MAXFILENAMELEN →
  0 ≤ tlines g t →
  ∃ t' evs, do_search t key = Done (t', evs) ∧ search_inv ts l t' ∧
            strlen (search_buffer t') ≤ strlen (search_buffer t) + 1 ∧
            lines t' = lines t ∧ is_panel t' = is_panel t ∧
            (xtree_mode g && is_panel t && is_idle = false → searching t' = searching t).
Proof using Hl Hwf Hpanels.
  intros (Hnul & p & Hp & Hin & Hm) Hroom Hrows.
  assert (∀ n m, ∃ t' evs, scan_step t (truncate n (search_buffer t)) m = Done (t', evs) ∧
            search_inv ts l t' ∧ strlen (search_buffer t') ≤ strlen (search_buffer t) + 1 ∧
            lines t' = lines t ∧ is_panel t' = is_panel t ∧
            (xtree_mode g && is_panel t && is_idle = false → searching t' = searching t))
    as Hstay.
  { intros n m.
    destruct (scan_step_stays t (truncate n (search_buffer t)) m p Hp Hin)
      as (t' & evs & -> & Hs & Hb & Hln & Hpn & Hsr); [| |done|].
    { by apply nul_free_truncate. }
    { by apply prefix_truncate. }
    exists t', evs. split; [done|]. unfold search_inv. rewrite Hb, Hs.
    split; [|split; [pose proof (strlen_truncate (search_buffer t) n); lia|done]].
    split; [by apply nul_free_truncate|]. exists p.
    split; [done|]. split; [done|]. by apply prefix_truncate. }
  rewrite tree_do_search_unfold. unfold edit_search_buffer.
  destruct (negb (strlen (search_buffer t) =? 0) && (key =? KEY_BACKSPACE)).
  { rewrite bind_mret. apply Hstay. }
  destruct (negb (key =? 0) && (strlen (search_buffer t) <? MC_MAXFILENAMELEN)).
  - rewrite (proj2 (Z.ltb_lt (strlen (search_buffer t) + 1) MC_MAXFILENAMELEN)) by lia.
    rewrite bind_mret. unfold append_char.
    destruct (Ascii.eqb_spec (char_of_key key) zero) as [Hz|Hnz].
    + pose proof (Hstay (String.length (search_buffer t))) as Hsame.
      rewrite truncate_all in Hsame. apply Hsame.
    + destruct (scan_step_appended t (char_of_key key) p Hp Hin Hnul Hnz Hm Hrows)
        as (t' & evs & -> & Hln & Hpn & Hsr & [(Hb & q & Hq & Hqin & Hqm)|(Hb & Hs & _)]).
      * exists t', evs. split; [done|]. split; [|split; [|done]].
        -- split; [|by exists q]. rewrite Hb. apply nul_free_app; [done|by split].
        -- rewrite Hb, strlen_app. unfold strlen. simpl. lia.
      * exists t', evs. split; [done|]. unfold search_inv. rewrite Hb, Hs.
        split; [|split; [lia|done]]. split; [done|]. by exists p.
  - rewrite bind_mret. pose proof (Hstay (String.length (search_buffer t))) as Hsame.
    rewrite truncate_all in Hsame. apply Hsame.
Qed.

Lemma type_keys_inv keys : ∀ t,
  search_inv ts l t →
  strlen (search_buffer t) + Z.of_nat (length keys) < MC_MAXFILENAMELEN →
  0 ≤ tlines g t →
  ∃ t', type_keys KEY_BACKSPACE MC_MAXFILENAMELEN PATH_SEP vfs_path_equal vfs_path_equal_len
          vfs_path_len is_idle change_panel do_cd ts g t keys = Done t' ∧
        search_inv ts l t' ∧
        strlen (search_buffer t') ≤ strlen (search_buffer t) + Z.of_nat (length keys).
Proof using Hl Hwf Hpanels.
  induction keys as [|key keys IH]; intros t Hinv Hroom Hrows.
  - exists t. split; [done|]. split; [done|]. simpl. lia.
  - cbn [type_keys]. cbn [length] in Hroom.
    destruct (tree_do_search_step t key Hinv) as (t1 & evs & -> & Hinv1 & Hlen1 & Hln & Hpn & _);
      [lia|done|].
    rewrite bind_Done. cbn beta iota.
    destruct (IH t1 Hinv1) as (t' & -> & Hinv' & Hlen'); [lia| |].
    { by rewrite (tlines_window g t t1). }
    exists t'. split; [done|]. split; [done|]. cbn [length]. lia.
Qed.

Lemma tree_do_search_backspace t p :
  selected_ptr t = Some p → p ∈ l → nul_free (search_buffer t) →
  prefix_match ts (search_buffer t) p → search_buffer t ≠ EmptyString →
  0 ≤ tlines g t →
  ∃ t' evs, do_search t KEY_BACKSPACE = Done (t', evs) ∧
            search_buffer t' = truncate (String.length (search_buffer t) - 1) (search_buffer t) ∧
            selected_ptr t' = Some p.
Proof using Hl Hwf Hpanels.
  intros Hp Hin Hnul Hm Hne Hrows.
  rewrite tree_do_search_unfold. unfold edit_search_buffer.
  assert (strlen (search_buffer t) ≠ 0) as Hlen
    by (unfold strlen; destruct (search_buffer t); [done|simpl; lia]).
  rewrite (proj2 (Z.eqb_neq _ _) Hlen), Z.eqb_refl. cbn [negb andb].
  rewrite bind_mret.
  replace (Z.to_nat (strlen (search_buffer t) - 1))
    with (String.length (search_buffer t) - 1)%nat by (unfold strlen; lia).
  destruct (scan_step_stays t (truncate (String.length (search_buffer t) - 1) (search_buffer t))
              (strlen (search_buffer t) - 1) p Hp Hin)
    as (t' & evs & -> & Hs & Hb & _); [| |done|].
  { by apply nul_free_truncate. }
  { by apply prefix_truncate. }
  by exists t', evs.
Qed.

(** A scan with no new key, as the search for the next match makes it. *)
Lemma tree_do_search_no_key t k p j q :
  KEY_BACKSPACE ≠ 0 →
  l !! k = Some p → selected_ptr t = Some p → nul_free (search_buffer t) →
  list_find (prefix_match ts (search_buffer t)) (scan_order l k) = Some (j, q) →
  0 ≤ tlines g t →
  ∃ t' evs, do_search t 0 = Done (t', evs) ∧
            selected_ptr t' = Some q ∧ search_buffer t' = search_buffer t.
Proof using Hl Hwf Hpanels.
  intros Hkb Hk Hp Hnul Hfind Hrows.
  rewrite tree_do_search_unfold. unfold edit_search_buffer.
  rewrite (proj2 (Z.eqb_neq 0 KEY_BACKSPACE)) by lia.
  rewrite andb_false_r. cbn [Z.eqb negb andb]. rewrite bind_mret.
  unfold tree_do_search_scan. rewrite set_search_buffer_same.
  destruct (search_tree_outcome ts l Hl g t (search_buffer t) k p Hk Hp Hnul)
    as (t1 & found & Hrun & Hbuf1 & _ & Hcases).
  destruct (search_tree_window ts l Hl g t (search_buffer t) k p t1 found Hk Hp Hrun)
    as [Hlines1 Hpanel1].
  rewrite Hrun.
  destruct Hcases as [(-> & j' & q' & Hfind' & Ht1)|(-> & _ & Hnone)].
  - rewrite bind_Done. cbn beta iota. rewrite ?bind_Done.
    rewrite Hfind in Hfind'. injection Hfind' as <- <-.
    assert (selected_ptr t1 = Some q) as Hsel1 by (rewrite Ht1; by rewrite selected_check_focus).
    apply list_find_Some in Hfind as (Hq%list_elem_of_lookup_2 & _).
    apply scan_order_elem in Hq.
    destruct (redraw_notify_done t1) as (t' & evs & -> & (Hs & Hb & _) & _);
      [by exists q|by rewrite (tlines_window g t t1)|].
    exists t', evs. split; [done|]. by rewrite Hs, Hb.
  - apply list_find_Some in Hfind as (Hq%list_elem_of_lookup_2 & Hmq & _).
    apply scan_order_elem in Hq. by destruct (Hnone q Hq).
Qed.

Lemma scan_order_full (l0 : list positive) : scan_order l0 (length l0) = scan_order l0 0.
Proof.
  unfold scan_order. by rewrite drop_all, firstn_all, drop_0, take_0, app_nil_r.
Qed.

Lemma search_next t k p :
  KEY_BACKSPACE ≠ 0 → searching t = true →
  l !! k = Some p → selected_ptr t = Some p → nul_free (search_buffer t) →
  (∃ r, r ∈ l ∧ prefix_match ts (search_buffer t) r) →
  0 ≤ tlines g t →
  ∃ t' evs j q,
    mc_tree_cmd_search_begin KEY_BACKSPACE MC_MAXFILENAMELEN PATH_SEP vfs_path_equal
      vfs_path_equal_len vfs_path_len is_idle change_panel do_cd ts g t = Done (t', evs) ∧
    list_find (prefix_match ts (search_buffer t)) (scan_order_selection_last l k) = Some (j, q) ∧
    selected_ptr t' = Some q ∧ search_buffer t' = search_buffer t.
Proof using Hl Hwf Hpanels.
  intros Hkb Hsrch Hk Hp Hnul (r & Hr & Hmr) Hrows.
  pose proof (lookup_lt_Some _ _ _ Hk) as Hlen.
  destruct (list_find_elem_of (prefix_match ts (search_buffer t))
              (scan_order_selection_last l k) r) as [[j q] Hfind]; [|done|].
  { change (scan_order_selection_last l k) with (scan_order l (S k)). by apply scan_order_elem. }
  unfold mc_tree_cmd_search_begin. rewrite Hsrch, Hp, (linked_last ts l Hl).
  destruct (decide (k = pred (length l))) as [Hlast|Hnot].
  - rewrite <- Hlast, Hk, ptr_eqb_refl, bind_mret.
    destruct (lookup_lt_is_Some_2 l 0%nat) as [f Hf]; [lia|].
    destruct (tree_do_search_no_key (tree_move_to_top ts t) 0 f j q Hkb Hf) as
      (t' & evs & -> & Hs & Hb); [| done | |done| ].
    { unfold tree_move_to_top. cbn. by rewrite (linked_first ts l Hl). }
    { cbn. rewrite <- scan_order_full.
      replace (length l) with (S k) by lia. exact Hfind. }
    by exists t', evs, j, q.
  - destruct (lookup_lt_is_Some_2 l (pred (length l))) as [z Hz]; [lia|].
    rewrite Hz, ptr_eqb_ne; last first.
    { intros [= ->]. pose proof (linked_index_inj ts l Hl _ _ _ Hk Hz). lia. }
    destruct (tree_move_forward_flat ts l (MkGlobals false (xtree_mode g) (show_mini_info g))
                t k p 1 Hl Hk Hp eq_refl) as (q1 & Hq1 & ->).
    replace (k + (length l - 1 - k) `min` Z.to_nat 1)%nat with (S k) in Hq1 by lia.
    rewrite bind_Done.
    match goal with |- context [do_search ?t1 0] => set (t1' := t1) end.
    destruct (tree_do_search_no_key t1' (S k) q1 j q Hkb Hq1) as (t' & evs & -> & Hs & Hb).
    { unfold t1'. by rewrite selected_check_focus. }
    { unfold t1'. by rewrite buffer_check_focus. }
    { unfold t1'. rewrite buffer_check_focus. exact Hfind. }
    { rewrite (tlines_window g t t1'); [done|unfold t1'; window..]. }
    exists t', evs, j, q. split; [done|]. split; [done|]. split; [done|].
    rewrite Hb. unfold t1'. by rewrite buffer_check_focus.
Qed.
End Typing.

(** X10: while a search is on, the buffer is always the start of the display
    name of the selected record: entering search mode empties the buffer,
    and every key then passed to [tree_do_search], as long as the buffer
    has room for one more character, returns and leaves the buffer a
    prefix of the name of a record of the store, which is selected.  The
    window has no negative number of rows, and the collaborators that
    act on the other panel return and leave the selection and the buffer
    alone. *)
Theorem typing_keeps_buffer_on_selection (KEY_BACKSPACE MC_MAXFILENAMELEN : Z)
    (PATH_SEP : ascii) (vfs_path_equal : string → string → bool)
    (vfs_path_equal_len : string → string → Z → bool) (vfs_path_len : string → Z)
    (is_idle : bool)
    (change_panel : TreeStore → Globals → WTree → outcome WTree)
    (do_cd : TreeStore → Globals → WTree → string → outcome WTree)
    (ts : TreeStore) (l : list positive) (g : Globals) :
  leaves_selection change_panel do_cd →
  linked ts l →
  (tree_navigation_flag g = true → paths_wf PATH_SEP ts l) →
  (∀ t, selects l t → searching t = false →
     ∃ t', mc_tree_cmd_search_begin KEY_BACKSPACE MC_MAXFILENAMELEN PATH_SEP vfs_path_equal
             vfs_path_equal_len vfs_path_len is_idle change_panel do_cd ts g t
           = Done (t', []) ∧
           search_inv ts l t' ∧ searching t' = true ∧ search_buffer t' = EmptyString) ∧
  (∀ t keys,
     search_inv ts l t →
     strlen (search_buffer t) + Z.of_nat (length keys) < MC_MAXFILENAMELEN →
     0 ≤ tlines g t →
     ∃ t', type_keys KEY_BACKSPACE MC_MAXFILENAMELEN PATH_SEP vfs_path_equal
             vfs_path_equal_len vfs_path_len is_idle change_panel do_cd ts g t keys
           = Done t' ∧
           search_inv ts l t' ∧
           strlen (search_buffer t') ≤ strlen (search_buffer t) + Z.of_nat (length keys)).
Proof.
  intros Hpanels Hl Hwf. split.
  - intros t (p & Hp & Hin) Hoff. unfold mc_tree_cmd_search_begin. rewrite Hoff.
    eexists. split; [reflexivity|]. split; [|done].
    split; [exact I|]. exists p. split; [exact Hp|]. split; [exact Hin|].
    unfold prefix_match. by destruct (display_name ts p).
  - intros t keys. by apply type_keys_inv.
Qed.

Lemma typing_keeps_buffer_on_selection_witness :
  ∃ t', Sample.type_keys store3 xtree_flat_mode (Sample.searching_panel_at 1 10)
          [97; 263; 97; 98; 113; 263] = Done t' ∧
        search_inv store3 [1; 2; 3]%positive t'.
Proof.
  destruct (typing_keeps_buffer_on_selection Sample.KEY_BACKSPACE Sample.MC_MAXFILENAMELEN
              Sample.PATH_SEP Sample.vfs_path_equal Sample.vfs_path_equal_len
              Sample.vfs_path_len Sample.is_idle Sample.change_panel Sample.do_cd
              store3 [1; 2; 3]%positive xtree_flat_mode
              leaves_selection_sample linked_store3) as [_ H].
  - discriminate.
  - destruct (H (Sample.searching_panel_at 1 10) [97; 263; 97; 98; 113; 263])
      as (t' & Hrun & Hinv & _).
    + split; [exact I|]. exists 1%positive. split; [reflexivity|].
      split; [by apply (bool_decide_unpack _)|reflexivity].
    + by vm_compute.
    + by vm_compute.
    + exists t'. split; [exact Hrun|exact Hinv].
Defined.

(** X11: backspace in a search: with a buffer that is not empty and is the
    start of the name of the selected record, [tree_do_search] drops the
    last character of the buffer and leaves the selection where it is.
    The window has no negative number of rows, and the collaborators
    that act on the other panel return and leave the selection and the
    buffer alone. *)
Theorem backspace_keeps_selection (KEY_BACKSPACE MC_MAXFILENAMELEN : Z)
    (PATH_SEP : ascii) (vfs_path_equal : string → string → bool)
    (vfs_path_equal_len : string → string → Z → bool) (vfs_path_len : string → Z)
    (is_idle : bool)
    (change_panel : TreeStore → Globals → WTree → outcome WTree)
    (do_cd : TreeStore → Globals → WTree → string → outcome WTree)
    (ts : TreeStore) (l : list positive) (g : Globals) (t : WTree) :
  leaves_selection change_panel do_cd →
  linked ts l →
  (tree_navigation_flag g = true → paths_wf PATH_SEP ts l) →
  0 ≤ tlines g t →
  search_inv ts l t → search_buffer t ≠ EmptyString →
  ∃ t' evs, tree_do_search KEY_BACKSPACE MC_MAXFILENAMELEN PATH_SEP vfs_path_equal
              vfs_path_equal_len vfs_path_len is_idle change_panel do_cd
              ts g t KEY_BACKSPACE = Done (t', evs) ∧
            search_buffer t' = truncate (String.length (search_buffer t) - 1) (search_buffer t) ∧
            selected_ptr t' = selected_ptr t.
Proof.
  intros Hpanels Hl Hwf Hrows (Hnul & p & Hp & Hin & Hm) Hne.
  destruct (tree_do_search_backspace KEY_BACKSPACE MC_MAXFILENAMELEN PATH_SEP vfs_path_equal
              vfs_path_equal_len vfs_path_len is_idle change_panel do_cd Hpanels
              ts l Hl g Hwf t p Hp Hin Hnul Hm Hne Hrows)
    as (t' & evs & Hrun & Hb & Hs).
  exists t', evs. split; [exact Hrun|]. split; [exact Hb|congruence].
Qed.

Lemma backspace_keeps_selection_witness :
  ∃ t' evs, Sample.tree_do_search store3 xtree_flat_mode (Sample.searching_a_panel_at 2 10) 263
              = Done (t', evs) ∧
            search_buffer t' = EmptyString ∧ selected_ptr t' = Some 2%positive.
Proof.
  apply (backspace_keeps_selection Sample.KEY_BACKSPACE Sample.MC_MAXFILENAMELEN
           Sample.PATH_SEP Sample.vfs_path_equal Sample.vfs_path_equal_len
           Sample.vfs_path_len Sample.is_idle Sample.change_panel Sample.do_cd
           store3 [1; 2; 3]%positive xtree_flat_mode
           (Sample.searching_a_panel_at 2 10) leaves_selection_sample linked_store3).
  - discriminate.
  - by vm_compute.
  - split; [by vm_compute|]. exists 2%positive. split; [reflexivity|].
    split; [by apply (bool_decide_unpack _)|reflexivity].
  - discriminate.
Defined.

(** X12: looking for the next match: in search mode, when some display name
    starts with the buffer, [mc_tree_cmd_search_begin] selects the first
    such record among those after the selection, then those from the
    start of the list up to the selection itself, which comes last; the
    buffer stays as it is.  The window has no negative number of rows,
    and the collaborators that act on the other panel return and leave
    the selection and the buffer alone. *)
Theorem search_next_selects_following_match (KEY_BACKSPACE MC_MAXFILENAMELEN : Z)
    (PATH_SEP : ascii) (vfs_path_equal : string → string → bool)
    (vfs_path_equal_len : string → string → Z → bool) (vfs_path_len : string → Z)
    (is_idle : bool)
    (change_panel : TreeStore → Globals → WTree → outcome WTree)
    (do_cd : TreeStore → Globals → WTree → string → outcome WTree)
    (ts : TreeStore) (l : list positive) (g : Globals) (t : WTree)
    (k : nat) (p : positive) :
  leaves_selection change_panel do_cd →
  linked ts l →
  (tree_navigation_flag g = true → paths_wf PATH_SEP ts l) →
  0 ≤ tlines g t →
  KEY_BACKSPACE ≠ 0 → searching t = true →
  l !! k = Some p → selected_ptr t = Some p → nul_free (search_buffer t) →
  (∃ r, r ∈ l ∧ prefix_match ts (search_buffer t) r) →
  ∃ t' evs j q,
    mc_tree_cmd_search_begin KEY_BACKSPACE MC_MAXFILENAMELEN PATH_SEP vfs_path_equal
      vfs_path_equal_len vfs_path_len is_idle change_panel do_cd ts g t = Done (t', evs) ∧
    list_find (prefix_match ts (search_buffer t)) (scan_order_selection_last l k) = Some (j, q) ∧
    selected_ptr t' = Some q ∧ search_buffer t' = search_buffer t.
Proof.
  intros Hpanels Hl Hwf Hrows Hkb Hsrch Hk Hp Hnul Hsome.
  exact (search_next KEY_BACKSPACE MC_MAXFILENAMELEN PATH_SEP vfs_path_equal
           vfs_path_equal_len vfs_path_len is_idle change_panel do_cd Hpanels
           ts l Hl g Hwf t k p Hkb Hsrch Hk Hp Hnul Hsome Hrows).
Qed.

Lemma search_next_selects_following_match_witness :
  ∃ t' evs, Sample.mc_tree_cmd_search_begin store3 xtree_flat_mode
              (Sample.searching_a_panel_at 2 10) = Done (t', evs) ∧
            selected_ptr t' = Some 3%positive ∧ search_buffer t' = "a"%string.
Proof.
  destruct (search_next_selects_following_match Sample.KEY_BACKSPACE Sample.MC_MAXFILENAMELEN
              Sample.PATH_SEP Sample.vfs_path_equal Sample.vfs_path_equal_len
              Sample.vfs_path_len Sample.is_idle Sample.change_panel Sample.do_cd
              store3 [1; 2; 3]%positive xtree_flat_mode
              (Sample.searching_a_panel_at 2 10) 1 2%positive
              leaves_selection_sample linked_store3)
    as (t' & evs & j & q & Hrun & Hfind & Hsel & Hbuf).
  - discriminate.
  - by vm_compute.
  - discriminate.
  - reflexivity.
  - reflexivity.
  - reflexivity.
  - by vm_compute.
  - exists 2%positive. split; [by apply (bool_decide_unpack _)|reflexivity].
  - exists t', evs. split; [exact Hrun|]. split; [|exact Hbuf].
    rewrite Hsel. vm_compute in Hfind. by injection Hfind as _ <-.
Defined.

(** ** The removal hook over a series of removals *)

Lemma run_remove_hooks_reseats (l l' : list positive)
    (hooks : list (TreeStore * positive)) (t : WTree) :
  removals l hooks l' → selects l t →
  ∃ q, run_remove_hooks hooks t = Done (set_selected_ptr (Some q) t) ∧ q ∈ l'.
Proof.
  intros Hrem. revert t.
  induction Hrem as [l|l ts k e rest l' Hl Hk Hlen Hrem IH]; intros t Hsel.
  - destruct Hsel as (p & Hp & Hin). exists p. split; [|done].
    cbn. by rewrite <- Hp, set_selected_ptr_same.
  - cbn [run_remove_hooks].
    destruct (remove_callback_keeps_selection ts l k e t Hl Hk Hlen Hsel) as (q & -> & Hq).
    rewrite bind_Done.
    destruct (IH (set_selected_ptr (Some q) t)) as (r & -> & Hr); [by exists q|].
    by exists r.
Qed.

(** X13: whatever records the store removes, one after the other and without
    ever emptying itself, the hook leaves the selection on a record that
    is still in the list when the removals are over, and changes nothing
    else in the view. *)
Theorem removal_hooks_keep_selection (l l' : list positive)
    (hooks : list (TreeStore * positive)) (t : WTree) :
  removals l hooks l' → selects l t →
  ∃ q, run_remove_hooks hooks t = Done (set_selected_ptr (Some q) t) ∧ q ∈ l'.
Proof. apply run_remove_hooks_reseats. Qed.

Lemma removal_hooks_keep_selection_witness :
  ∃ q, run_remove_hooks [(store5, 5%positive)] (view_at 5 10)
         = Done (set_selected_ptr (Some q) (view_at 5 10)) ∧
       q ∈ [1; 2; 3; 4]%positive.
Proof.
  apply (removal_hooks_keep_selection [1; 2; 3; 4; 5]%positive).
  - apply (removals_cons _ store5 4 5%positive);
      [apply linked_store5|reflexivity|simpl; lia|constructor].
  - exists 5%positive. split; [reflexivity|]. by apply (bool_decide_unpack _).
Defined.

(** ** What drawing does to the scroll offset *)

Section Drawing.
Context (PATH_SEP : ascii).
Context (vfs_path_equal : string → string → bool).
Context (vfs_path_equal_len : string → string → Z → bool).
Context (vfs_path_len : string → Z).
Context (ts : TreeStore) (l : list positive) (Hl : linked ts l).

Local Abbreviation top_loop :=
  (show_tree_top_loop PATH_SEP vfs_path_equal vfs_path_equal_len vfs_path_len ts).
Local Abbreviation redraw :=
  (show_tree PATH_SEP vfs_path_equal vfs_path_equal_len vfs_path_len ts).

Lemma show_tree_top_loop_bounds fuel ks ps kc pc i td :
  paths_wf PATH_SEP ts l →
  l !! ks = Some ps → l !! kc = Some pc → (kc ≤ fuel)%nat →
  ∃ i', top_loop fuel (Some ps) (Some pc) i td = Done i' ∧
        i ≤ i' ≤ Z.max i td ∧ i' - i ≤ Z.of_nat kc.
Proof using Hl.
  intros Hwf Hs. revert kc pc i.
  induction fuel as [|fuel IH]; intros kc pc i Hc Hfuel;
    rewrite show_tree_top_loop_eq;
    destruct (linked_deref ts l Hl kc pc Hc) as (c & -> & _ & _ & Hpv);
    rewrite bind_Done, Hpv;
    (destruct kc as [|kc]; cbn [before]; [exists i; split; [done|lia]|]); [lia|].
  pose proof (lookup_lt_Some _ _ _ Hc).
  destruct (lookup_lt_is_Some_2 l kc) as [q Hq]; [lia|]. rewrite Hq.
  destruct (Z.ltb_spec i td); [|exists i; split; [done|lia]].
  destruct (linked_deref ts l Hl kc q Hq) as (n & -> & Hn & _).
  destruct (linked_deref ts l Hl ks ps Hs) as (s & -> & _).
  rewrite !bind_Done.
  assert (∀ b : bool, ∃ i', top_loop fuel (Some ps) (Some q) (if b then i + 1 else i) td
                              = Done i' ∧ i ≤ i' ≤ Z.max i td ∧ i' - i ≤ Z.of_nat (S kc)) as Hnext.
  { intros b. destruct (IH kc q (if b then i + 1 else i) Hq) as (i' & -> & Hb1 & Hb2); [lia|].
    exists i'. split; [done|]. destruct b; lia. }
  destruct (sublevel n <? sublevel s); [apply Hnext|].
  destruct (sublevel n =? sublevel s); [|apply Hnext].
  destruct (Hwf q n) as [j ->]; [by eapply list_elem_of_lookup_2|done|].
  apply Hnext.
Qed.

Lemma show_tree_spec g t k p :
  l !! k = Some p → selected_ptr t = Some p →
  (tree_navigation_flag g = true → paths_wf PATH_SEP ts l) →
  0 ≤ tlines g t →
  ∃ td, redraw g t = Done (set_topdiff td t) ∧
        0 ≤ td ≤ Z.max 0 (topdiff t) ∧ td ≤ Z.of_nat k ∧
        (tree_navigation_flag g = false →
           td = Z.of_nat (k `min` Z.to_nat (topdiff t)) ∧
           redraw g (set_topdiff td t) = Done (set_topdiff td t)).
Proof using Hl.
  intros Hk Hsel Hwf Hrows.
  pose proof (lookup_lt_Some _ _ _ Hk) as Hlen.
  assert (∀ td, redraw g (set_topdiff td t) =
     (td' ← (if negb (tree_navigation_flag g)
             then '(_, td') ← back_ptr ts (Some p) td; mret td'
             else top_loop (store_fuel ts) (Some p) (Some p) 0 td);
      mret (set_topdiff td' t))) as Hunfold.
  { intros td. unfold show_tree.
    change (tlines g (set_topdiff td t)) with (tlines g t).
    rewrite (proj2 (Z.ltb_ge (tlines g t) 0)) by done.
    rewrite (linked_first ts l Hl).
    destruct (lookup_lt_is_Some_2 l 0%nat) as [f Hf]; [lia|]. rewrite Hf.
    destruct (linked_deref ts l Hl 0%nat f Hf) as (ef & -> & _).
    rewrite !bind_Done. cbn [set_topdiff selected_ptr topdiff]. rewrite Hsel.
    change (selected_ptr (set_topdiff td t)) with (selected_ptr t).
    change (topdiff (set_topdiff td t)) with td. rewrite Hsel.
    destruct (if negb (tree_navigation_flag g) then _ else _) as [td'| |]; [|done..].
    rewrite !bind_Done.
    change (is_panel (set_topdiff td' (set_topdiff td t))) with (is_panel t).
    change (searching (set_topdiff td' (set_topdiff td t))) with (searching t).
    destruct (is_panel t && negb (show_mini_info g)); [done|].
    destruct (searching t); [done|].
    destruct (linked_deref ts l Hl k p Hk) as (e & -> & _). done. }
  pose proof (Hunfold (topdiff t)) as Hfirst. rewrite set_topdiff_same in Hfirst.
  rewrite Hfirst. clear Hfirst.
  destruct (tree_navigation_flag g) eqn:Hnav; cbn [negb].
  - destruct (show_tree_top_loop_bounds (store_fuel ts) k p k p 0 (topdiff t))
      as (td & -> & Hb1 & Hb2); [by apply Hwf|done|done| |].
    { pose proof (linked_fuel ts l Hl). lia. }
    rewrite bind_Done. exists td. split; [done|]. split; [lia|]. split; [lia|done].
  - rewrite (back_ptr_spec ts l Hl k p (topdiff t) Hk), !bind_Done.
    eexists. split; [reflexivity|]. split; [lia|]. split; [lia|]. intros _.
    split; [reflexivity|]. rewrite Hunfold. cbn [negb].
    rewrite (back_ptr_spec ts l Hl k p _ Hk), !bind_Done.
    unfold mret, outcome_ret. do 2 f_equal. lia.
Qed.
End Drawing.

(** X14: drawing corrects the scroll offset and nothing else: on a window
    that has no negative number of rows [show_tree] returns the view with
    a [topdiff] that is not negative, not above the old one, and not above
    the number of records before the selection.  In flat mode it is the
    smaller of that number and the old offset, and drawing a second time
    changes nothing.  A window with a negative number of rows cannot be
    drawn. *)
Theorem show_tree_corrects_topdiff (PATH_SEP : ascii)
    (vfs_path_equal : string → string → bool)
    (vfs_path_equal_len : string → string → Z → bool) (vfs_path_len : string → Z)
    (ts : TreeStore) (l : list positive) (g : Globals) (t : WTree) (k : nat) (p : positive) :
  linked ts l → l !! k = Some p → selected_ptr t = Some p →
  (tree_navigation_flag g = true → paths_wf PATH_SEP ts l) →
  (0 ≤ tlines g t →
   ∃ td, show_tree PATH_SEP vfs_path_equal vfs_path_equal_len vfs_path_len ts g t
           = Done (set_topdiff td t) ∧
         0 ≤ td ≤ Z.max 0 (topdiff t) ∧ td ≤ Z.of_nat k ∧
         (tree_navigation_flag g = false →
            td = Z.of_nat (k `min` Z.to_nat (topdiff t)) ∧
            show_tree PATH_SEP vfs_path_equal vfs_path_equal_len vfs_path_len ts g
              (set_topdiff td t) = Done (set_topdiff td t))) ∧
  (tlines g t < 0 →
   show_tree PATH_SEP vfs_path_equal vfs_path_equal_len vfs_path_len ts g t = Fault).
Proof.
  intros Hl Hk Hp Hwf. split.
  - intros Hrows.
    exact (show_tree_spec PATH_SEP vfs_path_equal vfs_path_equal_len vfs_path_len
             ts l Hl g t k p Hk Hp Hwf Hrows).
  - intros Hneg. unfold show_tree. by rewrite (proj2 (Z.ltb_lt (tlines g t) 0)).
Qed.

Lemma show_tree_corrects_topdiff_witness :
  ∃ td, show_tree Sample.PATH_SEP Sample.vfs_path_equal Sample.vfs_path_equal_len
          Sample.vfs_path_len store4 flat_mode (view_at 2 10) = Done (set_topdiff td (view_at 2 10)) ∧
        td ≤ 1.
Proof.
  destruct (show_tree_corrects_topdiff Sample.PATH_SEP Sample.vfs_path_equal
              Sample.vfs_path_equal_len Sample.vfs_path_len store4 [1; 2; 3; 4]%positive
              flat_mode (view_at 2 10) 1 2%positive linked_store4 eq_refl eq_refl)
    as [Hdraw _].
  - discriminate.
  - destruct Hdraw as (td & Hrun & _ & Hk & _); [by vm_compute|].
    exists td. split; [exact Hrun|exact Hk].
Defined.

(** ** The handlers of the movement events *)

Section MovementHandlers.
Context (PATH_SEP : ascii).
Context (vfs_path_equal : string → string → bool).
Context (vfs_path_equal_len : string → string → Z → bool).
Context (vfs_path_len : string → Z).
Context (is_idle : bool).
Context (change_panel : TreeStore → Globals → WTree → outcome WTree).
Context (do_cd : TreeStore → Globals → WTree → string → outcome WTree).
Context (Hpanels : leaves_selection change_panel do_cd).
Context (ts : TreeStore) (l : list positive) (Hl : linked ts l).
Context (g : Globals).
Context (Hwf : tree_navigation_flag g = true → paths_wf PATH_SEP ts l).

Local Abbreviation redraw :=
  (show_tree PATH_SEP vfs_path_equal vfs_path_equal_len vfs_path_len ts g).
Local Abbreviation notify :=
  (maybe_chdir PATH_SEP vfs_path_equal vfs_path_equal_len vfs_path_len is_idle
     change_panel do_cd ts g).

(** Drawing, then letting the other panel follow: the selection stays,
    only "enter" can be raised, and when the other panel does not follow
    only [topdiff] has changed. *)
Lemma redraw_notify_spec t k p :
  l !! k = Some p → selected_ptr t = Some p → 0 ≤ tlines g t →
  ∃ td t' evs, (t2 ← redraw t; notify t2) = Done (t', evs) ∧
               same_selection t t' ∧
               0 ≤ td ≤ Z.max 0 (topdiff t) ∧ td ≤ Z.of_nat k ∧
               (tree_navigation_flag g = false →
                  td = Z.of_nat (k `min` Z.to_nat (topdiff t))) ∧
               (evs = [] ∨ evs = [EvEnter]) ∧
               (xtree_mode g && is_panel t && is_idle = false →
                  t' = set_topdiff td t ∧ evs = []).
Proof using Hl Hwf Hpanels.
  intros Hk Hp Hrows.
  destruct (show_tree_spec PATH_SEP vfs_path_equal vfs_path_equal_len vfs_path_len
              ts l Hl g t k p Hk Hp Hwf Hrows) as (td & Hrun & Hb & Hkb & Hflat).
  rewrite Hrun, bind_Done.
  destruct (maybe_chdir_frame PATH_SEP vfs_path_equal vfs_path_equal_len vfs_path_len is_idle
              change_panel do_cd ts l g (set_topdiff td t) Hpanels Hl)
    as (t' & evs & -> & Hsame & Hev & Hquiet); [|done|done|].
  { exists p. split; [done|]. by eapply list_elem_of_lookup_2. }
  exists td, t', evs. split; [done|]. split; [exact Hsame|].
  split; [done|]. split; [done|]. split; [intros Hf; by destruct (Hflat Hf)|].
  split; [|exact Hquiet]. destruct Hev as [[-> _] | ->]; [by left|by right].
Qed.

Lemma goto_home_spec t :
  l ≠ [] → 0 ≤ tlines g t →
  ∃ t' evs, mc_tree_cmd_goto_home PATH_SEP vfs_path_equal vfs_path_equal_len vfs_path_len
              is_idle change_panel do_cd ts g t = Done (t', evs) ∧
            selected_ptr t' = head l ∧
            (xtree_mode g && is_panel t && is_idle = false →
               t' = set_topdiff 0 (set_selected_ptr (head l) t) ∧ evs = []).
Proof using Hl Hwf Hpanels.
  intros Hne Hrows. unfold mc_tree_cmd_goto_home, tree_move_to_top.
  rewrite (linked_first ts l Hl), head_lookup.
  destruct (l !! 0%nat) as [f|] eqn:Hf.
  2:{ destruct l; [done|discriminate]. }
  destruct (redraw_notify_spec (set_topdiff 0 (set_selected_ptr (Some f) t)) 0 f Hf eq_refl)
    as (td & t' & evs & -> & (Hs & _) & Hb & _ & _ & _ & Hquiet); [done|].
  change (topdiff (set_topdiff 0 (set_selected_ptr (Some f) t))) with 0 in Hb.
  assert (td = 0) as -> by lia.
  exists t', evs. split; [done|]. split; [exact Hs|exact Hquiet].
Qed.

Lemma goto_end_spec t :
  l ≠ [] → 0 ≤ tlines g t →
  ∃ t' evs,
    mc_tree_cmd_goto_end PATH_SEP vfs_path_equal vfs_path_equal_len vfs_path_len
      is_idle change_panel do_cd ts g t = Done (t', evs) ∧
    selected_ptr t' = last l ∧
    (xtree_mode g && is_panel t && is_idle = false →
       evs = [] ∧
       ∃ td, t' = set_topdiff td (set_selected_ptr (last l) t) ∧
             0 ≤ td ≤ Z.max 0 (tlines g t - 4) ∧ td < Z.of_nat (length l) ∧
             (tree_navigation_flag g = false →
                td = Z.of_nat ((length l - 1) `min` Z.to_nat (tlines g t - 4)))).
Proof using Hl Hwf Hpanels.
  intros Hne Hrows. unfold mc_tree_cmd_goto_end, tree_move_to_bottom.
  rewrite (linked_last ts l Hl), last_lookup.
  assert (0 < length l)%nat as Hlen by (destruct l; [done|simpl; lia]).
  destruct (lookup_lt_is_Some_2 l (pred (length l))) as [e He]; [lia|]. rewrite He.
  destruct (redraw_notify_spec
              (set_topdiff (tlines g t - 3 - 1) (set_selected_ptr (Some e) t))
              (pred (length l)) e He eq_refl)
    as (td & t' & evs & -> & (Hs & _) & Hb & Hk & Hflat & _ & Hquiet); [done|].
  change (topdiff (set_topdiff (tlines g t - 3 - 1) (set_selected_ptr (Some e) t)))
    with (tlines g t - 3 - 1) in *.
  exists t', evs. split; [reflexivity|]. split; [exact Hs|].
  intros Hq. destruct (Hquiet Hq) as [-> ->]. split; [done|].
  exists td. split; [reflexivity|]. split; [lia|]. split; [lia|].
  intros Hf. rewrite (Hflat Hf). f_equal. f_equal; [lia|f_equal; lia].
Qed.

(** A movement in flat mode, drawn. *)
Lemma forward_handler_flat t k p i :
  tree_navigation_flag g = false → l !! k = Some p → selected_ptr t = Some p →
  0 ≤ tlines g t →
  let m := ((length l - 1 - k) `min` Z.to_nat i)%nat in
  ∃ t' evs, (t1 ← tree_move_forward ts g t i; t2 ← redraw t1; notify t2) = Done (t', evs) ∧
            selected_ptr t' = l !! (k + m)%nat ∧
            (xtree_mode g && is_panel t && is_idle = false →
               evs = [] ∧
               shows_at l (k + m) (clamp (tlines g t) (topdiff t + Z.of_nat m)) t').
Proof using Hl Hwf Hpanels.
  intros Hf Hk Hp Hrows m.
  destruct (tree_move_forward_flat ts l g t k p i Hl Hk Hp Hf) as (q & Hq & ->).
  rewrite bind_Done. fold m in Hq |- *.
  set (t1 := tree_check_focus g _).
  assert (selected_ptr t1 = Some q) as Hsel1 by (unfold t1; by rewrite selected_check_focus).
  assert (is_panel t1 = is_panel t) as Hpanel1 by (unfold t1; window).
  assert (tlines g t1 = tlines g t) as Hrows1
    by (apply tlines_window; unfold t1; window).
  destruct (redraw_notify_spec t1 (k + m)%nat q Hq Hsel1)
    as (td & t' & evs & -> & (Hs & _) & _ & _ & Hflat & _ & Hquiet); [lia|].
  exists t', evs. split; [reflexivity|]. split; [by rewrite Hs, Hsel1, Hq|].
  intros Hq'. rewrite <- Hpanel1 in Hq'. destruct (Hquiet Hq') as [-> ->].
  split; [done|]. split.
  - change (selected_ptr (set_topdiff td t1)) with (selected_ptr t1). by rewrite Hsel1, Hq.
  - change (topdiff (set_topdiff td t1)) with td. rewrite (Hflat Hf).
    unfold t1. by rewrite topdiff_check_focus.
Qed.

Lemma backward_handler_flat t k p i :
  tree_navigation_flag g = false → l !! k = Some p → selected_ptr t = Some p →
  0 ≤ tlines g t →
  let m := (k `min` Z.to_nat i)%nat in
  ∃ t' evs, (t1 ← tree_move_backward ts g t i; t2 ← redraw t1; notify t2) = Done (t', evs) ∧
            selected_ptr t' = l !! (k - m)%nat ∧
            (xtree_mode g && is_panel t && is_idle = false →
               evs = [] ∧
               shows_at l (k - m) (clamp (tlines g t) (topdiff t - Z.of_nat m)) t').
Proof using Hl Hwf Hpanels.
  intros Hf Hk Hp Hrows m.
  destruct (tree_move_backward_flat ts l g t k p i Hl Hk Hp Hf) as (q & Hq & ->).
  rewrite bind_Done. fold m in Hq |- *.
  set (t1 := tree_check_focus g _).
  assert (selected_ptr t1 = Some q) as Hsel1 by (unfold t1; by rewrite selected_check_focus).
  assert (is_panel t1 = is_panel t) as Hpanel1 by (unfold t1; window).
  assert (tlines g t1 = tlines g t) as Hrows1
    by (apply tlines_window; unfold t1; window).
  destruct (redraw_notify_spec t1 (k - m)%nat q Hq Hsel1)
    as (td & t' & evs & -> & (Hs & _) & _ & _ & Hflat & _ & Hquiet); [lia|].
  exists t', evs. split; [reflexivity|]. split; [by rewrite Hs, Hsel1, Hq|].
  intros Hq'. rewrite <- Hpanel1 in Hq'. destruct (Hquiet Hq') as [-> ->].
  split; [done|]. split.
  - change (selected_ptr (set_topdiff td t1)) with (selected_ptr t1). by rewrite Hsel1, Hq.
  - change (topdiff (set_topdiff td t1)) with td. rewrite (Hflat Hf).
    unfold t1. by rewrite topdiff_check_focus.
Qed.

Lemma goto_left_spec t k p :
  l !! k = Some p → selected_ptr t = Some p → 0 ≤ tlines g t →
  ∃ t' b evs,
    mc_tree_cmd_goto_left PATH_SEP vfs_path_equal vfs_path_equal_len vfs_path_len
      is_idle change_panel do_cd ts g t = Done (t', b, evs) ∧
    (b = true ↔ tree_navigation_flag g = true ∧ k ≠ 0%nat) ∧
    (tree_navigation_flag g = false → t' = t ∧ evs = []) ∧
    ∃ k' q, l !! k' = Some q ∧ selected_ptr t' = Some q ∧ (k' ≤ k)%nat ∧
            (b = true → (k' < k)%nat).
Proof using Hl Hwf Hpanels.
  intros Hk Hp Hrows. unfold mc_tree_cmd_goto_left.
  pose proof redraw_notify_spec as Hdrawn.
  destruct (tree_navigation_flag g) eqn:Hnav.
  - destruct (tree_move_to_parent_index ts l Hl g t k p Hk Hp)
      as (k' & q & t1 & Hpar & Hq & Hsel1 & Hle).
    assert (tlines g t1 = tlines g t) as Hrows1.
    { rewrite (tree_move_to_parent_spec ts l Hl g t k p Hk Hp) in Hpar.
      injection Hpar as <-. apply tlines_window; window. }
    rewrite Hpar, bind_Done. cbn beta iota.
    destruct (Hdrawn t1 k' q Hq Hsel1) as (td & t' & evs & Hrun & (Hs & _) & _); [lia|].
    revert Hrun. destruct (redraw t1) as [t2| |]; [|done..].
    rewrite !bind_Done. intros ->. rewrite bind_Done. cbn beta iota.
    eexists _, _, _. split; [reflexivity|]. split.
    { split; [by intros Hb%bool_decide_eq_true|].
      intros [_ Hne]. by apply bool_decide_eq_true. }
    split; [done|]. exists k', q. split; [done|]. split; [by rewrite Hs|]. split; [lia|].
    intros Hb%bool_decide_eq_true. lia.
  - exists t, false, []. split; [reflexivity|]. split; [split; [done|by intros [? _]]|].
    split; [done|].
    exists k, p. split; [done|]. split; [done|]. split; [lia|done].
Qed.

End MovementHandlers.

Lemma paths_wf_store4 : paths_wf Sample.PATH_SEP store4 [1; 2; 3; 4]%positive.
Proof. intros q e Hq He. each_record_in Hq He. Qed.

(** X17: on a window that has no negative number of rows, and with
    collaborators on the other panel that return and leave the selection
    alone, the handler of "goto_home" selects the first record of the
    list and the handler of "goto_end" the last.  When the other panel
    does not follow the tree (no [xtree_mode], or no panel, or input
    pending), no event is raised and nothing else changes but [topdiff]:
    it is 0 after "goto_home", so the first record is drawn on the top
    row, and after "goto_end" it is neither negative, nor above
    [tlines - 4] (when that is not negative), nor above the number of
    records before the last one; in flat mode it is the smaller of
    [tlines - 4] and that number. *)
Theorem goto_home_end_select_ends (PATH_SEP : ascii)
    (vfs_path_equal : string → string → bool)
    (vfs_path_equal_len : string → string → Z → bool) (vfs_path_len : string → Z)
    (is_idle : bool)
    (change_panel : TreeStore → Globals → WTree → outcome WTree)
    (do_cd : TreeStore → Globals → WTree → string → outcome WTree)
    (ts : TreeStore) (l : list positive) (g : Globals) (t : WTree) :
  leaves_selection change_panel do_cd →
  linked ts l → l ≠ [] →
  (tree_navigation_flag g = true → paths_wf PATH_SEP ts l) →
  0 ≤ tlines g t →
  (∃ t' evs, mc_tree_cmd_goto_home PATH_SEP vfs_path_equal vfs_path_equal_len vfs_path_len
               is_idle change_panel do_cd ts g t = Done (t', evs) ∧
             selected_ptr t' = head l ∧
             (xtree_mode g && is_panel t && is_idle = false →
                t' = set_topdiff 0 (set_selected_ptr (head l) t) ∧ evs = [])) ∧
  (∃ t' evs,
     mc_tree_cmd_goto_end PATH_SEP vfs_path_equal vfs_path_equal_len vfs_path_len
       is_idle change_panel do_cd ts g t = Done (t', evs) ∧
     selected_ptr t' = last l ∧
     (xtree_mode g && is_panel t && is_idle = false →
        evs = [] ∧
        ∃ td, t' = set_topdiff td (set_selected_ptr (last l) t) ∧
              0 ≤ td ≤ Z.max 0 (tlines g t - 4) ∧ td < Z.of_nat (length l) ∧
              (tree_navigation_flag g = false →
                 td = Z.of_nat ((length l - 1) `min` Z.to_nat (tlines g t - 4))))).
Proof.
  intros Hpanels Hl Hne Hwf Hrows. split.
  - by apply goto_home_spec.
  - by apply goto_end_spec.
Qed.

Lemma goto_home_end_select_ends_witness :
  ∃ t' evs, mc_tree_cmd_goto_home Sample.PATH_SEP Sample.vfs_path_equal
              Sample.vfs_path_equal_len Sample.vfs_path_len Sample.is_idle
              Sample.change_panel Sample.do_cd
              store4 xtree_flat_mode (panel_at 3 10) = Done (t', evs) ∧
            selected_ptr t' = Some 1%positive.
Proof.
  destruct (goto_home_end_select_ends Sample.PATH_SEP Sample.vfs_path_equal
              Sample.vfs_path_equal_len Sample.vfs_path_len Sample.is_idle
              Sample.change_panel Sample.do_cd
              store4 [1; 2; 3; 4]%positive xtree_flat_mode (panel_at 3 10)
              leaves_selection_sample linked_store4)
    as [(t' & evs & Hrun & Hsel & _) _].
  - discriminate.
  - discriminate.
  - by vm_compute.
  - exists t', evs. split; [exact Hrun|exact Hsel].
Defined.

(** X18: in flat mode, on a window that has no negative number of rows,
    and with collaborators on the other panel that return and leave the
    selection alone, the handlers of "goto_down", "goto_up",
    "goto_page_down" and "goto_page_up" return, and leave the selection
    1 record, or [tlines - 1] records for a page, further down or up the
    list, or on its last or first record when fewer records are left.
    When the other panel does not follow the tree, no event is raised,
    and the offset of the drawn view is the old one moved by as many rows
    and brought back between 3 and [tlines - 4] as [tree_check_focus]
    does, or the position of the selection in the list when that is
    smaller. *)
Theorem goto_handlers_flat (PATH_SEP : ascii)
    (vfs_path_equal : string → string → bool)
    (vfs_path_equal_len : string → string → Z → bool) (vfs_path_len : string → Z)
    (is_idle : bool)
    (change_panel : TreeStore → Globals → WTree → outcome WTree)
    (do_cd : TreeStore → Globals → WTree → string → outcome WTree)
    (ts : TreeStore) (l : list positive) (g : Globals) (t : WTree)
    (k : nat) (p : positive) :
  leaves_selection change_panel do_cd →
  linked ts l → l !! k = Some p → selected_ptr t = Some p →
  tree_navigation_flag g = false → 0 ≤ tlines g t →
  let rows := tlines g t in
  let quiet := xtree_mode g && is_panel t && is_idle = false in
  let fwd (i : Z) := ((length l - 1 - k) `min` Z.to_nat i)%nat in
  let bwd (i : Z) := (k `min` Z.to_nat i)%nat in
  (∃ t' evs, mc_tree_cmd_goto_down PATH_SEP vfs_path_equal vfs_path_equal_len vfs_path_len
               is_idle change_panel do_cd ts g t = Done (t', evs) ∧
             selected_ptr t' = l !! (k + fwd 1%Z)%nat ∧
             (quiet → evs = [] ∧
                shows_at l (k + fwd 1) (clamp rows (topdiff t + Z.of_nat (fwd 1))) t')) ∧
  (∃ t' evs, mc_tree_cmd_goto_up PATH_SEP vfs_path_equal vfs_path_equal_len vfs_path_len
               is_idle change_panel do_cd ts g t = Done (t', evs) ∧
             selected_ptr t' = l !! (k - bwd 1%Z)%nat ∧
             (quiet → evs = [] ∧
                shows_at l (k - bwd 1) (clamp rows (topdiff t - Z.of_nat (bwd 1))) t')) ∧
  (∃ t' evs, mc_tree_cmd_goto_page_down PATH_SEP vfs_path_equal vfs_path_equal_len
               vfs_path_len is_idle change_panel do_cd ts g t = Done (t', evs) ∧
             selected_ptr t' = l !! (k + fwd (rows - 1)%Z)%nat ∧
             (quiet → evs = [] ∧
                shows_at l (k + fwd (rows - 1))
                  (clamp rows (topdiff t + Z.of_nat (fwd (rows - 1)))) t')) ∧
  (∃ t' evs, mc_tree_cmd_goto_page_up PATH_SEP vfs_path_equal vfs_path_equal_len
               vfs_path_len is_idle change_panel do_cd ts g t = Done (t', evs) ∧
             selected_ptr t' = l !! (k - bwd (rows - 1)%Z)%nat ∧
             (quiet → evs = [] ∧
                shows_at l (k - bwd (rows - 1))
                  (clamp rows (topdiff t - Z.of_nat (bwd (rows - 1)))) t')).
Proof.
  intros Hpanels Hl Hk Hp Hflat Hrows rows quiet fwd bwd.
  assert (tree_navigation_flag g = true → paths_wf PATH_SEP ts l) as Hwf by congruence.
  split; [|split; [|split]].
  - exact (forward_handler_flat PATH_SEP vfs_path_equal vfs_path_equal_len vfs_path_len
             is_idle change_panel do_cd Hpanels ts l Hl g Hwf t k p 1 Hflat Hk Hp Hrows).
  - exact (backward_handler_flat PATH_SEP vfs_path_equal vfs_path_equal_len vfs_path_len
             is_idle change_panel do_cd Hpanels ts l Hl g Hwf t k p 1 Hflat Hk Hp Hrows).
  - exact (forward_handler_flat PATH_SEP vfs_path_equal vfs_path_equal_len vfs_path_len
             is_idle change_panel do_cd Hpanels ts l Hl g Hwf t k p (rows - 1) Hflat Hk Hp Hrows).
  - exact (backward_handler_flat PATH_SEP vfs_path_equal vfs_path_equal_len vfs_path_len
             is_idle change_panel do_cd Hpanels ts l Hl g Hwf t k p (rows - 1) Hflat Hk Hp Hrows).
Qed.

Lemma goto_handlers_flat_witness :
  ∃ t' evs, mc_tree_cmd_goto_page_down Sample.PATH_SEP Sample.vfs_path_equal
              Sample.vfs_path_equal_len Sample.vfs_path_len Sample.is_idle
              Sample.change_panel Sample.do_cd
              store4 flat_mode (view_at 2 10) = Done (t', evs) ∧
            selected_ptr t' = Some 4%positive ∧ evs = [] ∧ topdiff t' = 3.
Proof.
  destruct (goto_handlers_flat Sample.PATH_SEP Sample.vfs_path_equal
              Sample.vfs_path_equal_len Sample.vfs_path_len Sample.is_idle
              Sample.change_panel Sample.do_cd
              store4 [1; 2; 3; 4]%positive flat_mode (view_at 2 10) 1 2%positive
              leaves_selection_sample linked_store4 eq_refl eq_refl eq_refl)
    as (_ & _ & (t' & evs & Hrun & Hsel & Hquiet) & _).
  - by vm_compute.
  - destruct (Hquiet eq_refl) as (Hevs & _ & Htd).
    exists t', evs. split; [exact Hrun|]. split; [exact Hsel|]. split; [exact Hevs|exact Htd].
Defined.

(** X19: on a window that has no negative number of rows, and with
    collaborators on the other panel that return and leave the selection
    alone, the handler of "goto_left" leaves TRUE in
    [event_info->ret->b] exactly when the tree is in navigation mode and
    the selection is not the first record of the list; the selection is
    then on an earlier record.  In flat mode it changes nothing and
    raises nothing. *)
Theorem goto_left_reports_move (PATH_SEP : ascii)
    (vfs_path_equal : string → string → bool)
    (vfs_path_equal_len : string → string → Z → bool) (vfs_path_len : string → Z)
    (is_idle : bool)
    (change_panel : TreeStore → Globals → WTree → outcome WTree)
    (do_cd : TreeStore → Globals → WTree → string → outcome WTree)
    (ts : TreeStore) (l : list positive) (g : Globals) (t : WTree)
    (k : nat) (p : positive) :
  leaves_selection change_panel do_cd →
  linked ts l → l !! k = Some p → selected_ptr t = Some p →
  (tree_navigation_flag g = true → paths_wf PATH_SEP ts l) →
  0 ≤ tlines g t →
  ∃ t' b evs,
    mc_tree_cmd_goto_left PATH_SEP vfs_path_equal vfs_path_equal_len vfs_path_len
      is_idle change_panel do_cd ts g t = Done (t', b, evs) ∧
    (b = true ↔ tree_navigation_flag g = true ∧ k ≠ 0%nat) ∧
    (tree_navigation_flag g = false → t' = t ∧ evs = []) ∧
    ∃ k' q, l !! k' = Some q ∧ selected_ptr t' = Some q ∧ (k' ≤ k)%nat ∧
            (b = true → (k' < k)%nat).
Proof.
  intros Hpanels Hl Hk Hp Hwf Hrows.
  exact (goto_left_spec PATH_SEP vfs_path_equal vfs_path_equal_len vfs_path_len is_idle
           change_panel do_cd Hpanels ts l Hl g Hwf t k p Hk Hp Hrows).
Qed.

Lemma goto_left_reports_move_witness :
  ∃ t' evs k' q,
    mc_tree_cmd_goto_left Sample.PATH_SEP Sample.vfs_path_equal Sample.vfs_path_equal_len
      Sample.vfs_path_len Sample.is_idle Sample.change_panel Sample.do_cd
      store4 xtree_navigation_mode (panel_at 3 10)
    = Done (t', true, evs) ∧
    [1; 2; 3; 4]%positive !! k' = Some q ∧ selected_ptr t' = Some q ∧ (k' < 2)%nat.
Proof.
  destruct (goto_left_reports_move Sample.PATH_SEP Sample.vfs_path_equal
              Sample.vfs_path_equal_len Sample.vfs_path_len Sample.is_idle
              Sample.change_panel Sample.do_cd
              store4 [1; 2; 3; 4]%positive xtree_navigation_mode (panel_at 3 10) 2 3%positive
              leaves_selection_sample linked_store4 eq_refl eq_refl (λ _, paths_wf_store4))
    as (t' & b & evs & Hrun & Hb & _ & k' & q & Hq & Hsel & _ & Hlt).
  - by vm_compute.
  - assert (b = true) as Htrue by (apply Hb; split; [reflexivity|discriminate]).
    exists t', evs, k', q. rewrite Htrue in Hrun.
    split; [exact Hrun|]. split; [exact Hq|]. split; [exact Hsel|exact (Hlt Htrue)].
Defined.

(** X20: on a window that has no negative number of rows, and with
    collaborators on the other panel that return and leave the selection
    alone: when the record after the selection is deeper than it, the
    handler of "goto_right" in navigation mode selects that record without
    asking the store to rescan, and leaves TRUE in [event_info->ret->b];
    in flat mode it keeps the selection and leaves FALSE.  The store is
    the same in both modes. *)
Theorem goto_right_enters_listed_child (PATH_SEP : ascii)
    (cwd : option string) (chdir : string → Z)
    (vfs_path_equal : string → string → bool)
    (vfs_path_equal_len : string → string → Z → bool) (vfs_path_len : string → Z)
    (store_rescan : TreeStore → string → list (TreeStore * addr) * TreeStore)
    (is_idle : bool)
    (change_panel : TreeStore → Globals → WTree → outcome WTree)
    (do_cd : TreeStore → Globals → WTree → string → outcome WTree)
    (ts : TreeStore) (l : list positive) (g : Globals) (t : WTree)
    (k : nat) (p q : positive) :
  leaves_selection change_panel do_cd →
  linked ts l → l !! k = Some p → selected_ptr t = Some p →
  l !! S k = Some q → depth ts p < depth ts q →
  (tree_navigation_flag g = true → paths_wf PATH_SEP ts l) →
  0 ≤ tlines g t →
  ∃ t' evs,
    mc_tree_cmd_goto_right PATH_SEP cwd chdir vfs_path_equal vfs_path_equal_len
      vfs_path_len store_rescan is_idle change_panel do_cd ts g t
    = Done (ts, t', tree_navigation_flag g, evs) ∧
    selected_ptr t' = Some (if tree_navigation_flag g then q else p) ∧
    EvRescan ∉ evs.
Proof.
  intros Hpanels Hl Hk Hp Hq Hdeep Hwf Hrows. unfold mc_tree_cmd_goto_right.
  pose proof (redraw_notify_spec PATH_SEP vfs_path_equal vfs_path_equal_len vfs_path_len
                is_idle change_panel do_cd Hpanels ts l Hl g Hwf) as Hdrawn.
  destruct (tree_navigation_flag g).
  - rewrite (tree_move_to_child_deeper cwd chdir store_rescan ts l Hl g t k p q Hk Hp Hq Hdeep).
    rewrite bind_Done. cbn beta iota.
    set (t1 := tree_check_focus g _).
    assert (selected_ptr t1 = Some q) as Hsel1 by (unfold t1; by rewrite selected_check_focus).
    assert (tlines g t1 = tlines g t) as Hrows1
      by (apply tlines_window; unfold t1; window).
    destruct (Hdrawn t1 (S k) q Hq Hsel1) as (td & t' & evs & Hrun & (Hs & _) & _ & _ & _ & Hevs & _);
      [lia|].
    revert Hrun.
    destruct (show_tree PATH_SEP vfs_path_equal vfs_path_equal_len vfs_path_len ts g t1)
      as [t2| |]; [|done..].
    rewrite !bind_Done. intros ->. rewrite bind_Done. cbn beta iota.
    eexists _, _. split; [reflexivity|]. split; [by rewrite Hs|].
    destruct Hevs as [-> | ->]; [by intros ?%elem_of_nil|].
    by intros [?|?%elem_of_nil]%elem_of_cons.
  - exists t, []. split; [reflexivity|]. split; [done|]. by intros ?%elem_of_nil.
Qed.

Lemma goto_right_enters_listed_child_witness :
  ∃ t' evs,
    mc_tree_cmd_goto_right Sample.PATH_SEP (Some "/"%string) (λ _, 0) Sample.vfs_path_equal
      Sample.vfs_path_equal_len Sample.vfs_path_len Sample.tree_store_rescan Sample.is_idle
      Sample.change_panel Sample.do_cd
      store4 xtree_navigation_mode (panel_at 2 10)
    = Done (store4, t', true, evs) ∧
    selected_ptr t' = Some 3%positive ∧ EvRescan ∉ evs.
Proof.
  apply (goto_right_enters_listed_child Sample.PATH_SEP (Some "/"%string) (λ _, 0)
           Sample.vfs_path_equal Sample.vfs_path_equal_len Sample.vfs_path_len
           Sample.tree_store_rescan Sample.is_idle Sample.change_panel Sample.do_cd
           store4 [1; 2; 3; 4]%positive xtree_navigation_mode (panel_at 2 10)
           1 2%positive 3%positive
           leaves_selection_sample linked_store4 eq_refl eq_refl eq_refl).
  - reflexivity.
  - intros _. exact paths_wf_store4.
  - by vm_compute.
Defined.

(** ** Forgetting a directory *)

(** X21: with nothing selected the handler of "forget" does nothing.
    With a record of a linked store selected, it asks the store to remove
    the directory of that record; when the store announces each removal
    to the hook before it unlinks the record, never empties the list, and
    leaves a linked store that holds the records not removed, the handler
    returns that store and a view that differs from the old one at most
    in [selected_ptr], which is on a record of the new list. *)
Theorem forget_keeps_selection_in_store
    (store_remove : TreeStore → string → list (TreeStore * addr) * TreeStore)
    (ts : TreeStore) (l : list positive) (t : WTree) :
  linked ts l →
  (selected_ptr t = None → mc_tree_cmd_forget store_remove ts t = Done (ts, t)) ∧
  (∀ p s l_mid l',
     selected_ptr t = Some p → p ∈ l → heap ts !! p = Some s →
     removals l (store_remove ts (name s)).1 l_mid →
     linked (store_remove ts (name s)).2 l' → l_mid ⊆ l' →
     ∃ q, mc_tree_cmd_forget store_remove ts t
            = Done ((store_remove ts (name s)).2, set_selected_ptr (Some q) t) ∧
          q ∈ l').
Proof.
  intros Hl. unfold mc_tree_cmd_forget. split; [by intros ->|].
  intros p s l_mid l' Hp Hin Hs Hrem Hl' Hsub. rewrite Hp.
  unfold deref. rewrite Hs, bind_Done.
  destruct (store_remove ts (name s)) as [hooks ts']. cbn [fst snd] in *.
  destruct (run_remove_hooks_reseats l l_mid hooks t Hrem) as (q & -> & Hq); [by exists p|].
  rewrite bind_Done. exists q. split; [reflexivity|]. by apply Hsub.
Qed.

(** Forgetting /b/y while it is selected: the store announces the
    removal, and the selection moves to a record that stays. *)
Lemma forget_keeps_selection_in_store_witness :
  ∃ q, mc_tree_cmd_forget (λ _ _, ([(store5, 5%positive)], store4)) store5 (view_at 5 10)
         = Done (store4, set_selected_ptr (Some q) (view_at 5 10)) ∧
       q ∈ [1; 2; 3; 4]%positive.
Proof.
  refine (proj2 (forget_keeps_selection_in_store (λ _ _, ([(store5, 5%positive)], store4))
                   store5 [1; 2; 3; 4; 5]%positive (view_at 5 10) linked_store5)
            5%positive (TreeEntry "/b/y" 2 0 "y" None (Some 4%positive))
            [1; 2; 3; 4]%positive [1; 2; 3; 4]%positive eq_refl _ _ _ linked_store4 _).
  - by apply (bool_decide_unpack _).
  - by vm_compute.
  - apply (removals_cons _ store5 4 5%positive);
      [apply linked_store5|reflexivity|simpl; lia|constructor].
  - done.
Defined.

(** ** A new view *)

Lemma active_check_focus g t : active (tree_check_focus g t) = active t.
Proof. unfold tree_check_focus. repeat case_match; reflexivity. Qed.

(** X22: on a store that is not empty and whose [tree_store_whereis] answers
    with its own records, [tree_new] returns a view that selects a record
    of the store, is not searching, has an empty search buffer and is not
    active.  When the home directory is in the store it is the selection,
    and [topdiff] is half the height of the widget, rounded towards zero
    and then corrected by [tree_check_focus]; when it is not, the first
    record is selected and [topdiff] is half the height, uncorrected. *)
Theorem tree_new_selects_a_record
    (whereis : TreeStore → string → option addr) (home : string)
    (ts : TreeStore) (l : list positive) (g : Globals) (lines0 : Z) (panel : bool) :
  linked ts l → l ≠ [] →
  (∀ dir c, whereis ts dir = Some c → c ∈ l) →
  let t := tree_new whereis home ts g lines0 panel in
  selects l t ∧ search_buffer t = EmptyString ∧ searching t = false ∧ active t = false ∧
  match whereis ts home with
  | Some c => selected_ptr t = Some c ∧ topdiff t = clamp (tlines g t) (lines0 ÷ 2)
  | None => selected_ptr t = head l ∧ topdiff t = lines0 ÷ 2
  end.
Proof.
  intros Hl Hne Hsound t. subst t. unfold tree_new, load_tree, mc_tree_cmd_chdir.
  destruct (whereis ts home) as [c|] eqn:Hhome.
  - rewrite buffer_check_focus, searching_check_focus, active_check_focus,
      selected_check_focus, topdiff_check_focus, tlines_check_focus.
    split; [|done]. exists c. split; [by rewrite selected_check_focus|].
    by apply (Hsound home).
  - cbn. rewrite (linked_first ts l Hl), head_lookup.
    split; [|done]. destruct l as [|f l']; [done|].
    exists f. split; [done|]. apply elem_of_cons. by left.
Qed.

Lemma tree_new_selects_a_record_witness :
  let t := tree_new (λ _ dir, if String.eqb dir "/a" then Some 2%positive else None)
             "/a" store4 flat_mode 9 true in
  selected_ptr t = Some 2%positive ∧ topdiff t = 3.
Proof.
  destruct (tree_new_selects_a_record
              (λ _ dir, if String.eqb dir "/a" then Some 2%positive else None)
              "/a" store4 [1; 2; 3; 4]%positive flat_mode 9 true linked_store4)
    as (_ & _ & _ & _ & Hsel & Htd).
  - discriminate.
  - intros dir c. destruct (String.eqb dir "/a"); [|discriminate].
    intros [= <-]. by apply (bool_decide_unpack _).
  - split; [exact Hsel|exact Htd].
Defined.

(** ** The rows on the screen *)

Section Rows.
Context (PATH_SEP : ascii).
Context (vfs_path_equal : string → string → bool).
Context (vfs_path_equal_len : string → string → Z → bool).
Context (vfs_path_len : string → Z).
Context (ts : TreeStore) (l : list positive) (Hl : linked ts l).
Context (g : Globals) (Hflat : tree_navigation_flag g = false).

Local Abbreviation draw :=
  (show_tree_draw PATH_SEP vfs_path_equal vfs_path_equal_len vfs_path_len ts g).
Local Abbreviation rows_from := (rows_from l).

Lemma rows_from_S a n : rows_from a (S n) = l !! a :: rows_from (S a) n.
Proof.
  unfold rows_from. cbn [seq fmap list_fmap]. rewrite Nat.add_0_r. f_equal.
  rewrite <- fmap_S_seq, <- list_fmap_compose. apply list_fmap_ext.
  intros _ i _. cbn. f_equal. lia.
Qed.

Lemma rows_from_lookup a n i : (i < n)%nat → rows_from a n !! i = Some (l !! (a + i)%nat).
Proof.
  intros Hi. unfold rows_from. rewrite list_lookup_fmap, lookup_seq_lt by done. done.
Qed.

Lemma rows_from_length a n : length (rows_from a n) = n.
Proof. unfold rows_from. by rewrite length_fmap, length_seq. Qed.

Lemma show_tree_rows_flat n : ∀ a topsublevel sel,
  show_tree_rows PATH_SEP vfs_path_equal_len vfs_path_len ts g n topsublevel sel (l !! a)
  = Done (rows_from a n).
Proof using Hl Hflat.
  induction n as [|n IH]; intros a topsublevel sel; [done|].
  rewrite rows_from_S. cbn [show_tree_rows].
  destruct (l !! a) as [p|] eqn:Hp.
  - destruct (linked_deref ts l Hl a p Hp) as (c & -> & _ & Hnx & _).
    rewrite bind_Done, Hnx, Hflat.
    assert ((if sublevel c =? topsublevel then Done c
             else match l !! S a with
                  | Some _ => deref ts (l !! S a)
                  | None => Done c
                  end) = Done c ∨
            ∃ c', (if sublevel c =? topsublevel then Done c
                   else match l !! S a with
                        | Some _ => deref ts (l !! S a)
                        | None => Done c
                        end) = Done c') as Hbranch.
    { destruct (sublevel c =? topsublevel); [by left|].
      destruct (l !! S a) as [q|] eqn:Hq; [|by left].
      destruct (linked_deref ts l Hl (S a) q Hq) as (c' & -> & _). right. by exists c'. }
    destruct Hbranch as [-> | [c' ->]]; by rewrite !bind_Done, IH.
  - assert (l !! S a = None) as Hnone.
    { apply lookup_ge_None. apply lookup_ge_None in Hp. lia. }
    pose proof (IH (S a) topsublevel sel) as Hrest. rewrite Hnone in Hrest.
    by rewrite Hrest.
Qed.

Lemma show_tree_draw_flat t k p :
  l !! k = Some p → selected_ptr t = Some p → 0 ≤ tlines g t →
  let td := (k `min` Z.to_nat (topdiff t))%nat in
  draw t = Done (set_topdiff (Z.of_nat td) t, rows_from (k - td) (Z.to_nat (tlines g t))).
Proof using Hl Hflat.
  intros Hk Hp Hrows td. pose proof (lookup_lt_Some _ _ _ Hk) as Hlen.
  unfold show_tree_draw.
  rewrite (proj2 (Z.ltb_ge (tlines g t) 0)) by done.
  rewrite (linked_first ts l Hl).
  destruct (lookup_lt_is_Some_2 l 0%nat) as [f Hf]; [lia|]. rewrite Hf.
  destruct (linked_deref ts l Hl 0%nat f Hf) as (ef & -> & _).
  rewrite !bind_Done, Hp. cbv beta iota zeta. rewrite Hp, Hflat. cbn [negb].
  rewrite (back_ptr_spec ts l Hl k p (topdiff t) Hk), bind_Done. cbn beta iota.
  fold td. rewrite show_tree_rows_flat, bind_Done.
  change (is_panel (set_topdiff (Z.of_nat td) t)) with (is_panel t).
  change (searching (set_topdiff (Z.of_nat td) t)) with (searching t).
  change (selected_ptr (set_topdiff (Z.of_nat td) t)) with (selected_ptr t).
  destruct (is_panel t && negb (show_mini_info g)); [done|].
  destruct (searching t); [done|].
  rewrite Hp. by destruct (linked_deref ts l Hl k p Hk) as (e & -> & _).
Qed.

(** A double click on a row of a view that is drawn as it stands, in a
    tree that is not a panel. *)
Lemma tree_event_double_click change_panel do_cd t shown ev k p :
  l !! k = Some p → selected_ptr t = Some p → active t = true → is_panel t = false →
  draw t = Done (t, shown) →
  in_widget ev = true → ev_up ev = true → ev_double ev = true →
  let y := local_y ev - 1 in
  0 ≤ y < tlines g t →
  let t' := match l !! (k - Z.to_nat (topdiff t) + Z.to_nat y)%nat with
            | Some r => set_topdiff y (set_selected_ptr (Some r) t)
            | None => t
            end in
  0 ≤ topdiff t ≤ Z.of_nat k ∧
  shown !! Z.to_nat y = Some (l !! (k - Z.to_nat (topdiff t) + Z.to_nat y)%nat) ∧
  tree_event PATH_SEP vfs_path_equal vfs_path_equal_len vfs_path_len change_panel do_cd
    ts g t shown ev = Done (t', shown, MOU_NORMAL, [EvEnter]) ∧
  draw t' = Done (t', shown).
Proof using Hl Hflat.
  intros Hk Hp Hact Hpanel Hdrawn Hin Hup Hdbl y Hy t'.
  pose proof (lookup_lt_Some _ _ _ Hk) as Hlen.
  pose proof Hdrawn as Hdrawn0.
  rewrite (show_tree_draw_flat t k p Hk Hp) in Hdrawn by lia.
  injection Hdrawn as Htd Hshown.
  assert (topdiff t = Z.of_nat (k `min` Z.to_nat (topdiff t))) as Htop.
  { by rewrite <- Htd at 1. }
  assert (0 ≤ topdiff t ≤ Z.of_nat k) as Hbound by lia.
  replace (k `min` Z.to_nat (topdiff t))%nat with (Z.to_nat (topdiff t)) in Hshown by lia.
  split; [done|].
  assert (shown !! Z.to_nat y = Some (l !! (k - Z.to_nat (topdiff t) + Z.to_nat y)%nat))
    as Hrow by (rewrite <- Hshown; apply rows_from_lookup; lia).
  split; [done|].
  assert (draw t' = Done (t', shown)) as Hsync.
  { unfold t'. destruct (l !! (k - Z.to_nat (topdiff t) + Z.to_nat y)%nat) as [r|] eqn:Hr;
      [|exact Hdrawn0].
    set (t1 := set_topdiff y (set_selected_ptr (Some r) t)).
    rewrite (show_tree_draw_flat t1 _ r Hr eq_refl)
      by (change (tlines g t1) with (tlines g t); lia).
    change (topdiff t1) with y. change (tlines g t1) with (tlines g t).
    replace ((k - Z.to_nat (topdiff t) + Z.to_nat y) `min` Z.to_nat y)%nat
      with (Z.to_nat y) by lia.
    replace (k - Z.to_nat (topdiff t) + Z.to_nat y - Z.to_nat y)%nat
      with (k - Z.to_nat (topdiff t))%nat by lia.
    rewrite Hshown, Z2Nat.id by lia. done. }
  split; [|exact Hsync].
  unfold tree_event. rewrite Hin, Hpanel, Hup, Hact, Hdbl. cbn [negb andb].
  rewrite bind_mret. cbn beta iota. fold y.
  rewrite (proj2 (Z.ltb_ge y 0)) by lia.
  destruct (Z.geb_spec y (tlines g t)) as [|_]; [lia|].
  rewrite Hrow, bind_Done. unfold t'.
  destruct (l !! (k - Z.to_nat (topdiff t) + Z.to_nat y)%nat) as [r|];
    unfold mc_tree_cmd_enter_draw;
    [change (is_panel (set_topdiff y (set_selected_ptr (Some r) t))) with (is_panel t)|];
    by rewrite Hpanel.
Qed.

End Rows.

(** X15: in flat mode, for a window that has no negative number of rows,
    [show_tree] fills [tree_shown] with one row per line of the window:
    the records of the list in order, starting [topdiff] records before
    the selection (or at the first record when fewer come before it), and
    a null pointer for each row past the end of the list.  The corrected
    [topdiff] is the row of the selection, when the window has that many
    rows. *)
Theorem show_tree_draw_flat_rows (PATH_SEP : ascii)
    (vfs_path_equal : string → string → bool)
    (vfs_path_equal_len : string → string → Z → bool) (vfs_path_len : string → Z)
    (ts : TreeStore) (l : list positive) (g : Globals) (t : WTree)
    (k : nat) (p : positive) :
  linked ts l → l !! k = Some p → selected_ptr t = Some p →
  tree_navigation_flag g = false → 0 ≤ tlines g t →
  let td := (k `min` Z.to_nat (topdiff t))%nat in
  ∃ rows,
    show_tree_draw PATH_SEP vfs_path_equal vfs_path_equal_len vfs_path_len ts g t
      = Done (set_topdiff (Z.of_nat td) t, rows) ∧
    show_tree PATH_SEP vfs_path_equal vfs_path_equal_len vfs_path_len ts g t
      = Done (set_topdiff (Z.of_nat td) t) ∧
    length rows = Z.to_nat (tlines g t) ∧
    (∀ i, (i < Z.to_nat (tlines g t))%nat → rows !! i = Some (l !! (k - td + i)%nat)) ∧
    (Z.of_nat td < tlines g t → rows !! td = Some (Some p)).
Proof.
  intros Hl Hk Hp Hflat Hrows td.
  exists (rows_from l (k - td) (Z.to_nat (tlines g t))).
  split.
  { exact (show_tree_draw_flat PATH_SEP vfs_path_equal vfs_path_equal_len vfs_path_len
             ts l Hl g Hflat t k p Hk Hp Hrows). }
  split.
  - destruct (show_tree_spec PATH_SEP vfs_path_equal vfs_path_equal_len vfs_path_len
                ts l Hl g t k p Hk Hp) as (td' & -> & _ & _ & Hval); [congruence|done|].
    by destruct (Hval Hflat) as [-> _].
  - split; [apply rows_from_length|]. split.
    + intros i Hi. by apply rows_from_lookup.
    + intros Hvis. rewrite rows_from_lookup by lia. do 2 f_equal.
      rewrite <- Hk. f_equal. lia.
Qed.

Lemma show_tree_draw_flat_rows_witness :
  ∃ rows,
    show_tree_draw Sample.PATH_SEP Sample.vfs_path_equal Sample.vfs_path_equal_len
      Sample.vfs_path_len store4 flat_mode (view_at 3 10)
      = Done (set_topdiff 2 (view_at 3 10), rows) ∧
    rows !! 2%nat = Some (Some 3%positive).
Proof.
  destruct (show_tree_draw_flat_rows Sample.PATH_SEP Sample.vfs_path_equal
              Sample.vfs_path_equal_len Sample.vfs_path_len store4 [1; 2; 3; 4]%positive
              flat_mode (view_at 3 10) 2 3%positive linked_store4 eq_refl eq_refl eq_refl)
    as (rows & Hrun & _ & _ & _ & Hsel).
  - by vm_compute.
  - exists rows. split; [exact Hrun|]. apply Hsel. by vm_compute.
Defined.

(** ** The mouse *)

(** X23: in flat mode, in a tree that is not a panel (the tree of the
    dialog box) and is active, whose rows on the screen are those
    [show_tree] draws for it as it stands: releasing a double click on a
    row of the window selects the record shown on that row and sets
    [topdiff] to that row, so that the rows on the screen are still those
    of the view; on a row past the end of the list the view is left
    alone.  Either way the "enter" event is raised and the answer is
    [MOU_NORMAL]. *)
Theorem double_click_selects_row (PATH_SEP : ascii)
    (vfs_path_equal : string → string → bool)
    (vfs_path_equal_len : string → string → Z → bool) (vfs_path_len : string → Z)
    (change_panel : TreeStore → Globals → WTree → list (option addr) →
                    outcome (WTree * list (option addr)))
    (do_cd : TreeStore → Globals → WTree → list (option addr) → string →
             outcome (WTree * list (option addr)))
    (ts : TreeStore) (l : list positive) (g : Globals) (t : WTree)
    (shown : list (option addr)) (ev : mouse_event) (k : nat) (p : positive) :
  linked ts l → tree_navigation_flag g = false →
  l !! k = Some p → selected_ptr t = Some p → active t = true → is_panel t = false →
  show_tree_draw PATH_SEP vfs_path_equal vfs_path_equal_len vfs_path_len ts g t
    = Done (t, shown) →
  in_widget ev = true → ev_up ev = true → ev_double ev = true →
  let y := local_y ev - 1 in
  0 ≤ y < tlines g t →
  let t' := match l !! (k - Z.to_nat (topdiff t) + Z.to_nat y)%nat with
            | Some r => set_topdiff y (set_selected_ptr (Some r) t)
            | None => t
            end in
  0 ≤ topdiff t ≤ Z.of_nat k ∧
  shown !! Z.to_nat y = Some (l !! (k - Z.to_nat (topdiff t) + Z.to_nat y)%nat) ∧
  tree_event PATH_SEP vfs_path_equal vfs_path_equal_len vfs_path_len change_panel do_cd
    ts g t shown ev = Done (t', shown, MOU_NORMAL, [EvEnter]) ∧
  show_tree_draw PATH_SEP vfs_path_equal vfs_path_equal_len vfs_path_len ts g t'
    = Done (t', shown).
Proof.
  intros Hl Hflat Hk Hp.
  exact (tree_event_double_click PATH_SEP vfs_path_equal vfs_path_equal_len vfs_path_len
           ts l Hl g Hflat change_panel do_cd t shown ev k p Hk Hp).
Qed.

Lemma double_click_selects_row_witness :
  tree_event Sample.PATH_SEP Sample.vfs_path_equal Sample.vfs_path_equal_len
    Sample.vfs_path_len (λ _ _ _ _, Fault) (λ _ _ _ _ _, Fault)
    store4 flat_mode (view_at 3 2) (rows_from [1; 2; 3; 4]%positive 0 20)
    (MkMouseEvent true false false true true 4)
  = Done (set_topdiff 3 (set_selected_ptr (Some 4%positive) (view_at 3 2)),
          rows_from [1; 2; 3; 4]%positive 0 20, MOU_NORMAL, [EvEnter]).
Proof.
  apply (double_click_selects_row Sample.PATH_SEP Sample.vfs_path_equal
           Sample.vfs_path_equal_len Sample.vfs_path_len (λ _ _ _ _, Fault) (λ _ _ _ _ _, Fault)
           store4 [1; 2; 3; 4]%positive flat_mode (view_at 3 2)
           (rows_from [1; 2; 3; 4]%positive 0 20) (MkMouseEvent true false false true true 4)
           2 3%positive linked_store4 eq_refl eq_refl eq_refl eq_refl eq_refl).
  - by vm_compute.
  - reflexivity.
  - reflexivity.
  - reflexivity.
  - by vm_compute.
Defined.

(** ** The keyboard *)

Section KeyProofs.
Context (KEY_BACKSPACE MC_MAXFILENAMELEN : Z) (PATH_SEP : ascii).
Context (vfs_path_equal : string → string → bool).
Context (vfs_path_equal_len : string → string → Z → bool).
Context (vfs_path_len : string → Z).
Context (is_idle : bool).
Context (change_panel : TreeStore → Globals → WTree → outcome WTree).
Context (do_cd : TreeStore → Globals → WTree → string → outcome WTree).
Context (Hpanels : leaves_selection change_panel do_cd).
Context (is_abort_char : Z → bool) (command_prompt : bool) (tree_map : list (Z * Z)).
Context (tree_execute_cmd : TreeStore → Globals → WTree → Z →
                            outcome (TreeStore * Globals * WTree * cb_ret_t * list event)).
Context (ts : TreeStore) (l : list positive) (Hl : linked ts l).
Context (g : Globals).
Context (Hwf : tree_navigation_flag g = true → paths_wf PATH_SEP ts l).

Local Abbreviation key_pressed :=
  (tree_key KEY_BACKSPACE MC_MAXFILENAMELEN PATH_SEP vfs_path_equal vfs_path_equal_len
     vfs_path_len is_idle change_panel do_cd is_abort_char command_prompt tree_map
     tree_execute_cmd ts g).


Lemma tree_key_starts_search t key :
  selects l t → searching t = false → 1 < MC_MAXFILENAMELEN → 0 ≤ tlines g t →
  is_abort_char key = false → tree_map_command tree_map key = None →
  command_prompt = false → search_key KEY_BACKSPACE key = true →
  ∃ t' evs, key_pressed t key = Done (ts, g, t', MSG_HANDLED, evs) ∧
            search_inv ts l t' ∧ strlen (search_buffer t') ≤ 1 ∧
            (xtree_mode g && is_panel t && is_idle = false → searching t' = true).
Proof using Hl Hwf Hpanels.
  intros (p & Hp & Hin) Hs Hroom Hrows Habort Hmap Hprompt Hkey.
  unfold tree_key. rewrite Habort, Hs, Hmap, Hprompt, Hkey. cbn [andb negb].
  unfold mc_tree_cmd_search_begin. rewrite Hs, bind_mret. cbn beta iota.
  set (t1 := set_search_buffer EmptyString (set_searching true t)).
  assert (search_inv ts l t1) as Hinv1.
  { split; [exact I|]. exists p. split; [exact Hp|]. split; [exact Hin|].
    unfold prefix_match. cbn. by destruct (display_name ts p). }
  destruct (tree_do_search_step KEY_BACKSPACE MC_MAXFILENAMELEN PATH_SEP vfs_path_equal
              vfs_path_equal_len vfs_path_len is_idle change_panel do_cd Hpanels
              ts l Hl g Hwf t1 key Hinv1)
    as (t' & evs & -> & Hinv' & Hlen' & _ & _ & Hs'); [exact Hroom|exact Hrows|].
  rewrite bind_Done. cbn beta iota. exists t', ([] ++ evs).
  split; [reflexivity|]. split; [exact Hinv'|]. split; [exact Hlen'|].
  intros Hq. by rewrite (Hs' Hq).
Qed.

End KeyProofs.



(** X25: when the tree is not searching and there is no command prompt, a
    key from ' ' to 255, or backspace, that the key map does not bind and
    that is no abort character starts a search: on a window that has no
    negative number of rows, and with collaborators on the other panel
    that return and leave the selection and the buffer alone, [tree_key]
    answers [MSG_HANDLED], and the buffer holds at most one character and
    is a prefix of the display name of the selected record.  The view is
    searching when the other panel does not follow the tree (no
    [xtree_mode], or no panel, or input pending). *)
Theorem unbound_key_starts_search (KEY_BACKSPACE MC_MAXFILENAMELEN : Z) (PATH_SEP : ascii)
    (vfs_path_equal : string → string → bool)
    (vfs_path_equal_len : string → string → Z → bool) (vfs_path_len : string → Z)
    (is_idle : bool)
    (change_panel : TreeStore → Globals → WTree → outcome WTree)
    (do_cd : TreeStore → Globals → WTree → string → outcome WTree)
    (is_abort_char : Z → bool) (command_prompt : bool) (tree_map : list (Z * Z))
    (execute_cmd : TreeStore → Globals → WTree → Z →
                   outcome (TreeStore * Globals * WTree * cb_ret_t * list event))
    (ts : TreeStore) (l : list positive) (g : Globals) (t : WTree) (key : Z) :
  leaves_selection change_panel do_cd →
  linked ts l →
  (tree_navigation_flag g = true → paths_wf PATH_SEP ts l) →
  selects l t → searching t = false → 1 < MC_MAXFILENAMELEN → 0 ≤ tlines g t →
  is_abort_char key = false → tree_map_command tree_map key = None →
  command_prompt = false → search_key KEY_BACKSPACE key = true →
  ∃ t' evs,
    tree_key KEY_BACKSPACE MC_MAXFILENAMELEN PATH_SEP vfs_path_equal vfs_path_equal_len
      vfs_path_len is_idle change_panel do_cd is_abort_char command_prompt tree_map
      execute_cmd ts g t key
    = Done (ts, g, t', MSG_HANDLED, evs) ∧
    search_inv ts l t' ∧ strlen (search_buffer t') ≤ 1 ∧
    (xtree_mode g && is_panel t && is_idle = false → searching t' = true).
Proof. intros Hpanels Hl Hwf. by apply tree_key_starts_search. Qed.

Lemma unbound_key_starts_search_witness :
  ∃ t' evs,
    tree_key Sample.KEY_BACKSPACE Sample.MC_MAXFILENAMELEN Sample.PATH_SEP
      Sample.vfs_path_equal Sample.vfs_path_equal_len Sample.vfs_path_len Sample.is_idle
      Sample.change_panel Sample.do_cd
      (λ key, key =? 27) false [(259, 1)] (λ ts g t _, Done (ts, g, t, MSG_NOT_HANDLED, []))
      store4 flat_mode (view_at 1 10) 98
    = Done (store4, flat_mode, t', MSG_HANDLED, evs) ∧
    searching t' = true.
Proof.
  destruct (unbound_key_starts_search Sample.KEY_BACKSPACE Sample.MC_MAXFILENAMELEN
              Sample.PATH_SEP Sample.vfs_path_equal Sample.vfs_path_equal_len
              Sample.vfs_path_len Sample.is_idle Sample.change_panel Sample.do_cd
              (λ key, key =? 27) false [(259, 1)]
              (λ ts g t _, Done (ts, g, t, MSG_NOT_HANDLED, []))
              store4 [1; 2; 3; 4]%positive flat_mode (view_at 1 10) 98
              leaves_selection_sample linked_store4) as (t' & evs & Hrun & _ & _ & Hs).
  - discriminate.
  - exists 1%positive. split; [reflexivity|]. by apply (bool_decide_unpack _).
  - reflexivity.
  - reflexivity.
  - by vm_compute.
  - reflexivity.
  - reflexivity.
  - reflexivity.
  - reflexivity.
  - exists t', evs. split; [exact Hrun|exact (Hs eq_refl)].
Defined.

(** ** The rows in navigation mode *)

Lemma increasing_cons a js :
  increasing js → Forall (λ j, (a < j)%nat) js → increasing (a :: js).
Proof.
  intros Hjs Hall [|i] [|j] x y Hij Hx Hy; try lia; cbn in Hx, Hy.
  - injection Hx as <-. by apply (proj1 (Forall_lookup _ _) Hall j y).
  - apply (Hjs i j x y); [lia|done..].
Qed.

Section NavigationRows.
Context (PATH_SEP : ascii).
Context (vfs_path_equal : string → string → bool).
Context (vfs_path_equal_len : string → string → Z → bool).
Context (vfs_path_len : string → Z).
Context (ts : TreeStore) (l : list positive) (Hl : linked ts l).
Context (Hwf : paths_wf PATH_SEP ts l).

Local Abbreviation top_loop :=
  (show_tree_top_loop PATH_SEP vfs_path_equal vfs_path_equal_len vfs_path_len ts).
Local Abbreviation top_walk :=
  (show_tree_top_walk PATH_SEP vfs_path_equal vfs_path_equal_len vfs_path_len ts).
Local Abbreviation skip :=
  (show_tree_skip PATH_SEP vfs_path_equal_len vfs_path_len ts).

Lemma show_tree_top_walk_eq fuel sel current i td :
  top_walk fuel sel current i td =
  (c ← deref ts current;
   match prev c with
   | None => Done (current, i)
   | Some _ =>
       if i <? td then
         match fuel with
         | O => OutOfFuel
         | S fuel' =>
             p ← deref ts (prev c);
             s ← deref ts sel;
             if sublevel p <? sublevel s then
               top_walk fuel' sel (prev c)
                 (if vfs_path_equal (name p) (name s) then i + 1 else i) td
             else if sublevel p =? sublevel s then
               match last_sep PATH_SEP (name p) 0 None with
               | None => Fault
               | Some j =>
                   top_walk fuel' sel (prev c)
                     (if vfs_path_equal_len (name p) (name s) j then i + 1 else i) td
               end
             else
               top_walk fuel' sel (prev c)
                 (if (sublevel p =? sublevel s + 1) && (vfs_path_len (name s) >? 1)
                     && vfs_path_equal_len (name p) (name s) (vfs_path_len (name s))
                  then i + 1 else i) td
         end
       else Done (current, i)
   end).
Proof. destruct fuel; reflexivity. Qed.

(** The walk to the top row stops on a record of the list, not after the
    selection, and counts what [show_tree_top_loop] counts. *)
Lemma show_tree_top_walk_spec ks ps td fuel : ∀ kc pc i,
  l !! ks = Some ps → l !! kc = Some pc → (kc ≤ fuel)%nat →
  ∃ kc' pc' i', top_walk fuel (Some ps) (Some pc) i td = Done (Some pc', i') ∧
                top_loop fuel (Some ps) (Some pc) i td = Done i' ∧
                l !! kc' = Some pc' ∧ (kc' ≤ kc)%nat ∧ i ≤ i' ≤ Z.max i td.
Proof using Hl Hwf.
  induction fuel as [|fuel IH]; intros kc pc i Hs Hc Hfuel;
    rewrite show_tree_top_walk_eq, show_tree_top_loop_eq;
    destruct (linked_deref ts l Hl kc pc Hc) as (c & -> & _ & _ & Hpv);
    rewrite !bind_Done, Hpv;
    (destruct kc as [|kc]; cbn [before];
     [exists 0%nat, pc, i; split; [done|]; split; [done|]; split; [done|lia]|]); [lia|].
  pose proof (lookup_lt_Some _ _ _ Hc).
  destruct (lookup_lt_is_Some_2 l kc) as [q Hq]; [lia|]. rewrite Hq.
  destruct (Z.ltb_spec i td);
    [|exists (S kc), pc, i; split; [done|]; split; [done|]; split; [done|lia]].
  destruct (linked_deref ts l Hl kc q Hq) as (n & -> & Hn & _).
  destruct (linked_deref ts l Hl ks ps Hs) as (s & -> & _).
  rewrite !bind_Done.
  assert (∀ b : bool, ∃ kc' pc' i',
            top_walk fuel (Some ps) (Some q) (if b then i + 1 else i) td = Done (Some pc', i') ∧
            top_loop fuel (Some ps) (Some q) (if b then i + 1 else i) td = Done i' ∧
            l !! kc' = Some pc' ∧ (kc' ≤ S kc)%nat ∧ i ≤ i' ≤ Z.max i td) as Hnext.
  { intros b. destruct (IH kc q (if b then i + 1 else i) Hs Hq)
      as (kc' & pc' & i' & -> & -> & Hc' & Hle & Hb); [lia|].
    exists kc', pc', i'. split; [done|]. split; [done|]. split; [done|].
    split; [lia|]. destruct b; lia. }
  destruct (sublevel n <? sublevel s); [apply Hnext|].
  destruct (sublevel n =? sublevel s); [|apply Hnext].
  destruct (Hwf q n) as [j ->]; [by eapply list_elem_of_lookup_2|done|].
  apply Hnext.
Qed.

Lemma show_tree_skip_eq fuel sel current :
  skip fuel sel current =
  match current with
  | None => Done None
  | Some _ =>
      c ← deref ts current;
      s ← deref ts sel;
      stop ← (if sublevel c <? sublevel s then
                mret (vfs_path_equal_len (name c) (name s) (vfs_path_len (name c)))
              else if sublevel c =? sublevel s then
                match last_sep PATH_SEP (name c) 0 None with
                | None => Fault
                | Some j => mret (vfs_path_equal_len (name c) (name s) j)
                end
              else if (sublevel c =? sublevel s + 1) && (vfs_path_len (name s) >? 1) then
                mret (vfs_path_equal_len (name c) (name s) (vfs_path_len (name s)))
              else mret false);
      if (stop : bool) then Done current
      else match fuel with
           | O => OutOfFuel
           | S fuel' => skip fuel' sel (next c)
           end
  end.
Proof. destruct fuel; reflexivity. Qed.

(** The loop over the records that are not drawn stops on a later record
    of the list, or after its end. *)
Lemma show_tree_skip_spec ks ps fuel : ∀ a,
  l !! ks = Some ps → (length l - a ≤ fuel)%nat →
  ∃ b, skip fuel (Some ps) (l !! a) = Done (l !! b) ∧ (a ≤ b)%nat.
Proof using Hl Hwf.
  induction fuel as [|fuel IH]; intros a Hs Hfuel; rewrite show_tree_skip_eq;
    (destruct (l !! a) as [pc|] eqn:Ha; [|exists a; by rewrite Ha]);
    pose proof (lookup_lt_Some _ _ _ Ha); [lia|].
  destruct (linked_deref ts l Hl a pc Ha) as (c & -> & Hc & Hnx & _).
  destruct (linked_deref ts l Hl ks ps Hs) as (s & -> & _).
  rewrite !bind_Done.
  assert (∀ stop : bool, ∃ b,
            (if stop then Done (Some pc) else skip fuel (Some ps) (next c)) = Done (l !! b) ∧
            (a ≤ b)%nat) as Hcont.
  { intros [|]; [exists a; by rewrite Ha|].
    rewrite Hnx. destruct (IH (S a) Hs) as (b & -> & Hb); [lia|]. exists b. split; [done|lia]. }
  destruct (sublevel c <? sublevel s); [rewrite bind_mret; apply Hcont|].
  destruct (sublevel c =? sublevel s).
  - destruct (Hwf pc c) as [j ->]; [by eapply list_elem_of_lookup_2|done|].
    rewrite bind_mret. apply Hcont.
  - destruct ((sublevel c =? sublevel s + 1) && (vfs_path_len (name s) >? 1));
      rewrite bind_mret; [apply Hcont|apply (Hcont false)].
Qed.

(** The rows hold records of the list at increasing positions. *)
Lemma show_tree_rows_nav g ks ps topsublevel n : ∀ a,
  tree_navigation_flag g = true → l !! ks = Some ps →
  ∃ js, show_tree_rows PATH_SEP vfs_path_equal_len vfs_path_len ts g n topsublevel
          (Some ps) (l !! a) = Done ((λ j, l !! j) <$> js) ∧
        length js = n ∧ increasing js ∧ Forall (λ j, (a ≤ j)%nat) js.
Proof using Hl Hwf.
  induction n as [|n IH]; intros a Hnav Hs.
  { exists []. split; [done|]. split; [done|]. split; [by intros i j x y _ ?|constructor]. }
  cbn [show_tree_rows].
  assert (∀ b, (S a ≤ b)%nat →
            ∃ js, (rest ← show_tree_rows PATH_SEP vfs_path_equal_len vfs_path_len ts g n
                            topsublevel (Some ps) (l !! b);
                   mret (l !! a :: rest)) = Done ((λ j, l !! j) <$> js) ∧
                  length js = S n ∧ increasing js ∧ Forall (λ j, (a ≤ j)%nat) js)
    as Hrest.
  { intros b Hb. destruct (IH b Hnav Hs) as (js & -> & Hlen & Hsorted & Hall).
    exists (a :: js). split; [done|]. split; [by rewrite length_cons, Hlen|].
    split.
    - apply increasing_cons; [done|]. eapply Forall_impl; [exact Hall|]. cbn. lia.
    - constructor; [lia|]. eapply Forall_impl; [exact Hall|]. cbn. lia. }
  destruct (l !! a) as [pc|] eqn:Ha.
  - destruct (linked_deref ts l Hl a pc Ha) as (c & -> & _ & Hnx & _).
    rewrite bind_Done, Hnx, Hnav.
    assert (∃ c', (if sublevel c =? topsublevel then Done c
                   else match l !! S a with
                        | Some _ => deref ts (l !! S a)
                        | None => Done c
                        end) = Done c') as [c' ->].
    { destruct (sublevel c =? topsublevel); [by exists c|].
      destruct (l !! S a) as [q|] eqn:Hq; [|by exists c].
      destruct (linked_deref ts l Hl (S a) q Hq) as (c' & -> & _). by exists c'. }
    rewrite bind_Done.
    destruct (show_tree_skip_spec ks ps (store_fuel ts) (S a) Hs) as (b & -> & Hb).
    { pose proof (linked_fuel ts l Hl). lia. }
    rewrite bind_Done. by apply Hrest.
  - assert (l !! S a = None) as Hnone.
    { apply lookup_ge_None. apply lookup_ge_None in Ha. lia. }
    pose proof (Hrest (S a) (le_n _)) as Hr. rewrite Hnone in Hr. exact Hr.
Qed.

Lemma show_tree_draw_nav g t k p :
  tree_navigation_flag g = true → l !! k = Some p → selected_ptr t = Some p →
  0 ≤ tlines g t →
  ∃ td js,
    show_tree_draw PATH_SEP vfs_path_equal vfs_path_equal_len vfs_path_len ts g t
      = Done (set_topdiff td t, (λ j, l !! j) <$> js) ∧
    show_tree PATH_SEP vfs_path_equal vfs_path_equal_len vfs_path_len ts g t
      = Done (set_topdiff td t) ∧
    length js = Z.to_nat (tlines g t) ∧ increasing js ∧
    0 ≤ td ≤ Z.max 0 (topdiff t).
Proof using Hl Hwf.
  intros Hnav Hk Hp Hrows. pose proof (lookup_lt_Some _ _ _ Hk) as Hlen.
  unfold show_tree_draw, show_tree.
  rewrite (proj2 (Z.ltb_ge (tlines g t) 0)) by done.
  rewrite (linked_first ts l Hl).
  destruct (lookup_lt_is_Some_2 l 0%nat) as [f Hf]; [lia|]. rewrite Hf.
  destruct (linked_deref ts l Hl 0%nat f Hf) as (ef & -> & _).
  rewrite !bind_Done, Hp. cbv beta iota zeta. rewrite Hp, Hnav. cbn [negb].
  destruct (show_tree_top_walk_spec k p (topdiff t) (store_fuel ts) k p 0 Hk Hk)
    as (kc & pc & td & -> & -> & Hc & _ & Hb).
  { pose proof (linked_fuel ts l Hl). lia. }
  rewrite !bind_Done. cbn beta iota.
  change (selected_ptr (set_topdiff td t)) with (selected_ptr t).
  change (is_panel (set_topdiff td t)) with (is_panel t).
  change (searching (set_topdiff td t)) with (searching t).
  rewrite Hp, <- Hc.
  destruct (show_tree_rows_nav g k p (sublevel ef) (Z.to_nat (tlines g t)) kc Hnav Hk)
    as (js & -> & Hjs & Hsorted & _).
  rewrite bind_Done. exists td, js.
  destruct (linked_deref ts l Hl k p Hk) as (e & -> & _).
  split; [|split; [|split; [done|split; [done|lia]]]].
  - destruct (is_panel t && negb (show_mini_info g)); [done|]. by destruct (searching t).
  - destruct (is_panel t && negb (show_mini_info g)); [done|]. by destruct (searching t).
Qed.

End NavigationRows.

(** X16: in navigation mode too, on a linked store whose paths all hold a
    separator, [show_tree] returns for every window that has no negative
    number of rows: it fills one row per line of the window, with records
    of the list at strictly increasing positions (and null pointers past
    the end of the list), and it leaves a [topdiff] that is neither
    negative nor above the old one. *)
Theorem show_tree_draw_navigation_rows (PATH_SEP : ascii)
    (vfs_path_equal : string → string → bool)
    (vfs_path_equal_len : string → string → Z → bool) (vfs_path_len : string → Z)
    (ts : TreeStore) (l : list positive) (g : Globals) (t : WTree)
    (k : nat) (p : positive) :
  linked ts l → paths_wf PATH_SEP ts l →
  tree_navigation_flag g = true → l !! k = Some p → selected_ptr t = Some p →
  0 ≤ tlines g t →
  ∃ td js,
    show_tree_draw PATH_SEP vfs_path_equal vfs_path_equal_len vfs_path_len ts g t
      = Done (set_topdiff td t, (λ j, l !! j) <$> js) ∧
    show_tree PATH_SEP vfs_path_equal vfs_path_equal_len vfs_path_len ts g t
      = Done (set_topdiff td t) ∧
    length js = Z.to_nat (tlines g t) ∧ increasing js ∧
    0 ≤ td ≤ Z.max 0 (topdiff t).
Proof.
  intros Hl Hwf Hnav Hk Hp Hrows.
  exact (show_tree_draw_nav PATH_SEP vfs_path_equal vfs_path_equal_len vfs_path_len
           ts l Hl Hwf g t k p Hnav Hk Hp Hrows).
Qed.

Lemma show_tree_draw_navigation_rows_witness :
  ∃ td js,
    show_tree_draw Sample.PATH_SEP Sample.vfs_path_equal Sample.vfs_path_equal_len
      Sample.vfs_path_len store4 hierarchical_mode (view_at 3 10)
      = Done (set_topdiff td (view_at 3 10), (λ j, [1; 2; 3; 4]%positive !! j) <$> js) ∧
    length js = 20%nat.
Proof.
  destruct (show_tree_draw_navigation_rows Sample.PATH_SEP Sample.vfs_path_equal
              Sample.vfs_path_equal_len Sample.vfs_path_len store4 [1; 2; 3; 4]%positive
              hierarchical_mode (view_at 3 10) 2 3%positive linked_store4 paths_wf_store4
              eq_refl eq_refl eq_refl) as (td & js & Hrun & _ & Hlen & _).
  - by vm_compute.
  - exists td, js. split; [exact Hrun|exact Hlen].
Defined.
